(** * Sales analytics report generator (task_4.py): model and properties

    A shallow embedding of [src/task_4.py]: the two value cleaners
    ([clean_price], [clean_date_string]), the identity reconciler
    ([reconciliate_users]), the per-folder pipeline ([process_dataset]) and
    the report assembler ([main]).

    Conventions.
    - Python [str] is a list of Unicode code points.
    - The Unicode tables behind [str.strip], [str.lower] and the regular
      expression class [\d] are not part of the repository: they are taken
      as a parameter ([ucd]); [ascii_ucd] is their restriction to ASCII,
      used to evaluate the code on concrete inputs.
    - Python [float] is IEEE binary64, as [spec_float] with precision 53.
    - A raised exception is the [Raise] branch of [result]. *)

From Stdlib Require Import ZArith NArith List Bool Lia Permutation Relations.
From Stdlib Require Ascii String DecimalString.
Import String.StringSyntax.
Delimit Scope string_scope with string.
From Stdlib Require Import Floats.SpecFloat.
Import ListNotations.

Set Implicit Arguments.

(* ================================================================== *)
(** * Text *)

Module Text.

Definition char := N.
Definition str := list char.

(** An ASCII literal as a [str]. *)
Definition lit (s : String.string) : str :=
  List.map Ascii.N_of_ascii (String.list_ascii_of_string s).
Arguments lit s%_string.

Definition euro : char := 8364%N.   (* U+20AC *)
Definition dot  : char := 46%N.     (* '.' *)

Fixpoint str_eqb (a b : str) : bool :=
  match a, b with
  | [], [] => true
  | x :: a', y :: b' => N.eqb x y && str_eqb a' b'
  | _, _ => false
  end.

(** [s.startswith(p)] *)
Fixpoint prefixb (p s : str) : bool :=
  match p, s with
  | [], _ => true
  | x :: p', y :: s' => N.eqb x y && prefixb p' s'
  | _ :: _, [] => false
  end.

(** [p in s] for strings. *)
Fixpoint contains (p s : str) : bool :=
  prefixb p s || match s with
                 | [] => false
                 | _ :: t => contains p t
                 end.

(** [c in s] for a one-character [c]. *)
Definition has_char (c : char) (s : str) : bool :=
  existsb (N.eqb c) s.

(** [s.replace(old, new)] for a non-empty [old]: occurrences are found from
    the left and do not overlap.  [skip] counts the characters of the
    occurrence being replaced that are still to be consumed. *)
Fixpoint replace_from (old new : str) (skip : nat) (s : str) : str :=
  match s with
  | [] => []
  | c :: t =>
      match skip with
      | S k => replace_from old new k t
      | O => if prefixb old s
             then new ++ replace_from old new (length old - 1) t
             else c :: replace_from old new 0 t
      end
  end.

Definition replace (old new s : str) : str := replace_from old new 0 s.

(** The Unicode data the string methods consult. *)
Record ucd := {
  isspace : char -> bool;        (* str.isspace on one character *)
  lower   : str -> str;          (* str.lower *)
  decimal : char -> option N     (* decimal digit value; [\d] is [Some _] *)
}.

Section Strip.
Variable U : ucd.

Fixpoint lstrip (s : str) : str :=
  match s with
  | [] => []
  | c :: t => if isspace U c then lstrip t else s
  end.

Fixpoint rstrip (s : str) : str :=
  match s with
  | [] => []
  | c :: t =>
      match rstrip t with
      | [] => if isspace U c then [] else [c]
      | r => c :: r
      end
  end.

(** [s.strip()] *)
Definition strip (s : str) : str := rstrip (lstrip s).

Definition is_digit (c : char) : bool :=
  match decimal U c with Some _ => true | None => false end.
End Strip.

(** The tables restricted to ASCII. *)
Definition ascii_isspace (c : char) : bool :=
  ((9 <=? c) && (c <=? 13) || (28 <=? c) && (c <=? 32))%N.

Definition ascii_lower_char (c : char) : char :=
  if ((65 <=? c) && (c <=? 90))%N then (c + 32)%N else c.

Definition ascii_decimal (c : char) : option N :=
  if ((48 <=? c) && (c <=? 57))%N then Some (c - 48)%N else None.

Definition ascii_ucd : ucd :=
  {| isspace := ascii_isspace;
     lower := List.map ascii_lower_char;
     decimal := ascii_decimal |}.

End Text.
Import Text.

(* ================================================================== *)
(** * Exceptions *)

Inductive exn :=
| FileNotFoundError
| ParserError          (* pandas / pyarrow / yaml: malformed file *)
| StopIteration
| ValueError
| KeyError
| IndexError
| TypeError.

Inductive result (A : Type) :=
| Ok (a : A)
| Raise (e : exn).
Arguments Ok {A} a.
Arguments Raise {A} e.

Definition bind {A B} (r : result A) (k : A -> result B) : result B :=
  match r with
  | Ok a => k a
  | Raise e => Raise e
  end.

Notation "x <- r ;; k" := (bind r (fun x => k))
  (at level 61, r at next level, right associativity).

(** [[f(x) for x in l]] where [f] can raise. *)
Fixpoint mapM {A B} (f : A -> result B) (l : list A) : result (list B) :=
  match l with
  | [] => Ok []
  | a :: t => b <- f a ;; bs <- mapM f t ;; Ok (b :: bs)
  end.

(* ================================================================== *)
(** * Floats *)

Module Float.

Definition float := spec_float.
Definition prec : Z := 53.
Definition emax : Z := 1024.

Definition fmul : float -> float -> float := SFmul prec emax.
Definition fzero : float := S754_zero false.

(** The double nearest to [n / 10^k]: what Python's [float] yields for a
    string of decimal digits [n] with [k] of them after the point. *)
Definition of_decimal (n : N) (k : nat) : float :=
  match n with
  | N0 => fzero
  | Npos p => SFdiv prec emax (S754_finite false p 0)
                              (S754_finite false (Z.to_pos (10 ^ Z.of_nat k)) 0)
  end.

Definition of_integer (n : N) : float :=
  match n with
  | N0 => fzero
  | Npos p => binary_normalize prec emax (Zpos p) 0 false
  end.

Definition is_nan (x : float) : bool :=
  match x with S754_nan => true | _ => false end.

Definition fltb : float -> float -> bool := SFltb.

End Float.
Import Float.

(* ================================================================== *)
(** * Value cleaners *)

(** A table cell as the cleaners observe it: [pd.isna(v)] and [str(v)]. *)
Record cell := { isna : bool; text : str }.

Definition str_obj (s : str) : cell := {| isna := false; text := s |}.
Definition nan_obj : cell := {| isna := true; text := lit "nan" |}.
Definition none_obj : cell := {| isna := true; text := lit "None" |}.

Section Cleaners.
Variable U : ucd.

(** [re.sub(r'[^\d.]', '', s)] *)
Definition digits_and_dots (s : str) : str :=
  filter (fun c => is_digit U c || N.eqb c dot) s.

(** [re.sub(r'\D', '', s)] *)
Definition digits_only (s : str) : str := filter (is_digit U) s.

Fixpoint digits_value (acc : N) (s : str) : option N :=
  match s with
  | [] => Some acc
  | c :: t =>
      match decimal U c with
      | Some d => digits_value (10 * acc + d)%N t
      | None => None
      end
  end.

(** [s.partition('.')]: the text before the first point, and the text after
    it when there is one. *)
Fixpoint split_dot (s : str) : str * option str :=
  match s with
  | [] => ([], None)
  | c :: t =>
      if N.eqb c dot then ([], Some t)
      else let (a, b) := split_dot t in (c :: a, b)
  end.

(** [float(s)] on the strings that reach it here, made of digits and points:
    at least one digit and at most one point, otherwise [ValueError]. *)
Definition py_float (s : str) : result float :=
  let (ip, rest) := split_dot s in
  let fp := match rest with Some f => f | None => [] end in
  match ip ++ fp with
  | [] => Raise ValueError
  | ds =>
      match digits_value 0 ds with
      | Some n => Ok (of_decimal n (length fp))
      | None => Raise ValueError
      end
  end.

Definition f1_2 : float := of_decimal 12 1.   (* the literal 1.2 *)
Definition f1_0 : float := of_decimal 10 1.   (* the literal 1.0 *)

Definition clean_price (value : cell) : result float :=
  if isna value then Ok fzero
  else
    let s_val := strip U (text value) in
    let multiplier := if has_char euro s_val then f1_2 else f1_0 in
    let clean_val := digits_and_dots s_val in
    match clean_val with
    | [] => Ok fzero
    | _ => x <- py_float clean_val ;; Ok (fmul x multiplier)
    end.

Definition clean_date_string (date_str : cell) : str :=
  if isna date_str then text date_str
  else
    strip U
      (replace (lit ".M.") (lit "M")
         (replace (lit "P.M.") (lit "PM")
            (replace (lit "A.M.") (lit "AM") (text date_str)))).

End Cleaners.

(* ================================================================== *)
(** * Dictionaries

    A Python [dict]: keys are unique and keep their insertion order. *)

Section Dict.
Variables K V : Type.
Variable K_eq_dec : forall x y : K, {x = y} + {x <> y}.

Definition dict := list (K * V).

Fixpoint dict_get (d : dict) (k : K) : option V :=
  match d with
  | [] => None
  | (k', v) :: t => if K_eq_dec k k' then Some v else dict_get t k
  end.

(** [d[k] = v] *)
Fixpoint dict_set (d : dict) (k : K) (v : V) : dict :=
  match d with
  | [] => [(k, v)]
  | (k', v') :: t =>
      if K_eq_dec k k' then (k', v) :: t else (k', v') :: dict_set t k v
  end.

(** [{k: v for (k, v) in ps}] *)
Definition dict_of_pairs (ps : list (K * V)) : dict :=
  fold_left (fun d kv => dict_set d (fst kv) (snd kv)) ps [].

Definition dict_values (d : dict) : list V := List.map snd d.

End Dict.

Definition str_eq_dec : forall a b : str, {a = b} + {a <> b} :=
  list_eq_dec N.eq_dec.

(* ================================================================== *)
(** * Graphs and connected components (networkx)

    [nx.Graph] keeps its nodes and, per node, its neighbours in insertion
    order.  The model keeps the node list and the edge list; the neighbours
    of a node are read off the edge list in the order the edges were added. *)

Section Graph.
Variable Id : Type.
Variable Id_eq_dec : forall x y : Id, {x = y} + {x <> y}.

Definition mem (x : Id) (l : list Id) : bool :=
  if in_dec Id_eq_dec x l then true else false.

Record graph := { nodes : list Id; edges : list (Id * Id) }.

Definition empty_graph : graph := {| nodes := []; edges := [] |}.

Definition add_node (n : Id) (g : graph) : graph :=
  if mem n (nodes g) then g
  else {| nodes := nodes g ++ [n]; edges := edges g |}.

Definition add_nodes_from (ns : list Id) (g : graph) : graph :=
  fold_left (fun g n => add_node n g) ns g.

Definition add_edge (u v : Id) (g : graph) : graph :=
  let g' := add_node v (add_node u g) in
  {| nodes := nodes g'; edges := edges g' ++ [(u, v)] |}.

Fixpoint add_path_from (prev : Id) (rest : list Id) (g : graph) : graph :=
  match rest with
  | [] => g
  | v :: t => add_path_from v t (add_edge prev v g)
  end.

(** [nx.add_path(G, ids)]: an edge between each two consecutive ids. *)
Definition add_path (ids : list Id) (g : graph) : graph :=
  match ids with
  | [] => g
  | first :: rest => add_path_from first rest (add_node first g)
  end.

(** [G.adj[v]] *)
Definition adj (g : graph) (v : Id) : list Id :=
  flat_map (fun e =>
              if Id_eq_dec v (fst e) then [snd e]
              else if Id_eq_dec v (snd e) then [fst e]
              else [])
           (edges g).

(** Breadth-first search from the nodes of [queue]; [popped ++ queue] is the
    set [seen] in insertion order.  Each round takes one node [v] off the
    queue and appends its unseen neighbours: [visit] is
    [if w not in seen: seen.add(w); nextlevel.append(w)].  A search visits
    each node once, so one round per node of the graph is enough. *)
Definition visit (popped : list Id) (v : Id) (q : list Id) (w : Id) : list Id :=
  if mem w (popped ++ v :: q) then q else q ++ [w].

Fixpoint bfs (g : graph) (fuel : nat) (popped queue : list Id) : list Id :=
  match fuel, queue with
  | S f, v :: rest =>
      bfs g f (popped ++ [v]) (fold_left (visit popped v) (adj g v) rest)
  | _, _ => popped ++ queue
  end.

Definition plain_bfs (g : graph) (source : Id) : list Id :=
  bfs g (length (nodes g)) [] [source].

Fixpoint components_from (g : graph) (seen vs : list Id) : list (list Id) :=
  match vs with
  | [] => []
  | v :: t =>
      if mem v seen then components_from g seen t
      else let c := plain_bfs g v in c :: components_from g (seen ++ c) t
  end.

(** [list(nx.connected_components(G))]: each component as the list of its
    nodes in the order the search added them to its set. *)
Definition connected_components (g : graph) : list (list Id) :=
  components_from g [] (nodes g).

(** Two nodes joined by a walk along edges. *)
Definition connected (g : graph) : Id -> Id -> Prop :=
  clos_refl_trans Id (fun a b => In b (adj g a)).

(** A set of nodes that contains the neighbours of its members. *)
Definition closed (g : graph) (S : list Id) : Prop :=
  forall x w, In x S -> In w (adj g x) -> In w S.

(** Every edge joins two nodes of the graph. *)
Definition well_formed (g : graph) : Prop :=
  forall a b, In (a, b) (edges g) -> In a (nodes g) /\ In b (nodes g).

(** [g'] has the nodes and edges of [g], and maybe more. *)
Definition extends (g g' : graph) : Prop :=
  incl (nodes g) (nodes g') /\ incl (edges g) (edges g').

(** [series.unique()]: first occurrences, in order. *)
Fixpoint unique (l : list Id) : list Id :=
  match l with
  | [] => []
  | x :: t => x :: filter (fun y => if Id_eq_dec x y then false else true) (unique t)
  end.

End Graph.

(* ================================================================== *)
(** * Identity reconciler *)

Section Reconciler.
Variable U : ucd.
Variable Id : Type.
Variable Id_eq_dec : forall x y : Id, {x = y} + {x <> y}.

(** The order in which Python iterates over a [set], given the order in
    which the elements were inserted.  It depends on the hashes of the
    elements, which the program does not control. *)
Variable set_iter : list Id -> list Id.

Record user_row := {
  u_id : option Id;        (* [None]: a null id *)
  u_email : cell;
  u_phone : cell;
  u_address : cell
}.

Inductive category := Email | Phone | Address.

Definition category_eq_dec : forall a b : category, {a = b} + {a <> b}.
Proof. decide equality. Defined.

(** The normalized fragment of a row in a category, [None] for a null. *)
Definition fragment (key : category) (row : user_row) : option str :=
  match key with
  | Email =>
      if isna (u_email row) then None
      else Some (strip U (lower U (text (u_email row))))
  | Phone =>
      if isna (u_phone row) then None
      else Some (digits_only U (text (u_phone row)))
  | Address =>
      if isna (u_address row) then None
      else Some (firstn 15 (strip U (lower U (text (u_address row)))))
  end.

(** [val and len(val) > 4] *)
Definition usable (val : option str) : bool :=
  match val with
  | Some s => 4 <? length s
  | None => false
  end.

Definition lookup_t := dict category (dict str (list Id)).

Definition empty_lookup : lookup_t :=
  [(Email, []); (Phone, []); (Address, [])].

(** [lookup[key].setdefault(val, []).append(uid)] *)
Definition lookup_add (lookup : lookup_t) (key : category) (val : str)
  (uid : Id) : lookup_t :=
  match dict_get category_eq_dec lookup key with
  | None => lookup
  | Some d =>
      let ids := match dict_get str_eq_dec d val with
                 | Some l => l
                 | None => []
                 end in
      dict_set category_eq_dec lookup key
        (dict_set str_eq_dec d val (ids ++ [uid]))
  end.

Definition add_row (lookup : lookup_t) (uid : Id) (row : user_row) : lookup_t :=
  fold_left
    (fun lk key =>
       match fragment key row with
       | Some val => if usable (Some val) then lookup_add lk key val uid else lk
       | None => lk
       end)
    [Email; Phone; Address] lookup.

(** [users_df.dropna(subset=['id'])], each row with its id. *)
Fixpoint valid_users (users : list user_row) : list (Id * user_row) :=
  match users with
  | [] => []
  | r :: t =>
      match u_id r with
      | Some uid => (uid, r) :: valid_users t
      | None => valid_users t
      end
  end.

Definition build_lookup (users : list user_row) : lookup_t :=
  fold_left (fun lk ur => add_row lk (fst ur) (snd ur))
            (valid_users users) empty_lookup.

(** The id lists of every category, in the order the loops visit them. *)
Definition id_lists (lookup : lookup_t) : list (list Id) :=
  flat_map (fun cat => dict_values cat) (dict_values lookup).

Definition build_graph (users : list user_row) : graph Id :=
  let G := add_nodes_from Id_eq_dec
             (unique Id_eq_dec (List.map fst (valid_users users)))
             (empty_graph Id) in
  fold_left
    (fun G ids => if 1 <? length ids then add_path Id_eq_dec ids G else G)
    (id_lists (build_lookup users)) G.

(** [{uid: list(c)[0] for c in comps for uid in c}] as a list of pairs. *)
Definition id_map_pairs (comps : list (list Id)) : list (Id * Id) :=
  flat_map
    (fun c =>
       match set_iter c with
       | [] => []
       | first :: _ => List.map (fun uid => (uid, first)) (set_iter c)
       end)
    comps.

(** [{list(c)[0]: list(c) for c in comps}] as a list of pairs;
    [list(c)[0]] raises on an empty [c]. *)
Definition group_pairs (comps : list (list Id)) : result (list (Id * list Id)) :=
  mapM (fun c =>
          match set_iter c with
          | [] => Raise IndexError
          | first :: _ => Ok (first, set_iter c)
          end)
       comps.

Definition reconciliate_users (users_df : list user_row)
  : result (nat * dict Id Id * dict Id (list Id)) :=
  let G := build_graph users_df in
  let comps := connected_components Id_eq_dec G in
  let id_map := dict_of_pairs Id_eq_dec (id_map_pairs comps) in
  gp <- group_pairs comps ;;
  let groups := dict_of_pairs Id_eq_dec gp in
  Ok (length comps, id_map, groups).

(** ** Vocabulary for the properties of the reconciler *)

(** One pass of the inner loop, for one category. *)
Definition add_prop (uid : Id) (row : user_row) (lk : lookup_t)
  (key : category) : lookup_t :=
  match fragment key row with
  | Some val => if usable (Some val) then lookup_add lk key val uid else lk
  | None => lk
  end.

(** [uid] is listed under fragment [f] of category [key]. *)
Definition listed (lk : lookup_t) (key : category) (f : str) (uid : Id) : Prop :=
  exists d ids, dict_get category_eq_dec lk key = Some d /\
                dict_get str_eq_dec d f = Some ids /\ In uid ids.

(** Every category has its table. *)
Definition complete_keys (lk : lookup_t) : Prop :=
  forall key, exists d, dict_get category_eq_dec lk key = Some d.

(** Every listed id satisfies [P]. *)
Definition all_listed (P : category -> str -> Id -> Prop) (lk : lookup_t) : Prop :=
  forall key d f ids uid,
    In (key, d) lk -> In (f, ids) d -> In uid ids -> P key f uid.

(** [x] is the id of a row of the table. *)
Definition valid_id (users : list user_row) (x : Id) : Prop :=
  exists r, In r users /\ u_id r = Some x.

(** Some row of [uid] has the fragment [f] in category [key], and [f] has
    more than four characters. *)
Definition holds_fragment (users : list user_row) (key : category)
  (f : str) (uid : Id) : Prop :=
  exists r, In r users /\ u_id r = Some uid /\
            fragment key r = Some f /\ 4 < length f.

(** Two ids with such a fragment in common, in one category. *)
Definition shares_fragment (users : list user_row) (x y : Id) : Prop :=
  exists key f, holds_fragment users key f x /\ holds_fragment users key f y.

(** Two ids joined by a chain of ids, each sharing a fragment with the
    next. *)
Definition linked (users : list user_row) : Id -> Id -> Prop :=
  clos_refl_trans Id (shares_fragment users).

End Reconciler.

(* ================================================================== *)
(** * Dataset pipeline *)

(** [", ".join(parts)] *)
Fixpoint join (sep : str) (parts : list str) : str :=
  match parts with
  | [] => []
  | [p] => p
  | p :: rest => p ++ sep ++ join sep rest
  end.

Fixpoint str_leb (a b : str) : bool :=
  match a, b with
  | [], _ => true
  | _ :: _, [] => false
  | x :: a', y :: b' =>
      if N.ltb x y then true else if N.eqb x y then str_leb a' b' else false
  end.

Definition ends_with (suffix s : str) : bool :=
  prefixb (rev suffix) (rev s).

(** [re.sub(r'\.0$', '', s)]: [$] matches at the end of the string and
    before a newline that ends it. *)
Definition strip_dot0 (s : str) : str :=
  if ends_with (lit ".0") s then firstn (length s - 2) s
  else if ends_with [46; 48; 10]%N s then firstn (length s - 3) s ++ [10%N]
  else s.

Section GroupBy.
Variable K : Type.
Variable K_eq_dec : forall x y : K, {x = y} + {x <> y}.
Variable K_leb : K -> K -> bool.
Variable series_sum : list float -> float.

Fixpoint insert_sorted (k : K) (l : list K) : list K :=
  match l with
  | [] => [k]
  | h :: t => if K_leb k h then k :: l else h :: insert_sorted k t
  end.

Definition sort_keys (l : list K) : list K := fold_right insert_sorted [] l.

(** [df.groupby(key)[col].sum()]: one entry per distinct key, keys sorted,
    missing values left out of each sum. *)
Definition groupby_sum (rows : list (K * float)) : list (K * float) :=
  List.map
    (fun k =>
       (k, series_sum
             (filter (fun x => negb (is_nan x))
                (List.map snd
                   (filter (fun r => if K_eq_dec k (fst r) then true else false)
                      rows)))))
    (sort_keys (unique K_eq_dec (List.map fst rows))).

Fixpoint idxmax_from (best : K * float) (l : list (K * float)) : K :=
  match l with
  | [] => fst best
  | kx :: t =>
      if fltb (snd best) (snd kx) then idxmax_from kx t
      else idxmax_from best t
  end.

(** [series.idxmax()] as in pandas 1 and 2: [ValueError] on an empty
    series; otherwise the label of the first maximum among the values that
    are not missing, and the missing label ([None] here, [nan] in Python)
    when all of them are. *)
Definition idxmax (series : list (K * float)) : result (option K) :=
  match series with
  | [] => Raise ValueError
  | _ =>
      match filter (fun kx => negb (is_nan (snd kx))) series with
      | [] => Ok None
      | b :: t => Ok (Some (idxmax_from b t))
      end
  end.

End GroupBy.

(** [len(series.unique())] on strings, as [nunique] computes it. *)
Definition nunique (l : list str) : nat := length (unique str_eq_dec l).

Record FolderResult := {
  folder : str;
  top_5 : list str;
  uniq_u : nat;
  uniq_a : nat;
  pop_a : str;
  best_ids_str : str;
  chart : str
}.

Section Pipeline.
Variable U : ucd.
Variable Id : Type.
Variable Id_eq_dec : forall x y : Id, {x = y} + {x <> y}.
Variable Id_leb : Id -> Id -> bool.      (* the order [groupby] sorts ids by *)
Variable Id_str : Id -> str.             (* [str(uid)] *)
(** [str(uid)] of an id read back from the resolved-id column of the order
    table when [map] has left an absent entry in that column.  pandas then
    holds a column of whole numbers as floats, so that the id [99] reads
    [99.0]; a text id reads as it is. *)
Variable Id_held_str : Id -> str.
Variable set_iter : list Id -> list Id.

(** pandas and matplotlib, as far as the pipeline relies on them:
    - [to_day dates i]: the day [YYYY-MM-DD] of entry [i] of
      [pd.to_datetime(dates, errors='coerce', utc=True)], [None] for [NaT];
    - [series_sum]: the sum of a group of floats;
    - [sort_values_desc]: [series.sort_values(ascending=False)];
    - [savefig]: the line chart of a series under a title, as base64 PNG. *)
Variable to_day : list str -> nat -> option str.
Variable series_sum : list float -> float.
Variable sort_values_desc : list (str * float) -> list (str * float).
Variable savefig : list (str * float) -> str -> str.

(** A cell of the order table: as an object, as a number, as a dict key. *)
Record ocell := { as_obj : cell; as_num : float; as_key : Id }.

(** A data frame: its columns in order, each with its name. *)
Definition frame (A : Type) := list (str * list A).

Definition columns {A} (df : frame A) : list str := List.map fst df.

(** [df[name]] *)
Definition column {A} (df : frame A) (name : str) : result (list A) :=
  match dict_get str_eq_dec df name with
  | Some data => Ok data
  | None => Raise KeyError
  end.

(** [next(c for c in cols if p(c))] *)
Definition next_col (p : str -> bool) (cols : list str) : result str :=
  match find p cols with
  | Some c => Ok c
  | None => Raise StopIteration
  end.

(** A column label of the catalog.  [yaml.safe_load] gives the keys of a
    mapping as it finds them: a text, or another scalar (a number, a
    boolean, a date, null). *)
Inductive label := LStr (s : str) | LOther.

(** The catalog as loaded: its columns in order, each under its label. *)
Definition catalog := list (label * list cell).

Definition labels (books : catalog) : list label := List.map fst books.

(** The columns of the catalog that a text names: [books[name]] and
    [name in books.columns] for a text [name]. *)
Definition text_columns (books : catalog) : frame cell :=
  flat_map (fun cd => match fst cd with
                      | LStr c => [(c, snd cd)]
                      | LOther => []
                      end) books.

(** [next(c for c in cols if 'id' in c)] over the labels of the catalog:
    [in] raises [TypeError] on a label that is not a text. *)
Fixpoint next_id_label (cols : list label) : result str :=
  match cols with
  | [] => Raise StopIteration
  | LStr c :: rest => if contains (lit "id") c then Ok c else next_id_label rest
  | LOther :: _ => Raise TypeError
  end.

Record cols_t := {
  c_date : str; c_price : str; c_qty : str;
  c_item_id : str; c_user_id : str; c_book_id : str
}.

Definition resolve_columns (order_cols : list str) (book_cols : list label)
  : result cols_t :=
  date <- next_col (fun c => contains (lit "date") (lower U c)
                             || contains (lit "timestamp") (lower U c))
                   order_cols ;;
  price <- next_col (fun c => contains (lit "price") (lower U c)) order_cols ;;
  qty <- next_col (fun c => contains (lit "qty") (lower U c)
                            || contains (lit "quantity") (lower U c))
                  order_cols ;;
  item_id <- next_col (fun c => contains (lit "item") c
                                || contains (lit "book") c)
                      order_cols ;;
  user_id <- next_col (fun c => contains (lit "user") c) order_cols ;;
  book_id <- next_id_label book_cols ;;
  Ok {| c_date := date; c_price := price; c_qty := qty;
        c_item_id := item_id; c_user_id := user_id; c_book_id := book_id |}.

(** What the three loaders of one folder return. *)
Record folder_files := {
  users_csv : result (list (user_row Id));
  orders_parquet : result (frame ocell);
  books_yaml : result catalog
}.

(** An order row, restricted to the columns the pipeline reads. *)
Record order := {
  o_date : cell; o_price : cell; o_qty : ocell; o_item : cell; o_user : ocell
}.

Fixpoint zip_orders (d p : list ocell) (q i u : list ocell) : list order :=
  match d, p, q, i, u with
  | d1 :: d', p1 :: p', q1 :: q', i1 :: i', u1 :: u' =>
      {| o_date := as_obj d1; o_price := as_obj p1; o_qty := q1;
         o_item := as_obj i1; o_user := u1 |} :: zip_orders d' p' q' i' u'
  | _, _, _, _, _ => []
  end.

(** [orders.dropna(subset=['dt'])], each kept row with its day. *)
Fixpoint with_day (dts : nat -> option str) (i : nat) (rows : list order)
  : list (str * order) :=
  match rows with
  | [] => []
  | r :: t =>
      match dts i with
      | Some day => (day, r) :: with_day dts (S i) t
      | None => with_day dts (S i) t
      end
  end.

Definition fillna0 (q : ocell) : float :=
  if isna (as_obj q) then fzero else as_num q.

Definition generate_plot (series : list (str * float)) (title : str) : str :=
  match series with
  | [] => []
  | _ =>
      let by_day :=
        List.map (fun k => (k, match dict_get str_eq_dec series k with
                               | Some x => x
                               | None => fzero
                               end))
                 (sort_keys str_leb (List.map fst series)) in
      savefig by_day title
  end.

(** [orders.merge(books, on='join_id', how='left')]: each order with every
    catalog row of the same key, or alone when there is none. *)
Definition merge_left {A B} (key_eqb : A -> B -> bool)
  (left : list A) (right : list B) : list (A * option B) :=
  flat_map
    (fun a =>
       match filter (key_eqb a) right with
       | [] => [(a, None)]
       | ms => List.map (fun b => (a, Some b)) ms
       end)
    left.

(** Lines 200-210: the number of distinct authors and the author with the
    largest ordered quantity, as the report shows it.  [merge] renames a column that both tables
    have, so that [merged['author']] and [merged[cols['qty']]] raise
    [KeyError] when the order table has an author column or the catalog has
    the quantity column. *)
Definition author_stats (order_cols book_cols : list str) (qty_col : str)
  (authors : result (list cell)) (merged : list (ocell * option cell))
  : result (nat * str) :=
  if existsb (str_eqb (lit "author")) book_cols then
    col <- authors ;;
    let author_clean := List.map (fun a => strip U (text a)) col in
    let uniq_authors := nunique author_clean in
    match merged with
    | [] => Ok (uniq_authors, lit "Unknown")
    | _ =>
        if existsb (str_eqb (lit "author")) order_cols
           || existsb (str_eqb qty_col) book_cols
        then Raise KeyError
        else
          let rows :=
            List.map (fun m =>
                        (match snd m with
                         | Some a => strip U (text a)
                         | None => strip U (lit "nan")
                         end,
                         if isna (as_obj (fst m)) then S754_nan
                         else as_num (fst m)))
                     merged in
          let top_authors :=
            groupby_sum str_eq_dec str_leb series_sum
              (filter (fun r => negb (str_eqb (fst r) (lit "nan"))) rows) in
          match top_authors with
          | [] => Ok (uniq_authors, lit "Unknown")
          | _ =>
              a <- idxmax top_authors ;;
              Ok (uniq_authors,
                  match a with Some name => name | None => lit "nan" end)
          end
    end
  else Ok (0, lit "Unknown").

(** Lines 214-215.  The aliases come from the groups of the reconciler,
    with the [str] of the user table; a best buyer that is no key of the
    groups is read from the resolved-id column, and rendered as that column
    holds it; the missing label is [nan]. *)
Definition best_buyer_string (user_groups : dict Id (list Id))
  (top_buyer_id : option Id) : str :=
  let best_buyer_aliases : list str :=
    match top_buyer_id with
    | Some uid =>
        match dict_get Id_eq_dec user_groups uid with
        | Some aliases => List.map Id_str aliases
        | None => [Id_held_str uid]
        end
    | None => [lit "nan"]
    end in
  join (lit ", ") best_buyer_aliases.

(** Lines 212-213: the canonical id with the largest paid total. *)
Definition top_buyer (user_map : dict Id Id)
  (rows : list (order * float)) : result (option Id) :=
  let real_uid (o : order) : option Id :=
    if isna (as_obj (o_user o)) then None
    else match dict_get Id_eq_dec user_map (as_key (o_user o)) with
         | Some c => Some c
         | None => Some (as_key (o_user o))
         end in
  let keyed :=
    flat_map (fun op => match real_uid (fst op) with
                        | Some k => [(k, snd op)]
                        | None => []
                        end) rows in
  idxmax (groupby_sum Id_eq_dec Id_leb series_sum keyed).

(** Line 175: the colons taken out of the labels of the catalog that are
    texts; the other labels are kept. *)
Definition strip_colons (books : catalog) : catalog :=
  List.map (fun cd => (match fst cd with
                       | LStr c => LStr (replace (lit ":") [] c)
                       | LOther => LOther
                       end, snd cd)) books.

(** Lines 186-192: the order rows whose cleaned timestamp parses, each
    with its day. *)
Definition dated_orders (orders : frame ocell) (cols : cols_t)
  : result (list (str * order)) :=
  d <- column orders (c_date cols) ;;
  p <- column orders (c_price cols) ;;
  q <- column orders (c_qty cols) ;;
  i <- column orders (c_item_id cols) ;;
  u <- column orders (c_user_id cols) ;;
  let all_rows := zip_orders d p q i u in
  let cleaned := List.map (fun r => clean_date_string U (o_date r)) all_rows in
  Ok (with_day (to_day cleaned) 0 all_rows).

(** Line 194: the paid amount of each dated order, from its quantity and
    its cleaned price. *)
Definition paid_amounts (orders1 : list (str * order)) (prices : list float)
  : list float :=
  List.map (fun rp => fmul (fillna0 (o_qty (snd (fst rp)))) (snd rp))
           (combine orders1 prices).

Definition process_dataset (folder_name : str) (files : folder_files)
  : result (option FolderResult) :=
  users <- users_csv files ;;
  orders <- orders_parquet files ;;
  books0 <- books_yaml files ;;
  let books_labelled := strip_colons books0 in
  let books := text_columns books_labelled in
  cols <- resolve_columns (columns orders) (labels books_labelled) ;;
  orders1 <- dated_orders orders cols ;;
  prices <- mapM (fun r => clean_price U (o_price (snd r))) orders1 ;;
  let paid := paid_amounts orders1 prices in
  let daily_revenue :=
    sort_values_desc
      (groupby_sum str_eq_dec str_leb series_sum
         (combine (List.map fst orders1) paid)) in
  rec <- reconciliate_users U Id_eq_dec set_iter users ;;
  let '(uniq_users_count, user_map, user_groups) := rec in
  book_ids <- column books (c_book_id cols) ;;
  let book_join := List.map (fun b => strip_dot0 (text b)) book_ids in
  let authors := column books (lit "author") in
  let book_rows : list (str * option cell) :=
    match authors with
    | Ok col => combine book_join (List.map Some col)
    | Raise _ => List.map (fun j => (j, None)) book_join
    end in
  let merged :=
    merge_left (fun (o : str * order) (b : str * option cell) =>
                  str_eqb (strip_dot0 (text (o_item (snd o)))) (fst b))
               orders1 book_rows in
  let merged_authors :=
    List.map (fun m => (o_qty (snd (fst m)),
                        match snd m with
                        | Some b => snd b
                        | None => None
                        end)) merged in
  stats <- author_stats (columns orders) (columns books) (c_qty cols)
             authors merged_authors ;;
  top_buyer_id <- top_buyer user_map
                    (combine (List.map snd orders1) paid) ;;
  let best_buyer_str := best_buyer_string user_groups top_buyer_id in
  let chart_b64 :=
    generate_plot daily_revenue (lit "Revenue Trend: " ++ folder_name) in
  Ok (Some {| folder := folder_name;
              top_5 := List.map fst (firstn 5 daily_revenue);
              uniq_u := uniq_users_count;
              uniq_a := fst stats;
              pop_a := snd stats;
              best_ids_str := best_buyer_str;
              chart := chart_b64 |}).

(* ================================================================== *)
(** * Report assembler *)

Definition DATA_DIRS : list str := [lit "DATA1"; lit "DATA2"; lit "DATA3"].

Fixpoint main_loop (disk : str -> folder_files) (folders : list str)
  (results : list FolderResult) : result (list FolderResult) :=
  match folders with
  | [] => Ok results
  | folder_name :: rest =>
      data <- process_dataset folder_name (disk folder_name) ;;
      main_loop disk rest
        (match data with
         | Some d => results ++ [d]
         | None => results
         end)
  end.

(** The results rendered into [index.html]; [Raise] when the run stops on
    an exception before the file is written. *)
Definition main (disk : str -> folder_files) : result (list FolderResult) :=
  main_loop disk DATA_DIRS [].

(** ** Vocabulary for the properties of the pipeline *)

(** The count the specification gives for the authors: the distinct
    stringified and trimmed values other than ["nan"]. *)
Definition distinct_authors_but_nan (authors : list cell) : nat :=
  nunique (filter (fun a => negb (str_eqb a (lit "nan")))
             (List.map (fun a => strip U (text a)) authors)).

(** The column a case-insensitive match on [words] picks. *)
Definition next_col_ci (words : list str) (cols : list str) : result str :=
  next_col (fun c => existsb (fun w => contains w (lower U c)) words) cols.

(** Row [j] of the order table is [o], and its cleaned timestamp parses to
    [day]. *)
Definition dated_row (orders : frame ocell) (cols : cols_t) (j : nat)
  (o : order) (day : str) : Prop :=
  exists d p q i u,
    column orders (c_date cols) = Ok d /\
    column orders (c_price cols) = Ok p /\
    column orders (c_qty cols) = Ok q /\
    column orders (c_item_id cols) = Ok i /\
    column orders (c_user_id cols) = Ok u /\
    nth_error (zip_orders d p q i u) j = Some o /\
    to_day (List.map (fun r => clean_date_string U (o_date r))
              (zip_orders d p q i u)) j = Some day.

End Pipeline.

(* ================================================================== *)
(** * Concrete inputs

    Ids are strings and the text tables are those of ASCII.  The library
    functions get simple stand-ins: a timestamp parses when it is a day of
    the calendar written [YYYY-MM-DD], and is that day; a sum adds from the
    left; the descending sort is an insertion sort; the chart is its
    title. *)

Module Demo.

Definition user (uid : String.string) (email : cell) : user_row str :=
  {| u_id := Some (lit uid); u_email := email;
     u_phone := nan_obj; u_address := nan_obj |}.
Arguments user uid%_string email.

(** Two users with the same email, a third one apart. *)
Definition users3 : list (user_row str) :=
  [ user "a" (str_obj (lit "Ann@Mail.org "));
    user "b" (str_obj (lit "ann@mail.org"));
    user "c" (str_obj (lit "cy@mail.org")) ].

(** Two of Python's possible iteration orders of a set. *)
Definition insertion_order (l : list str) : list str := l.
Definition reverse_order (l : list str) : list str := rev l.

Definition reconcile (set_iter : list str -> list str)
  (users : list (user_row str)) :=
  reconciliate_users ascii_ucd str_eq_dec set_iter users.

(** The number two digits write. *)
Definition two_digits (a b : char) : option N :=
  match ascii_decimal a, ascii_decimal b with
  | Some x, Some y => Some (10 * x + y)%N
  | _, _ => None
  end.

Definition leap_year (y : N) : bool :=
  (N.eqb (y mod 4) 0 && (negb (N.eqb (y mod 100) 0) || N.eqb (y mod 400) 0))%bool.

Definition days_in_month (y m : N) : N :=
  if N.eqb m 2 then (if leap_year y then 29 else 28)%N
  else if (N.eqb m 4 || N.eqb m 6 || N.eqb m 9 || N.eqb m 11)%bool then 30%N
  else 31%N.

(** A day of the calendar written [YYYY-MM-DD], within the years a
    timestamp of pandas covers. *)
Definition iso_day (s : str) : bool :=
  match s with
  | [y1; y2; y3; y4; h1; m1; m2; h2; d1; d2] =>
      match two_digits y1 y2, two_digits y3 y4, two_digits m1 m2,
            two_digits d1 d2 with
      | Some c, Some y, Some m, Some d =>
          (N.eqb h1 45 && N.eqb h2 45
           && N.leb 1678 (100 * c + y) && N.leb (100 * c + y) 2261
           && N.leb 1 m && N.leb m 12
           && N.leb 1 d && N.leb d (days_in_month (100 * c + y) m))%bool
      | _, _, _, _ => false
      end
  | _ => false
  end.

(** [pd.to_datetime(dates, errors='coerce', utc=True)] and [strftime], on
    columns whose entries are days written [YYYY-MM-DD] or no timestamp at
    all: a day is itself, anything else is [NaT]. *)
Definition to_day (dates : list str) (i : nat) : option str :=
  match nth_error dates i with
  | Some s => if iso_day s then Some s else None
  | None => None
  end.

Definition series_sum (l : list float) : float :=
  fold_left (SFadd prec emax) l fzero.

Fixpoint insert_desc (kx : str * float) (l : list (str * float))
  : list (str * float) :=
  match l with
  | [] => [kx]
  | h :: t => if fltb (snd kx) (snd h) then h :: insert_desc kx t else kx :: l
  end.

Definition sort_values_desc (l : list (str * float)) : list (str * float) :=
  fold_right insert_desc [] l.

Definition savefig (series : list (str * float)) (title : str) : str := title.

(** A text cell and a whole-number cell of the order table. *)
Definition txt (s : String.string) : ocell str :=
  {| as_obj := str_obj (lit s); as_num := S754_nan; as_key := lit s |}.
Arguments txt s%_string.

Definition num (n : N) (repr : String.string) : ocell str :=
  {| as_obj := str_obj (lit repr); as_num := of_integer n; as_key := lit repr |}.
Arguments num n%_N repr%_string.

Definition files := folder_files str.

Definition process (folder_name : String.string) (f : files) :=
  process_dataset ascii_ucd str_eq_dec str_leb (fun s => s) (fun s => s)
    insertion_order
    to_day series_sum sort_values_desc savefig (lit folder_name) f.
Arguments process folder_name%_string f.

Definition run (disk : str -> files) :=
  main ascii_ucd str_eq_dec str_leb (fun s => s) (fun s => s)
    insertion_order
    to_day series_sum sort_values_desc savefig disk.

(** A catalog of two books, the second without an author. *)
Definition books2 : catalog :=
  [ (LStr (lit ":id"), [str_obj (lit "1"); str_obj (lit "2")]);
    (LStr (lit ":author"), [str_obj (lit "Ann Lee"); nan_obj]) ].

(** Three orders; the buyer [z] of the largest one is not a user.  The
    book ids are held as floats. *)
Definition orders3 : frame (ocell str) :=
  [ (lit "order_date", [txt "2024-01-05"; txt " 2024-01-06 "; txt "2024-01-06"]);
    (lit "unit_price", [txt "$10"; txt "5.50"; txt "100"]);
    (lit "qty", [num 2 "2"; num 1 "1"; num 3 "3"]);
    (lit "book_id", [num 1 "1.0"; num 2 "2.0"; num 1 "1.0"]);
    (lit "user_id", [txt "a"; txt "b"; txt "z"]) ].

Definition good_folder : files :=
  {| users_csv := Ok users3; orders_parquet := Ok orders3;
     books_yaml := Ok books2 |}.

(** The same orders with timestamps that do not parse. *)
Definition orders_undated : frame (ocell str) :=
  [ (lit "order_date", [txt "yesterday"; txt "n/a"]);
    (lit "unit_price", [txt "$10"; txt "5.50"]);
    (lit "qty", [num 2 "2"; num 1 "1"]);
    (lit "book_id", [num 1 "1"; num 2 "2"]);
    (lit "user_id", [txt "a"; txt "b"]) ].

Definition undated_folder : files :=
  {| users_csv := Ok users3; orders_parquet := Ok orders_undated;
     books_yaml := Ok books2 |}.

(** A folder without its user file. *)
Definition missing_folder : files :=
  {| users_csv := Raise FileNotFoundError; orders_parquet := Ok orders3;
     books_yaml := Ok books2 |}.

(** [DATA1] lacks a file, the other folders are complete. *)
Definition disk_missing_first (folder_name : str) : files :=
  if str_eqb folder_name (lit "DATA1") then missing_folder else good_folder.

Definition disk_complete (folder_name : str) : files := good_folder.

(** Column names in capitals. *)
Definition capital_columns : list str :=
  [lit "Date"; lit "Price"; lit "Qty"; lit "Item_ID"; lit "User_ID"].

Definition small_columns : list str :=
  [lit "date"; lit "price"; lit "qty"; lit "item_id"; lit "user_id"].

End Demo.

(* ================================================================== *)
(** * Vocabulary for further properties *)

(** The sign bit of a float. *)
Definition sign_set (x : float) : bool :=
  match x with
  | S754_zero s => s
  | S754_infinity s => s
  | S754_finite s _ _ => s
  | S754_nan => false
  end.

(** The number of decimal points in a text. *)
Definition count_dots (s : str) : nat := length (filter (N.eqb dot) s).

(** The distinct non-null ids of a user table, in order of appearance. *)
Definition table_ids {Id : Type} (Id_eq_dec : forall x y : Id, {x = y} + {x <> y})
  (users : list (user_row Id)) : list Id :=
  unique Id_eq_dec (List.map fst (valid_users users)).

(** Further concrete inputs. *)
Module DemoMore.

(** Two users with the same phone, written in two ways. *)
Definition caller (uid : String.string) (phone : String.string) : user_row str :=
  {| u_id := Some (lit uid); u_email := nan_obj;
     u_phone := str_obj (lit phone); u_address := nan_obj |}.
Arguments caller uid%_string phone%_string.

Definition callers : list (user_row str) :=
  [ caller "p" "+1 (555) 010-2030"; caller "q" "15550102030" ].

(** One order of the user [z], paid 5.0. *)
Definition order_of_z : order str * float :=
  ({| o_date := str_obj (lit "2024-01-05"); o_price := str_obj (lit "5");
      o_qty := Demo.num 1 "1"; o_item := str_obj (lit "1");
      o_user := Demo.txt "z" |}, of_integer 5).

(** An id map without entries. *)
Definition no_map : dict str str := [].

(** The columns of [Demo.orders3] by role. *)
Definition cols3 : cols_t :=
  {| c_date := lit "order_date"; c_price := lit "unit_price";
     c_qty := lit "qty"; c_item_id := lit "book_id";
     c_user_id := lit "user_id"; c_book_id := lit "id" |}.

(** Orders with a price that has two decimal points. *)
Definition orders_bad_price : frame (ocell str) :=
  [ (lit "order_date", [Demo.txt "2024-01-05"; Demo.txt "2024-01-06"]);
    (lit "unit_price", [Demo.txt "$10"; Demo.txt "1.2.3"]);
    (lit "qty", [Demo.num 2 "2"; Demo.num 1 "1"]);
    (lit "book_id", [Demo.num 1 "1"; Demo.num 2 "2"]);
    (lit "user_id", [Demo.txt "a"; Demo.txt "b"]) ].

Definition bad_price_folder : Demo.files :=
  {| users_csv := Ok Demo.users3; orders_parquet := Ok orders_bad_price;
     books_yaml := Ok Demo.books2 |}.

Definition bad_price_row : str * order str :=
  (lit "2024-01-06",
   {| o_date := str_obj (lit "2024-01-06"); o_price := str_obj (lit "1.2.3");
      o_qty := Demo.num 1 "1"; o_item := str_obj (lit "2");
      o_user := Demo.txt "b" |}).

(** The two orders of [orders_bad_price], both kept, with their days. *)
Definition bad_price_rows : list (str * order str) :=
  [ (lit "2024-01-05",
     {| o_date := str_obj (lit "2024-01-05"); o_price := str_obj (lit "$10");
        o_qty := Demo.num 2 "2"; o_item := str_obj (lit "1");
        o_user := Demo.txt "a" |});
    bad_price_row ].

(** [DATA2] lacks its user file, the other folders are complete. *)
Definition disk_missing_second (folder_name : str) : Demo.files :=
  if str_eqb folder_name (lit "DATA2") then Demo.missing_folder
  else Demo.good_folder.

(** An order row, from its timestamp, price and book id as texts. *)
Definition order_row (date price : String.string) (q : ocell str)
  (item : String.string) (u : ocell str) : order str :=
  {| o_date := str_obj (lit date); o_price := str_obj (lit price);
     o_qty := q; o_item := str_obj (lit item); o_user := u |}.
Arguments order_row date%_string price%_string q item%_string u.

(** [Demo.good_folder], stage by stage: the three orders with their days,
    their cleaned prices, the maps of the reconciler, and the result. *)
Definition dated3 : list (str * order str) :=
  [ (lit "2024-01-05",
     order_row "2024-01-05" "$10" (Demo.num 2 "2") "1.0" (Demo.txt "a"));
    (lit "2024-01-06",
     order_row " 2024-01-06 " "5.50" (Demo.num 1 "1") "2.0" (Demo.txt "b"));
    (lit "2024-01-06",
     order_row "2024-01-06" "100" (Demo.num 3 "3") "1.0" (Demo.txt "z")) ].

Definition prices3 : list float :=
  [of_integer 10; of_decimal 550 2; of_integer 100].

Definition id_map3 : dict str str :=
  [(lit "a", lit "a"); (lit "b", lit "a"); (lit "c", lit "c")].

Definition groups3 : dict str (list str) :=
  [(lit "a", [lit "a"; lit "b"]); (lit "c", [lit "c"])].

Definition result3 : FolderResult :=
  {| folder := lit "DATA1";
     top_5 := [lit "2024-01-06"; lit "2024-01-05"];
     uniq_u := 2; uniq_a := 2; pop_a := lit "Ann Lee";
     best_ids_str := lit "z";
     chart := lit "Revenue Trend: DATA1" |}.

(** An order cell that holds the empty text. *)
Definition empty_txt : ocell str :=
  {| as_obj := str_obj []; as_num := S754_nan; as_key := [] |}.

(** Two orders; the user id of the larger one is the empty text. *)
Definition orders_nameless : frame (ocell str) :=
  [ (lit "order_date", [Demo.txt "2024-01-05"; Demo.txt "2024-01-06"]);
    (lit "unit_price", [Demo.txt "$10"; Demo.txt "100"]);
    (lit "qty", [Demo.num 2 "2"; Demo.num 3 "3"]);
    (lit "book_id", [Demo.num 1 "1.0"; Demo.num 1 "1.0"]);
    (lit "user_id", [Demo.txt "a"; empty_txt]) ].

Definition nameless_folder : Demo.files :=
  {| users_csv := Ok Demo.users3; orders_parquet := Ok orders_nameless;
     books_yaml := Ok Demo.books2 |}.

Definition dated_nameless : list (str * order str) :=
  [ (lit "2024-01-05",
     order_row "2024-01-05" "$10" (Demo.num 2 "2") "1.0" (Demo.txt "a"));
    (lit "2024-01-06",
     order_row "2024-01-06" "100" (Demo.num 3 "3") "1.0" empty_txt) ].

Definition prices_nameless : list float := [of_integer 10; of_integer 100].

Definition result_nameless : FolderResult :=
  {| folder := lit "DATA1";
     top_5 := [lit "2024-01-06"; lit "2024-01-05"];
     uniq_u := 2; uniq_a := 2; pop_a := lit "Ann Lee";
     best_ids_str := [];
     chart := lit "Revenue Trend: DATA1" |}.

(** Three orders, the second with a timestamp that is none; it is the
    largest of the three, and the only order of the user [c]. *)
Definition orders_garbled : frame (ocell str) :=
  [ (lit "order_date",
     [Demo.txt "2024-01-05"; Demo.txt "garbled"; Demo.txt "2024-01-06"]);
    (lit "unit_price", [Demo.txt "$10"; Demo.txt "900"; Demo.txt "5.50"]);
    (lit "qty", [Demo.num 2 "2"; Demo.num 1 "1"; Demo.num 1 "1"]);
    (lit "book_id", [Demo.num 1 "1.0"; Demo.num 2 "2.0"; Demo.num 1 "1.0"]);
    (lit "user_id", [Demo.txt "a"; Demo.txt "c"; Demo.txt "b"]) ].

Definition garbled_folder : Demo.files :=
  {| users_csv := Ok Demo.users3; orders_parquet := Ok orders_garbled;
     books_yaml := Ok Demo.books2 |}.

Definition dated_garbled : list (str * order str) :=
  [ (lit "2024-01-05",
     order_row "2024-01-05" "$10" (Demo.num 2 "2") "1.0" (Demo.txt "a"));
    (lit "2024-01-06",
     order_row "2024-01-06" "5.50" (Demo.num 1 "1") "1.0" (Demo.txt "b")) ].

Definition prices_garbled : list float := [of_integer 10; of_decimal 550 2].

Definition result_garbled : FolderResult :=
  {| folder := lit "DATA1";
     top_5 := [lit "2024-01-05"; lit "2024-01-06"];
     uniq_u := 2; uniq_a := 2; pop_a := lit "Ann Lee";
     best_ids_str := lit "a, b";
     chart := lit "Revenue Trend: DATA1" |}.

(** A catalog with a label that is a number before its id column. *)
Definition books_numbered : catalog :=
  [ (LOther, [str_obj (lit "x"); str_obj (lit "y")]);
    (LStr (lit ":id"), [str_obj (lit "1"); str_obj (lit "2")]) ].

(** Whole numbers as ids: [str] of the number, and [str] of the float that
    holds it (for numbers below [10^16]). *)
Definition int_str (n : N) : str :=
  lit (DecimalString.NilZero.string_of_uint (N.to_uint n)).

Definition float_str (n : N) : str := int_str n ++ lit ".0".

End DemoMore.

(* ================================================================== *)
(** * Properties of the text functions *)

Unset Implicit Arguments.

Section TextFacts.
Variable U : ucd.

Lemma prefixb_nil_r (p : str) : prefixb p [] = true -> p = [].
Proof. destruct p; simpl; [reflexivity | discriminate]. Qed.

Lemma contains_cons_pattern (c : char) (p s : str) :
  contains (c :: p) s = true -> contains p s = true.
Proof.
  induction s as [|y t IH]; simpl.
  - discriminate.
  - intros H. apply orb_true_iff in H. apply orb_true_iff. right.
    destruct H as [H | H].
    + apply andb_true_iff in H. destruct H as [_ H].
      destruct t; destruct p; simpl in *; try reflexivity; try discriminate.
      rewrite H. reflexivity.
    + destruct t; [simpl in H; discriminate|]. auto.
Qed.

Lemma replace_from_absent (old new s : str) :
  contains old s = false -> replace_from old new 0 s = s.
Proof.
  induction s as [|c t IH]; simpl; [reflexivity|].
  intros H. apply orb_false_iff in H. destruct H as [Hp Ht].
  rewrite Hp. f_equal. apply IH. exact Ht.
Qed.

Lemma replace_absent (old new s : str) :
  contains old s = false -> replace old new s = s.
Proof. apply replace_from_absent. Qed.

Lemma prefixb_length (p s : str) :
  prefixb p s = true -> length p <= length s.
Proof.
  revert s. induction p as [|x p IH]; intros [|y s]; simpl; intros H;
    try lia; try discriminate.
  apply andb_true_iff in H. destruct H as [_ H]. apply IH in H. lia.
Qed.

(** A replacement by a text no longer than the pattern never lengthens. *)
Lemma replace_from_length (old new : str) :
  length new <= length old ->
  forall s skip, length (replace_from old new skip s) + Nat.min skip (length s)
                 <= length s.
Proof.
  intros Hlen. induction s as [|c t IH]; intros skip; simpl.
  - lia.
  - destruct skip as [|k].
    + destruct (prefixb old (c :: t)) eqn:Hp.
      * apply prefixb_length in Hp. simpl in Hp.
        rewrite length_app. specialize (IH (length old - 1)). lia.
      * simpl. specialize (IH 0). lia.
    + specialize (IH k). lia.
Qed.

(** It shortens when the pattern occurs and the new text is shorter. *)
Lemma replace_from_shorter (old new : str) :
  length new < length old ->
  forall s, contains old s = true ->
            length (replace_from old new 0 s) < length s.
Proof.
  intros Hlen. induction s as [|c t IH]; simpl; intros H.
  - apply orb_true_iff in H. destruct H as [H | H]; [|discriminate].
    apply prefixb_nil_r in H. subst old. simpl in Hlen. lia.
  - destruct (prefixb old (c :: t)) eqn:Hp.
    + apply prefixb_length in Hp. simpl in Hp. rewrite length_app.
      pose proof (replace_from_length old new (Nat.lt_le_incl _ _ Hlen)
                    t (length old - 1)). lia.
    + simpl in H. simpl. apply IH in H. lia.
Qed.

Lemma lstrip_head (s : str) :
  lstrip U s = [] \/
  exists c t, lstrip U s = c :: t /\ isspace U c = false.
Proof.
  induction s as [|c t IH]; simpl; [left; reflexivity|].
  destruct (isspace U c) eqn:Hc; [exact IH|].
  right. exists c, t. split; [reflexivity | exact Hc].
Qed.

Lemma lstrip_fixed (c : char) (t : str) :
  isspace U c = false -> lstrip U (c :: t) = c :: t.
Proof. intros H. simpl. rewrite H. reflexivity. Qed.

Lemma rstrip_head (c : char) (t : str) :
  isspace U c = false -> exists t', rstrip U (c :: t) = c :: t'.
Proof.
  intros H. simpl. destruct (rstrip U t) as [|r rs].
  - rewrite H. exists []. reflexivity.
  - exists (r :: rs). reflexivity.
Qed.

Lemma rstrip_idem (s : str) : rstrip U (rstrip U s) = rstrip U s.
Proof.
  induction s as [|c t IH]; simpl; [reflexivity|].
  destruct (rstrip U t) as [|r rs] eqn:Ht.
  - destruct (isspace U c) eqn:Hc; simpl; [reflexivity|].
    rewrite Hc. reflexivity.
  - simpl. simpl in IH. rewrite IH. reflexivity.
Qed.

Lemma strip_idem (s : str) : strip U (strip U s) = strip U s.
Proof.
  unfold strip.
  destruct (lstrip_head s) as [H | (c & t & H & Hc)]; rewrite H.
  - reflexivity.
  - destruct (rstrip_head c t Hc) as [t' Ht']. rewrite Ht'.
    rewrite (lstrip_fixed c t' Hc). rewrite <- Ht'. apply rstrip_idem.
Qed.

Lemma lstrip_length (s : str) : length (lstrip U s) <= length s.
Proof.
  induction s as [|c t IH]; simpl; [lia|].
  destruct (isspace U c); simpl; lia.
Qed.

Lemma rstrip_length (s : str) : length (rstrip U s) <= length s.
Proof.
  induction s as [|c t IH]; simpl; [lia|].
  destruct (rstrip U t); [destruct (isspace U c)|]; simpl in *; lia.
Qed.

Lemma strip_length (s : str) : length (strip U s) <= length s.
Proof.
  unfold strip. pose proof (rstrip_length (lstrip U s)).
  pose proof (lstrip_length s). lia.
Qed.

End TextFacts.

(* ================================================================== *)
(** * The date cleaner *)

Section DateCleaner.
Variable U : ucd.

Lemma clean_date_of_str (s : str) :
  clean_date_string U (str_obj s) =
  strip U (replace (lit ".M.") (lit "M")
             (replace (lit "P.M.") (lit "PM")
                (replace (lit "A.M.") (lit "AM") s))).
Proof. reflexivity. Qed.

(** An already cleaned text without [.M.] is left as it is. *)
Lemma clean_date_fixed (t : str) :
  strip U t = t -> contains (lit ".M.") t = false ->
  clean_date_string U (str_obj t) = t.
Proof.
  intros Hstrip Hno. rewrite clean_date_of_str.
  assert (HA : contains (lit "A.M.") t = false).
  { destruct (contains (lit "A.M.") t) eqn:E; [|reflexivity].
    apply contains_cons_pattern in E. change (contains (lit ".M.") t = true) in E.
    congruence. }
  assert (HP : contains (lit "P.M.") t = false).
  { destruct (contains (lit "P.M.") t) eqn:E; [|reflexivity].
    apply contains_cons_pattern in E. change (contains (lit ".M.") t = true) in E.
    congruence. }
  rewrite (replace_absent _ _ _ HA), (replace_absent _ _ _ HP),
    (replace_absent _ _ _ Hno). exact Hstrip.
Qed.

(** Cleaning a text that has [.M.] in it shortens it. *)
Lemma clean_date_shortens (t : str) :
  contains (lit ".M.") t = true ->
  length (clean_date_string U (str_obj t)) < length t.
Proof.
  intros H. rewrite clean_date_of_str.
  set (r1 := replace (lit "A.M.") (lit "AM") t).
  set (r2 := replace (lit "P.M.") (lit "PM") r1).
  set (r3 := replace (lit ".M.") (lit "M") r2).
  pose proof (strip_length U r3) as H3.
  assert (L1 : length r1 <= length t).
  { pose proof (replace_from_length (lit "A.M.") (lit "AM")
                  ltac:(simpl; lia) t 0). unfold r1, replace. lia. }
  assert (L2 : length r2 <= length r1).
  { pose proof (replace_from_length (lit "P.M.") (lit "PM")
                  ltac:(simpl; lia) r1 0). unfold r2, replace. lia. }
  assert (L3 : length r3 <= length r2).
  { pose proof (replace_from_length (lit ".M.") (lit "M")
                  ltac:(simpl; lia) r2 0). unfold r3, replace. lia. }
  destruct (contains (lit "A.M.") t) eqn:EA.
  { pose proof (replace_from_shorter (lit "A.M.") (lit "AM")
                  ltac:(simpl; lia) t EA). fold (replace (lit "A.M.") (lit "AM") t) in H0.
    fold r1 in H0. lia. }
  assert (E1 : r1 = t) by (apply replace_absent; exact EA).
  destruct (contains (lit "P.M.") r1) eqn:EP.
  { pose proof (replace_from_shorter (lit "P.M.") (lit "PM")
                  ltac:(simpl; lia) r1 EP). fold (replace (lit "P.M.") (lit "PM") r1) in H0.
    fold r2 in H0. lia. }
  assert (E2 : r2 = r1) by (apply replace_absent; exact EP).
  assert (E : contains (lit ".M.") r2 = true) by (rewrite E2, E1; exact H).
  pose proof (replace_from_shorter (lit ".M.") (lit "M")
                ltac:(simpl; lia) r2 E).
  fold (replace (lit ".M.") (lit "M") r2) in H0. fold r3 in H0. lia.
Qed.

Lemma clean_date_stripped (s : str) :
  strip U (clean_date_string U (str_obj s)) = clean_date_string U (str_obj s).
Proof. rewrite clean_date_of_str. apply strip_idem. Qed.

(** The converse of the amended C4: a second cleaning that changes nothing
    means the first one left no [.M.] behind. *)
Lemma clean_date_idempotent_only_if (s : str) :
  clean_date_string U (str_obj (clean_date_string U (str_obj s))) =
  clean_date_string U (str_obj s) ->
  contains (lit ".M.") (clean_date_string U (str_obj s)) = false.
Proof.
  intros H. destruct (contains (lit ".M.") _) eqn:E; [|reflexivity].
  apply clean_date_shortens in E. rewrite H in E. lia.
Qed.

(** C4, amended: [clean_date_string] applied to its own output returns it
    unchanged whenever that output has no [.M.] left in it. *)
Theorem clean_date_idempotent_if_settled (s : str) :
  contains (lit ".M.") (clean_date_string U (str_obj s)) = false ->
  clean_date_string U (str_obj (clean_date_string U (str_obj s))) =
  clean_date_string U (str_obj s).
Proof.
  intros H. apply clean_date_fixed; [apply clean_date_stripped | exact H].
Qed.

End DateCleaner.

Lemma clean_date_idempotent_if_settled_witness :
  contains (lit ".M.")
    (clean_date_string ascii_ucd (str_obj (lit " 1 P.M. "))) = false /\
  clean_date_string ascii_ucd
    (str_obj (clean_date_string ascii_ucd (str_obj (lit " 1 P.M. ")))) =
  clean_date_string ascii_ucd (str_obj (lit " 1 P.M. ")).
Proof.
  split.
  - reflexivity.
  - apply (clean_date_idempotent_if_settled ascii_ucd (lit " 1 P.M. ")).
    reflexivity.
Defined.

(** C4 as stated fails: ["..M.."] is cleaned to [".M."], which is cleaned
    to ["M"]. *)
Lemma clean_date_not_idempotent :
  clean_date_string ascii_ucd (str_obj (lit "..M..")) = lit ".M." /\
  clean_date_string ascii_ucd
    (str_obj (clean_date_string ascii_ucd (str_obj (lit "..M..")))) = lit "M" /\
  clean_date_string ascii_ucd
    (str_obj (clean_date_string ascii_ucd (str_obj (lit "..M..")))) <>
  clean_date_string ascii_ucd (str_obj (lit "..M..")).
Proof.
  split; [reflexivity|]. split; [reflexivity|]. vm_compute. discriminate.
Qed.

Example clean_date_examples :
  clean_date_string ascii_ucd (str_obj (lit "10.M. 2020")) = lit "10M 2020" /\
  clean_date_string ascii_ucd (str_obj (lit "1 P.M.")) = lit "1 PM" /\
  clean_date_string ascii_ucd (str_obj (lit "1 A.M.")) = lit "1 AM" /\
  clean_date_string ascii_ucd nan_obj = lit "nan".
Proof. repeat split. Qed.

(* ================================================================== *)
(** * The price cleaner *)

Section PriceCleaner.
Variable U : ucd.

Lemma lstrip_incl (s : str) (c : char) : In c (lstrip U s) -> In c s.
Proof.
  induction s as [|x t IH]; simpl; [tauto|].
  destruct (isspace U x); simpl; tauto.
Qed.

Lemma rstrip_incl (s : str) (c : char) : In c (rstrip U s) -> In c s.
Proof.
  induction s as [|x t IH]; simpl; [tauto|].
  destruct (rstrip U t) as [|r rs].
  - destruct (isspace U x); simpl; tauto.
  - simpl in *. tauto.
Qed.

Lemma strip_incl (s : str) (c : char) : In c (strip U s) -> In c s.
Proof. intros H. apply lstrip_incl, rstrip_incl, H. Qed.

Lemma lstrip_keeps (s : str) (c : char) :
  isspace U c = false -> In c s -> In c (lstrip U s).
Proof.
  intros Hc. induction s as [|x t IH]; simpl; [tauto|].
  destruct (isspace U x) eqn:Hx; simpl; [|tauto].
  intros [E | H]; [congruence | auto].
Qed.

Lemma rstrip_keeps (s : str) (c : char) :
  isspace U c = false -> In c s -> In c (rstrip U s).
Proof.
  intros Hc. induction s as [|x t IH]; simpl; [tauto|].
  intros [E | H].
  - subst x. destruct (rstrip U t); [rewrite Hc|]; simpl; tauto.
  - specialize (IH H). destruct (rstrip U t); simpl in *; tauto.
Qed.

Lemma has_char_In (c : char) (s : str) : has_char c s = true <-> In c s.
Proof.
  unfold has_char. rewrite existsb_exists. split.
  - intros (x & Hx & E). apply N.eqb_eq in E. subst. exact Hx.
  - intros H. exists c. split; [exact H | apply N.eqb_refl].
Qed.

Lemma has_char_strip (c : char) (s : str) :
  isspace U c = false -> has_char c (strip U s) = has_char c s.
Proof.
  intros Hc. apply eq_true_iff_eq. rewrite !has_char_In. split.
  - apply strip_incl.
  - intros H. apply rstrip_keeps, lstrip_keeps; assumption.
Qed.

Lemma py_float_nonempty (r : str) (x : float) :
  py_float U r = Ok x -> r <> [].
Proof. intros H E. subst r. discriminate H. Qed.

Lemma clean_price_null (v : cell) : isna v = true -> clean_price U v = Ok fzero.
Proof. intros H. unfold clean_price. rewrite H. reflexivity. Qed.

Lemma clean_price_parsed (v : cell) (x : float) :
  isna v = false ->
  py_float U (digits_and_dots U (strip U (text v))) = Ok x ->
  clean_price U v =
  Ok (fmul x (if has_char euro (strip U (text v)) then f1_2 else f1_0)).
Proof.
  intros Hv Hx. unfold clean_price. rewrite Hv.
  pose proof (py_float_nonempty _ _ Hx) as Hne.
  destruct (digits_and_dots U (strip U (text v))) as [|c r] eqn:E;
    [congruence|].
  rewrite Hx. reflexivity.
Qed.

Lemma clean_price_nothing_to_parse (v : cell) :
  isna v = false ->
  (forall c, In c (text v) -> is_digit U c = false /\ c <> dot) ->
  clean_price U v = Ok fzero.
Proof.
  intros Hv Hno. unfold clean_price. rewrite Hv.
  assert (E : digits_and_dots U (strip U (text v)) = []).
  { unfold digits_and_dots.
    destruct (filter _ (strip U (text v))) as [|c r] eqn:F; [reflexivity|].
    assert (Hin : In c (filter (fun c => is_digit U c || N.eqb c dot)
                          (strip U (text v)))) by (rewrite F; left; reflexivity).
    apply filter_In in Hin. destruct Hin as [Hin Hc].
    apply strip_incl in Hin. destruct (Hno c Hin) as [Hd Hdot].
    rewrite Hd in Hc. simpl in Hc. apply N.eqb_eq in Hc. contradiction. }
  rewrite E. reflexivity.
Qed.

(** C5, amended: a null price is 0.0; a price whose digits and points parse
    as a decimal number [x] is [x] times 1.2 when it has a Euro sign and
    [x] times 1.0 otherwise; a price with no digit and no point is 0.0. *)
Theorem clean_price_spec (Heuro : isspace U euro = false) :
  (forall v, isna v = true -> clean_price U v = Ok fzero) /\
  (forall v x,
      isna v = false ->
      py_float U (digits_and_dots U (strip U (text v))) = Ok x ->
      clean_price U v =
      Ok (fmul x (if has_char euro (text v) then f1_2 else f1_0))) /\
  (forall v,
      isna v = false ->
      (forall c, In c (text v) -> is_digit U c = false /\ c <> dot) ->
      clean_price U v = Ok fzero).
Proof.
  split; [exact clean_price_null|]. split; [|exact clean_price_nothing_to_parse].
  intros v x Hv Hx. rewrite <- (has_char_strip euro (text v) Heuro).
  apply clean_price_parsed; assumption.
Qed.

End PriceCleaner.

Lemma clean_price_spec_witness :
  isspace ascii_ucd euro = false /\
  clean_price ascii_ucd (str_obj (euro :: lit "10")) =
  Ok (fmul (of_decimal 10 0) f1_2).
Proof.
  split; [reflexivity|].
  exact (proj1 (proj2 (clean_price_spec ascii_ucd eq_refl))
           (str_obj (euro :: lit "10")) (of_decimal 10 0) eq_refl eq_refl).
Defined.

(** The examples of the specification: [€10] is 12.0, [$10] is 10.0, a
    missing price is 0.0. *)
Example clean_price_examples :
  clean_price ascii_ucd (str_obj (euro :: lit "10")) = Ok (of_integer 12) /\
  clean_price ascii_ucd (str_obj (lit "$10")) = Ok (of_integer 10) /\
  clean_price ascii_ucd (str_obj (lit " 2.50 USD")) = Ok (of_decimal 25 1) /\
  clean_price ascii_ucd nan_obj = Ok fzero /\
  clean_price ascii_ucd (str_obj (lit "free")) = Ok fzero.
Proof. repeat split. Qed.

(** C5 as stated fails: a price without digits can still raise.  ["."] has
    no digit, its remainder ["."] is not empty, and [float(".")] raises. *)
Lemma clean_price_no_digit_raises :
  (forall c, In c (lit ".") -> is_digit ascii_ucd c = false) /\
  clean_price ascii_ucd (str_obj (lit ".")) = Raise ValueError /\
  clean_price ascii_ucd (str_obj (lit ".")) <> Ok fzero.
Proof.
  split; [|split; [reflexivity | discriminate]].
  intros c [E | []]. subst c. reflexivity.
Qed.

(* ================================================================== *)
(** * Dictionaries: lookups after updates *)

Section DictFacts.
Variables K V : Type.
Variable K_eq_dec : forall x y : K, {x = y} + {x <> y}.

Lemma dict_get_set (d : dict K V) (k k' : K) (v : V) :
  dict_get K_eq_dec (dict_set K_eq_dec d k v) k' =
  if K_eq_dec k' k then Some v else dict_get K_eq_dec d k'.
Proof.
  induction d as [|[k0 v0] t IH]; simpl.
  - destruct (K_eq_dec k' k); reflexivity.
  - destruct (K_eq_dec k k0) as [E | N]; simpl.
    + subst k0. destruct (K_eq_dec k' k); reflexivity.
    + destruct (K_eq_dec k' k0) as [E' | N'].
      * subst k0. destruct (K_eq_dec k' k); [congruence | reflexivity].
      * exact IH.
Qed.

Lemma dict_set_In (d : dict K V) (k k' : K) (v v' : V) :
  In (k', v') (dict_set K_eq_dec d k v) ->
  (k' = k /\ v' = v) \/ In (k', v') d.
Proof.
  induction d as [|[k0 v0] t IH]; simpl.
  - intros [E | []]. inversion E. auto.
  - destruct (K_eq_dec k k0) as [E | N]; simpl.
    + subst k0. intros [E | H]; [inversion E; auto | auto].
    + intros [E | H]; [auto | destruct (IH H); auto].
Qed.

Lemma dict_get_In (d : dict K V) (k : K) (v : V) :
  dict_get K_eq_dec d k = Some v -> In (k, v) d.
Proof.
  induction d as [|[k0 v0] t IH]; simpl; [discriminate|].
  destruct (K_eq_dec k k0) as [E | N].
  - intros H. inversion H. subst. left. reflexivity.
  - intros H. right. auto.
Qed.

Lemma dict_get_value (d : dict K V) (k : K) (v : V) :
  dict_get K_eq_dec d k = Some v -> In v (dict_values d).
Proof.
  intros H. apply dict_get_In in H. unfold dict_values.
  change v with (snd (k, v)). apply in_map. exact H.
Qed.

Lemma fold_set_get (ps : list (K * V)) (d : dict K V) (k : K) (v : V) :
  (forall v', In (k, v') ps -> v' = v) ->
  In (k, v) ps \/ dict_get K_eq_dec d k = Some v ->
  dict_get K_eq_dec
    (fold_left (fun d kv => dict_set K_eq_dec d (fst kv) (snd kv)) ps d) k
  = Some v.
Proof.
  revert d. induction ps as [|[k0 v0] t IH]; simpl; intros d Hall Hor.
  - destruct Hor as [[] | H]. exact H.
  - apply IH.
    + intros v' H. apply Hall. right. exact H.
    + destruct (K_eq_dec k k0) as [E | N].
      * subst k0. right. rewrite dict_get_set.
        destruct (K_eq_dec k k); [|congruence].
        f_equal. apply Hall. left. reflexivity.
      * destruct Hor as [[E | H] | H].
        -- inversion E. congruence.
        -- left. exact H.
        -- right. rewrite dict_get_set.
           destruct (K_eq_dec k k0); [congruence | exact H].
Qed.

(** A key all of whose pairs carry the same value is mapped to it. *)
Lemma dict_of_pairs_get (ps : list (K * V)) (k : K) (v : V) :
  (forall v', In (k, v') ps -> v' = v) -> In (k, v) ps ->
  dict_get K_eq_dec (dict_of_pairs K_eq_dec ps) k = Some v.
Proof. intros Hall Hin. apply fold_set_get; auto. Qed.

Lemma fold_set_absent (ps : list (K * V)) (d : dict K V) (k : K) :
  (forall v, ~ In (k, v) ps) -> dict_get K_eq_dec d k = None ->
  dict_get K_eq_dec
    (fold_left (fun d kv => dict_set K_eq_dec d (fst kv) (snd kv)) ps d) k
  = None.
Proof.
  revert d. induction ps as [|[k0 v0] t IH]; simpl; intros d Hno Hd.
  - exact Hd.
  - apply IH.
    + intros v H. apply (Hno v). right. exact H.
    + rewrite dict_get_set. destruct (K_eq_dec k k0) as [E | N]; [|exact Hd].
      subst k0. exfalso. apply (Hno v0). left. reflexivity.
Qed.

Lemma dict_of_pairs_absent (ps : list (K * V)) (k : K) :
  (forall v, ~ In (k, v) ps) ->
  dict_get K_eq_dec (dict_of_pairs K_eq_dec ps) k = None.
Proof. intros H. apply fold_set_absent; auto. Qed.

End DictFacts.

(* ================================================================== *)
(** * Connected components are a partition *)

Section GraphFacts.
Variable Id : Type.
Variable Id_eq_dec : forall x y : Id, {x = y} + {x <> y}.

Lemma mem_In (x : Id) (l : list Id) : mem Id_eq_dec x l = true <-> In x l.
Proof.
  unfold mem. destruct (in_dec Id_eq_dec x l); split; intros H;
    try reflexivity; try assumption; try discriminate; contradiction.
Qed.

Lemma adj_spec (g : graph Id) (v w : Id) :
  In w (adj Id_eq_dec g v) <-> In (v, w) (edges g) \/ In (w, v) (edges g).
Proof.
  unfold adj. rewrite in_flat_map. split.
  - intros ([a b] & He & Hw). simpl in Hw.
    destruct (Id_eq_dec v a) as [E | N].
    + destruct Hw as [E' | []]. subst. left. exact He.
    + destruct (Id_eq_dec v b) as [E | N'].
      * destruct Hw as [E' | []]. subst. right. exact He.
      * destruct Hw.
  - intros [H | H].
    + exists (v, w). split; [exact H|]. simpl.
      destruct (Id_eq_dec v v); [left; reflexivity | congruence].
    + exists (w, v). split; [exact H|]. simpl.
      destruct (Id_eq_dec v w) as [E | N].
      * left. exact E.
      * destruct (Id_eq_dec v v); [left; reflexivity | congruence].
Qed.

Lemma adj_sym (g : graph Id) (v w : Id) : In w (adj Id_eq_dec g v) -> In v (adj Id_eq_dec g w).
Proof. rewrite !adj_spec. tauto. Qed.

Section SearchFacts.
Variable g : graph Id.
Hypothesis g_wf : well_formed g.

Lemma adj_in_nodes (v w : Id) : In w (adj Id_eq_dec g v) -> In w (nodes g).
Proof.
  rewrite adj_spec. intros [H | H]; apply g_wf in H; tauto.
Qed.

Lemma NoDup_snoc (l : list Id) (w : Id) :
  NoDup l -> ~ In w l -> NoDup (l ++ [w]).
Proof.
  intros Hl Hw. apply NoDup_app.
  - exact Hl.
  - constructor; [simpl; tauto | constructor].
  - intros x Hx [E | []]. subst. contradiction.
Qed.

Lemma visit_fold (popped : list Id) (v : Id) (ws q : list Id) :
  NoDup (popped ++ v :: q) ->
  NoDup (popped ++ v :: fold_left (visit Id_eq_dec popped v) ws q) /\
  incl q (fold_left (visit Id_eq_dec popped v) ws q) /\
  (forall w, In w ws ->
             In w (popped ++ v :: fold_left (visit Id_eq_dec popped v) ws q)).
Proof.
  revert q. induction ws as [|w ws IH]; simpl; intros q Hnd.
  - split; [exact Hnd|]. split; [apply incl_refl|]. intros w [].
  - destruct (mem Id_eq_dec w (popped ++ v :: q)) eqn:Hm.
    + assert (Ev : visit Id_eq_dec popped v q w = q)
        by (unfold visit; rewrite Hm; reflexivity).
      rewrite Ev.
      apply mem_In in Hm. destruct (IH q Hnd) as (A & B & C).
      split; [exact A|]. split; [exact B|].
      intros x [E | Hx]; [subst x | auto].
      apply in_app_or in Hm. apply in_or_app.
      destruct Hm as [Hm | [Hm | Hm]];
        [left; exact Hm | right; left; exact Hm |].
      right. right. apply B. exact Hm.
    + assert (Ev : visit Id_eq_dec popped v q w = q ++ [w])
        by (unfold visit; rewrite Hm; reflexivity).
      rewrite Ev.
      assert (Hw : ~ In w (popped ++ v :: q)).
      { intros H. apply (proj2 (mem_In w _)) in H. congruence. }
      assert (Hnd' : NoDup (popped ++ v :: (q ++ [w]))).
      { replace (popped ++ v :: (q ++ [w])) with ((popped ++ v :: q) ++ [w]).
        - apply NoDup_snoc; assumption.
        - rewrite <- app_assoc. reflexivity. }
      destruct (IH (q ++ [w]) Hnd') as (A & B & C).
      split; [exact A|]. split.
      * intros x Hx. apply B. apply in_or_app. left. exact Hx.
      * intros x [E | Hx]; [subst x | auto].
        apply in_or_app. right. right. apply B. apply in_or_app. right.
        left. reflexivity.
Qed.

Lemma visit_fold_origin (popped : list Id) (v : Id) (ws q : list Id) :
  forall x, In x (fold_left (visit Id_eq_dec popped v) ws q) ->
            In x q \/ In x ws.
Proof.
  revert q. induction ws as [|w ws IH]; simpl; intros q x Hx; [auto|].
  apply IH in Hx. destruct Hx as [Hx | Hx]; [|auto].
  unfold visit in Hx. destruct (mem Id_eq_dec w (popped ++ v :: q)); [auto|].
  apply in_app_or in Hx. destruct Hx as [H | [E | []]]; auto.
Qed.

(** One round of the search keeps what the proofs below rely on: no
    repetition in [seen], only nodes of the graph in it, and the neighbours
    of every node taken off the queue in it. *)
Lemma bfs_round (popped : list Id) (v : Id) (rest : list Id) :
  NoDup (popped ++ v :: rest) ->
  incl (popped ++ v :: rest) (nodes g) ->
  (forall x w, In x popped -> In w (adj Id_eq_dec g x) ->
               In w (popped ++ v :: rest)) ->
  NoDup ((popped ++ [v]) ++
         fold_left (visit Id_eq_dec popped v) (adj Id_eq_dec g v) rest) /\
  incl ((popped ++ [v]) ++
        fold_left (visit Id_eq_dec popped v) (adj Id_eq_dec g v) rest)
       (nodes g) /\
  (forall x w, In x (popped ++ [v]) -> In w (adj Id_eq_dec g x) ->
               In w ((popped ++ [v]) ++
                     fold_left (visit Id_eq_dec popped v)
                       (adj Id_eq_dec g v) rest)) /\
  incl (popped ++ v :: rest)
       ((popped ++ [v]) ++
        fold_left (visit Id_eq_dec popped v) (adj Id_eq_dec g v) rest).
Proof.
  intros Hnd Hin Hcl.
  destruct (visit_fold popped v (adj Id_eq_dec g v) rest Hnd) as (A & B & C).
  pose proof (visit_fold_origin popped v (adj Id_eq_dec g v) rest) as D.
  set (q' := fold_left (visit Id_eq_dec popped v) (adj Id_eq_dec g v) rest) in *.
  assert (Eq : (popped ++ [v]) ++ q' = popped ++ v :: q').
  { rewrite <- app_assoc. reflexivity. }
  assert (Hsub : incl (popped ++ v :: rest) (popped ++ v :: q')).
  { intros x Hx. apply in_app_or in Hx. apply in_or_app.
    destruct Hx as [H | [H | H]];
      [left; exact H | right; left; exact H | right; right; apply B; exact H]. }
  rewrite Eq. split; [exact A|]. split; [|split; [|exact Hsub]].
  - intros x Hx. apply in_app_or in Hx. destruct Hx as [Hx | [E | Hx]].
    + apply Hin. apply in_or_app. left. exact Hx.
    + apply Hin. apply in_or_app. right. left. exact E.
    + destruct (D x Hx) as [H | H].
      * apply Hin. apply in_or_app. right. right. exact H.
      * eapply adj_in_nodes. exact H.
  - intros x w Hx Hw. apply in_app_or in Hx. destruct Hx as [Hx | [E | []]].
    + apply Hsub. exact (Hcl x w Hx Hw).
    + subst x. apply C. exact Hw.
Qed.

(** Once every node has been taken off the queue, the queue is empty. *)
Lemma bfs_queue_empty (popped queue : list Id) :
  NoDup (popped ++ queue) -> incl (popped ++ queue) (nodes g) ->
  length (nodes g) <= length popped -> queue = [].
Proof.
  intros Hnd Hin Hlen. pose proof (NoDup_incl_length Hnd Hin) as L.
  rewrite length_app in L. destruct queue; [reflexivity | simpl in *; lia].
Qed.

(** With one round per node the search runs to the end: what it returns
    has no repetition, holds what it started from and is closed under
    adjacency. *)
Lemma bfs_closed (fuel : nat) :
  forall popped queue,
    NoDup (popped ++ queue) ->
    incl (popped ++ queue) (nodes g) ->
    (forall x w, In x popped -> In w (adj Id_eq_dec g x) ->
                 In w (popped ++ queue)) ->
    length (nodes g) <= fuel + length popped ->
    NoDup (bfs Id_eq_dec g fuel popped queue) /\
    incl (popped ++ queue) (bfs Id_eq_dec g fuel popped queue) /\
    incl (bfs Id_eq_dec g fuel popped queue) (nodes g) /\
    closed Id_eq_dec g (bfs Id_eq_dec g fuel popped queue).
Proof.
  assert (Stop : forall popped,
             NoDup (popped ++ []) -> incl (popped ++ []) (nodes g) ->
             (forall x w, In x popped -> In w (adj Id_eq_dec g x) ->
                          In w (popped ++ [])) ->
             NoDup (popped ++ []) /\ incl (popped ++ []) (popped ++ []) /\
             incl (popped ++ []) (nodes g) /\
             closed Id_eq_dec g (popped ++ [])).
  { intros popped Hnd Hin Hcl. split; [exact Hnd|].
    split; [apply incl_refl|]. split; [exact Hin|].
    intros x w Hx Hw. rewrite app_nil_r in Hx. exact (Hcl x w Hx Hw). }
  induction fuel as [|f IH]; intros popped queue Hnd Hin Hcl Hfuel.
  - pose proof (bfs_queue_empty popped queue Hnd Hin Hfuel) as Hq.
    subst queue. simpl. apply Stop; assumption.
  - destruct queue as [|v rest].
    + simpl. apply Stop; assumption.
    + simpl. destruct (bfs_round popped v rest Hnd Hin Hcl) as (A & B & C & D).
      destruct (IH (popped ++ [v]) _ A B C) as (R1 & R2 & R3 & R4).
      * rewrite length_app. simpl. lia.
      * split; [exact R1|]. split; [|split; [exact R3 | exact R4]].
        eapply incl_tran; eassumption.
Qed.

(** More rounds than nodes change nothing: the loop of the source, which
    has no bound, returns what [bfs] returns with one round per node. *)
Lemma bfs_enough_fuel (fuel : nat) :
  forall popped queue more,
    NoDup (popped ++ queue) ->
    incl (popped ++ queue) (nodes g) ->
    (forall x w, In x popped -> In w (adj Id_eq_dec g x) ->
                 In w (popped ++ queue)) ->
    length (nodes g) <= fuel + length popped ->
    bfs Id_eq_dec g (fuel + more) popped queue =
    bfs Id_eq_dec g fuel popped queue.
Proof.
  induction fuel as [|f IH]; intros popped queue more Hnd Hin Hcl Hfuel.
  - rewrite (bfs_queue_empty popped queue Hnd Hin Hfuel).
    simpl. destruct more; reflexivity.
  - destruct queue as [|v rest]; [reflexivity|]. simpl.
    destruct (bfs_round popped v rest Hnd Hin Hcl) as (A & B & C & _).
    apply IH; auto. rewrite length_app. simpl. lia.
Qed.

(** Whatever the search returns was reached from where it started. *)
Lemma bfs_sound (R : Id -> Prop) :
  (forall x w, R x -> In w (adj Id_eq_dec g x) -> R w) ->
  forall fuel popped queue,
    (forall x, In x (popped ++ queue) -> R x) ->
    forall x, In x (bfs Id_eq_dec g fuel popped queue) -> R x.
Proof.
  intros HR. induction fuel as [|f IH]; intros popped queue H0 x Hx.
  - simpl in Hx. destruct queue; auto.
  - destruct queue as [|v rest]; simpl in Hx; [auto|].
    refine (IH _ _ _ x Hx). intros y Hy.
    rewrite <- app_assoc in Hy. simpl in Hy.
    assert (Hv : R v).
    { apply H0. apply in_or_app. right. left. reflexivity. }
    apply in_app_or in Hy. destruct Hy as [Hy | [E | Hy]].
    + apply H0. apply in_or_app. left. exact Hy.
    + subst y. exact Hv.
    + apply visit_fold_origin in Hy. destruct Hy as [Hy | Hy].
      * apply H0. apply in_or_app. right. right. exact Hy.
      * exact (HR v y Hv Hy).
Qed.

Lemma connected_sym (x y : Id) :
  connected Id_eq_dec g x y -> connected Id_eq_dec g y x.
Proof.
  unfold connected. induction 1 as [x y H | x | x y z _ IH1 _ IH2].
  - apply rt_step. apply adj_sym. exact H.
  - apply rt_refl.
  - eapply rt_trans; eassumption.
Qed.

Lemma closed_connected (S : list Id) (x y : Id) :
  closed Id_eq_dec g S -> connected Id_eq_dec g x y -> In x S -> In y S.
Proof.
  intros Hc. unfold connected.
  induction 1 as [x y H | x | x y z _ IH1 _ IH2]; intros Hx; auto.
  exact (Hc x y Hx H).
Qed.

Lemma closed_app (S T : list Id) :
  closed Id_eq_dec g S -> closed Id_eq_dec g T -> closed Id_eq_dec g (S ++ T).
Proof.
  intros HS HT x w Hx Hw. apply in_app_or in Hx. apply in_or_app.
  destruct Hx as [Hx | Hx]; [left; exact (HS x w Hx Hw) | right; exact (HT x w Hx Hw)].
Qed.

Lemma plain_bfs_spec (s : Id) :
  In s (nodes g) ->
  NoDup (plain_bfs Id_eq_dec g s) /\
  In s (plain_bfs Id_eq_dec g s) /\
  incl (plain_bfs Id_eq_dec g s) (nodes g) /\
  closed Id_eq_dec g (plain_bfs Id_eq_dec g s) /\
  (forall x, In x (plain_bfs Id_eq_dec g s) -> connected Id_eq_dec g s x).
Proof.
  intros Hs. unfold plain_bfs.
  destruct (bfs_closed (length (nodes g)) [] [s]) as (A & B & C & D).
  - simpl. constructor; [simpl; tauto | constructor].
  - simpl. intros x [E | []]. subst x. exact Hs.
  - intros x w [].
  - simpl. lia.
  - split; [exact A|]. split; [apply B; left; reflexivity|].
    split; [exact C|]. split; [exact D|].
    apply (bfs_sound (connected Id_eq_dec g s)).
    + intros x w Hx Hw. eapply rt_trans; [exact Hx | apply rt_step; exact Hw].
    + simpl. intros x [E | []]. subst x. apply rt_refl.
Qed.

Lemma plain_bfs_any_fuel (s : Id) (more : nat) :
  In s (nodes g) ->
  bfs Id_eq_dec g (length (nodes g) + more) [] [s] = plain_bfs Id_eq_dec g s.
Proof.
  intros Hs. unfold plain_bfs. apply bfs_enough_fuel.
  - simpl. constructor; [simpl; tauto | constructor].
  - simpl. intros x [E | []]. subst x. exact Hs.
  - intros x w [].
  - simpl. lia.
Qed.

Lemma NoDup_app_disjoint (a b : list Id) (x : Id) :
  NoDup (a ++ b) -> In x a -> In x b -> False.
Proof.
  induction a as [|h a IH]; simpl; intros Hnd Ha Hb; [contradiction|].
  inversion Hnd as [|? ? Hh Hnd']; subst.
  destruct Ha as [E | Ha].
  - subst h. apply Hh. apply in_or_app. right. exact Hb.
  - exact (IH Hnd' Ha Hb).
Qed.

Lemma components_from_spec (vs : list Id) :
  forall seen,
    closed Id_eq_dec g seen -> incl vs (nodes g) ->
    NoDup (concat (components_from Id_eq_dec g seen vs)) /\
    (forall x, In x (concat (components_from Id_eq_dec g seen vs)) ->
               ~ In x seen /\ In x (nodes g)) /\
    (forall c, In c (components_from Id_eq_dec g seen vs) ->
               closed Id_eq_dec g c /\ c <> [] /\
               forall x y, In x c -> In y c -> connected Id_eq_dec g x y) /\
    (forall v, In v vs ->
               In v seen \/ In v (concat (components_from Id_eq_dec g seen vs))).
Proof.
  induction vs as [|v vs IH]; intros seen Hseen Hvs; simpl.
  - split; [constructor|]. split; [intros x []|].
    split; [intros c []|]. intros v [].
  - assert (Hvs' : incl vs (nodes g)).
    { intros x Hx. apply Hvs. right. exact Hx. }
    destruct (mem Id_eq_dec v seen) eqn:Hm.
    + apply mem_In in Hm. destruct (IH seen Hseen Hvs') as (A & B & C & D).
      split; [exact A|]. split; [exact B|]. split; [exact C|].
      intros v' [E | Hv']; [subst v'; left; exact Hm | auto].
    + assert (Hv : ~ In v seen).
      { intros H. apply (proj2 (mem_In v _)) in H. congruence. }
      destruct (plain_bfs_spec v (Hvs v (or_introl eq_refl)))
        as (P1 & P2 & P3 & P4 & P5).
      set (c := plain_bfs Id_eq_dec g v) in *.
      assert (Hfresh : forall x, In x c -> ~ In x seen).
      { intros x Hx Hs. apply Hv.
        apply (closed_connected seen x v Hseen); [|exact Hs].
        apply connected_sym. apply P5. exact Hx. }
      destruct (IH (seen ++ c) (closed_app _ _ Hseen P4) Hvs')
        as (A & B & C & D).
      simpl. split; [|split; [|split]].
      * apply NoDup_app; [exact P1 | exact A |].
        intros x Hx Hx'. apply B in Hx'. destruct Hx' as [Hx' _].
        apply Hx'. apply in_or_app. right. exact Hx.
      * intros x Hx. apply in_app_or in Hx. destruct Hx as [Hx | Hx].
        -- split; [apply Hfresh; exact Hx | apply P3; exact Hx].
        -- apply B in Hx. destruct Hx as [Hx Hn]. split; [|exact Hn].
           intros Hs. apply Hx. apply in_or_app. left. exact Hs.
      * intros c' [E | Hc'].
        -- subst c'. split; [exact P4|]. split.
           ++ intros E. rewrite E in P2. destruct P2.
           ++ intros x y Hx Hy. eapply rt_trans.
              ** apply connected_sym. apply P5. exact Hx.
              ** apply P5. exact Hy.
        -- apply C. exact Hc'.
      * intros v' [E | Hv'].
        -- subst v'. right. apply in_or_app. left. exact P2.
        -- destruct (D v' Hv') as [H | H].
           ++ apply in_app_or in H. destruct H as [H | H]; [left; exact H|].
              right. apply in_or_app. left. exact H.
           ++ right. apply in_or_app. right. exact H.
Qed.

(** The components returned for a graph partition its nodes, and two nodes
    are in the same component exactly when a walk joins them. *)
Lemma connected_components_spec :
  NoDup (concat (connected_components Id_eq_dec g)) /\
  (forall v, In v (nodes g) <-> In v (concat (connected_components Id_eq_dec g))) /\
  (forall c, In c (connected_components Id_eq_dec g) ->
             c <> [] /\
             forall x y, In x c -> (In y c <-> connected Id_eq_dec g x y)).
Proof.
  unfold connected_components.
  destruct (components_from_spec (nodes g) []) as (A & B & C & D).
  - intros x w [].
  - apply incl_refl.
  - split; [exact A|]. split.
    + intros v. split.
      * intros Hv. destruct (D v Hv) as [[] | H]. exact H.
      * intros Hv. apply B in Hv. tauto.
    + intros c Hc. destruct (C c Hc) as (C1 & C2 & C3).
      split; [exact C2|]. intros x y Hx. split.
      * intros Hy. apply C3; assumption.
      * intros Hxy. exact (closed_connected c x y C1 Hxy Hx).
Qed.

End SearchFacts.

Lemma concat_component_unique (cs : list (list Id)) (c c' : list Id) (x : Id) :
  NoDup (concat cs) -> In c cs -> In c' cs -> In x c -> In x c' -> c = c'.
Proof.
  induction cs as [|h cs IH]; simpl; intros Hnd Hc Hc' Hx Hx'; [contradiction|].
  assert (Hin : forall d, In d cs -> In x d -> In x (concat cs)).
  { intros d Hd Hxd. apply in_concat. exists d. split; assumption. }
  destruct Hc as [E | Hc]; destruct Hc' as [E' | Hc'].
  - congruence.
  - subst h. exfalso.
    exact (NoDup_app_disjoint c (concat cs) x Hnd Hx (Hin c' Hc' Hx')).
  - subst h. exfalso.
    exact (NoDup_app_disjoint c' (concat cs) x Hnd Hx' (Hin c Hc Hx)).
  - apply IH; auto. apply NoDup_app_remove_l in Hnd. exact Hnd.
Qed.

End GraphFacts.

(* ================================================================== *)
(** * Building the identity graph *)

Section GraphBuilding.
Variable Id : Type.
Variable Id_eq_dec : forall x y : Id, {x = y} + {x <> y}.

Lemma extends_refl (g : graph Id) : extends g g.
Proof. split; apply incl_refl. Qed.

Lemma extends_trans (g1 g2 g3 : graph Id) :
  extends g1 g2 -> extends g2 g3 -> extends g1 g3.
Proof. intros [A B] [C D]. split; eapply incl_tran; eassumption. Qed.

Lemma add_node_nodes (n x : Id) (g : graph Id) :
  In x (nodes (add_node Id_eq_dec n g)) <-> x = n \/ In x (nodes g).
Proof.
  unfold add_node. destruct (mem Id_eq_dec n (nodes g)) eqn:Hm; simpl.
  - apply mem_In in Hm. split; [tauto|]. intros [E | H]; [subst; exact Hm | exact H].
  - rewrite in_app_iff. simpl. split; intros H; intuition congruence.
Qed.

Lemma add_node_edges (n : Id) (g : graph Id) :
  edges (add_node Id_eq_dec n g) = edges g.
Proof. unfold add_node. destruct (mem Id_eq_dec n (nodes g)); reflexivity. Qed.

Lemma add_node_extends (n : Id) (g : graph Id) :
  extends g (add_node Id_eq_dec n g).
Proof.
  split.
  - intros x Hx. apply add_node_nodes. right. exact Hx.
  - rewrite add_node_edges. apply incl_refl.
Qed.

Lemma add_node_wf (n : Id) (g : graph Id) :
  well_formed g -> well_formed (add_node Id_eq_dec n g).
Proof.
  intros Hwf a b H. rewrite add_node_edges in H. apply Hwf in H.
  rewrite !add_node_nodes. tauto.
Qed.

Lemma add_edge_nodes (u v x : Id) (g : graph Id) :
  In x (nodes (add_edge Id_eq_dec u v g)) <-> x = u \/ x = v \/ In x (nodes g).
Proof.
  unfold add_edge. simpl. rewrite !add_node_nodes. tauto.
Qed.

Lemma add_edge_edges (u v : Id) (e : Id * Id) (g : graph Id) :
  In e (edges (add_edge Id_eq_dec u v g)) <-> e = (u, v) \/ In e (edges g).
Proof.
  unfold add_edge. simpl. rewrite in_app_iff, !add_node_edges. simpl.
  split; intros H; intuition congruence.
Qed.

Lemma add_edge_extends (u v : Id) (g : graph Id) :
  extends g (add_edge Id_eq_dec u v g).
Proof.
  split.
  - intros x Hx. apply add_edge_nodes. tauto.
  - intros e He. apply add_edge_edges. tauto.
Qed.

Lemma add_edge_wf (u v : Id) (g : graph Id) :
  well_formed g -> well_formed (add_edge Id_eq_dec u v g).
Proof.
  intros Hwf a b H. apply add_edge_edges in H. rewrite !add_edge_nodes.
  destruct H as [E | H].
  - inversion E. subst. tauto.
  - apply Hwf in H. tauto.
Qed.

Lemma connected_mono (g g' : graph Id) (x y : Id) :
  extends g g' -> connected Id_eq_dec g x y -> connected Id_eq_dec g' x y.
Proof.
  intros [_ He]. unfold connected.
  induction 1 as [x y H | x | x y z _ IH1 _ IH2].
  - apply rt_step. apply adj_spec. apply adj_spec in H.
    destruct H as [H | H]; [left | right]; apply He; exact H.
  - apply rt_refl.
  - eapply rt_trans; eassumption.
Qed.

Lemma edge_connected (g : graph Id) (a b : Id) :
  In (a, b) (edges g) -> connected Id_eq_dec g a b.
Proof. intros H. apply rt_step. apply adj_spec. left. exact H. Qed.

(** What [add_path] does to a graph: it only grows, stays well formed,
    joins the ids of the path, and every new edge is between two of them. *)
Lemma add_path_from_spec (rest : list Id) :
  forall prev g,
    extends g (add_path_from Id_eq_dec prev rest g) /\
    (well_formed g -> well_formed (add_path_from Id_eq_dec prev rest g)) /\
    (forall x, In x (prev :: rest) ->
               connected Id_eq_dec (add_path_from Id_eq_dec prev rest g) prev x) /\
    (forall a b, In (a, b) (edges (add_path_from Id_eq_dec prev rest g)) ->
                 In (a, b) (edges g) \/
                 (In a (prev :: rest) /\ In b (prev :: rest))).
Proof.
  induction rest as [|v t IH]; intros prev g; simpl.
  - split; [apply extends_refl|]. split; [tauto|]. split.
    + intros x [E | []]. subst x. apply rt_refl.
    + intros a b H. left. exact H.
  - destruct (IH v (add_edge Id_eq_dec prev v g)) as (A & B & C & D).
    split; [|split; [|split]].
    + eapply extends_trans; [apply add_edge_extends | exact A].
    + intros Hwf. apply B. apply add_edge_wf. exact Hwf.
    + assert (Hpv : connected Id_eq_dec
                      (add_path_from Id_eq_dec v t (add_edge Id_eq_dec prev v g))
                      prev v).
      { apply (connected_mono (add_edge Id_eq_dec prev v g)); [exact A|].
        apply edge_connected. apply add_edge_edges. left. reflexivity. }
      intros x [E | Hx].
      * subst x. apply rt_refl.
      * eapply rt_trans; [exact Hpv | apply C; exact Hx].
    + intros a b H. apply D in H. destruct H as [H | [Ha Hb]].
      * apply add_edge_edges in H. destruct H as [E | H]; [|left; exact H].
        inversion E. subst. right. simpl. tauto.
      * right. simpl in *. tauto.
Qed.

Lemma add_path_spec (ids : list Id) (g : graph Id) :
  extends g (add_path Id_eq_dec ids g) /\
  (well_formed g -> well_formed (add_path Id_eq_dec ids g)) /\
  (forall x y, In x ids -> In y ids ->
               connected Id_eq_dec (add_path Id_eq_dec ids g) x y) /\
  (forall a b, In (a, b) (edges (add_path Id_eq_dec ids g)) ->
               In (a, b) (edges g) \/ (In a ids /\ In b ids)).
Proof.
  destruct ids as [|first rest]; simpl.
  - split; [apply extends_refl|]. split; [tauto|]. split; [intros x y []|].
    intros a b H. left. exact H.
  - destruct (add_path_from_spec rest first (add_node Id_eq_dec first g))
      as (A & B & C & D).
    split; [|split; [|split]].
    + eapply extends_trans; [apply add_node_extends | exact A].
    + intros Hwf. apply B. apply add_node_wf. exact Hwf.
    + intros x y Hx Hy. eapply rt_trans.
      * apply connected_sym. apply C. exact Hx.
      * apply C. exact Hy.
    + intros a b H. apply D in H. rewrite add_node_edges in H. exact H.
Qed.

(** The same for the loop that adds a path per list of two ids or more. *)
Lemma add_paths_spec (lists : list (list Id)) :
  forall g,
    let g' := fold_left
                (fun G ids => if 1 <? length ids
                              then add_path Id_eq_dec ids G else G)
                lists g in
    extends g g' /\
    (well_formed g -> well_formed g') /\
    (forall ids x y, In ids lists -> 1 < length ids -> In x ids -> In y ids ->
                     connected Id_eq_dec g' x y) /\
    (forall a b, In (a, b) (edges g') ->
                 In (a, b) (edges g) \/
                 exists ids, In ids lists /\ In a ids /\ In b ids).
Proof.
  induction lists as [|l lists IH]; intros g; simpl.
  - split; [apply extends_refl|]. split; [tauto|].
    split; [intros ids x y []|]. intros a b H. left. exact H.
  - set (g1 := if 1 <? length l then add_path Id_eq_dec l g else g).
    destruct (IH g1) as (A & B & C & D).
    assert (E1 : extends g g1 /\ (well_formed g -> well_formed g1) /\
                 (forall a b, In (a, b) (edges g1) ->
                              In (a, b) (edges g) \/ (In a l /\ In b l))).
    { unfold g1. destruct (1 <? length l).
      - destruct (add_path_spec l g) as (P & Q & _ & S). auto.
      - split; [apply extends_refl|]. split; [tauto|]. intros a b H. left. exact H. }
    destruct E1 as (E1 & E2 & E3).
    split; [|split; [|split]].
    + eapply extends_trans; eassumption.
    + intros Hwf. apply B. apply E2. exact Hwf.
    + intros ids x y [E | Hin] Hlen Hx Hy.
      * subst ids. apply (connected_mono g1); [exact A|].
        unfold g1. apply Nat.ltb_lt in Hlen. rewrite Hlen.
        apply add_path_spec; assumption.
      * eapply C; eassumption.
    + intros a b H. apply D in H. destruct H as [H | (ids & H1 & H2 & H3)].
      * apply E3 in H. destruct H as [H | [Ha Hb]]; [left; exact H|].
        right. exists l. tauto.
      * right. exists ids. tauto.
Qed.

Lemma unique_In (l : list Id) (x : Id) : In x (unique Id_eq_dec l) <-> In x l.
Proof.
  induction l as [|h t IH]; simpl; [tauto|].
  rewrite filter_In, IH. destruct (Id_eq_dec h x) as [E | N].
  - subst. split; [tauto|]. intros _. left. reflexivity.
  - split; [tauto|]. intros [E | H]; [congruence | tauto].
Qed.

Lemma add_nodes_from_spec (ns : list Id) :
  forall g,
    edges (add_nodes_from Id_eq_dec ns g) = edges g /\
    forall x, In x (nodes (add_nodes_from Id_eq_dec ns g)) <->
              In x ns \/ In x (nodes g).
Proof.
  unfold add_nodes_from.
  induction ns as [|n ns IH]; intros g; simpl.
  - split; [reflexivity | tauto].
  - destruct (IH (add_node Id_eq_dec n g)) as [A B]. split.
    + rewrite A. apply add_node_edges.
    + intros x. rewrite B, add_node_nodes. intuition congruence.
Qed.

End GraphBuilding.

(* ================================================================== *)
(** * The lookup tables of the reconciler *)

Section LookupFacts.
Variable U : ucd.
Variable Id : Type.
Variable Id_eq_dec : forall x y : Id, {x = y} + {x <> y}.

Lemma valid_users_In (users : list (user_row Id)) (uid : Id) (r : user_row Id) :
  In (uid, r) (valid_users users) <-> In r users /\ u_id r = Some uid.
Proof.
  induction users as [|h t IH]; simpl; [tauto|].
  destruct (u_id h) as [x|] eqn:Hh; simpl; rewrite IH.
  - split.
    + intros [E | [H1 H2]]; [inversion E; subst; auto | auto].
    + intros [[E | H1] H2]; [left; subst; congruence | auto].
  - split; [tauto|]. intros [[E | H1] H2]; [subst; congruence | auto].
Qed.

Lemma lookup_add_keys (lk : lookup_t Id) (key : category) (f : str) (uid : Id) :
  complete_keys lk -> complete_keys (lookup_add lk key f uid).
Proof.
  intros Hk key'. unfold lookup_add. destruct (Hk key) as [d Hd]. rewrite Hd.
  rewrite dict_get_set. destruct (category_eq_dec key' key); [eauto | apply Hk].
Qed.

Lemma lookup_add_listed (lk : lookup_t Id) (key : category) (f : str) (uid : Id) :
  complete_keys lk -> listed (lookup_add lk key f uid) key f uid.
Proof.
  intros Hk. unfold listed, lookup_add. destruct (Hk key) as [d Hd]. rewrite Hd.
  eexists. eexists. split; [|split].
  - rewrite dict_get_set. destruct (category_eq_dec key key); [reflexivity | congruence].
  - rewrite dict_get_set. destruct (str_eq_dec f f); [reflexivity | congruence].
  - apply in_or_app. right. left. reflexivity.
Qed.

Lemma lookup_add_keeps (lk : lookup_t Id) (key key' : category) (f f' : str)
  (uid uid' : Id) :
  listed lk key' f' uid' -> listed (lookup_add lk key f uid) key' f' uid'.
Proof.
  intros (d' & ids' & H1 & H2 & H3). unfold listed, lookup_add.
  destruct (dict_get category_eq_dec lk key) as [d|] eqn:Hd; [|eauto 6].
  rewrite dict_get_set. destruct (category_eq_dec key' key) as [E | N].
  - subst key'. rewrite H1 in Hd. inversion Hd. subst d'.
    destruct (str_eq_dec f' f) as [E | N].
    + subst f'. rewrite H2. eexists. eexists. split; [reflexivity|]. split.
      * rewrite dict_get_set. destruct (str_eq_dec f f); [reflexivity | congruence].
      * apply in_or_app. left. exact H3.
    + eexists. eexists. split; [reflexivity|]. split.
      * rewrite dict_get_set. destruct (str_eq_dec f' f); [congruence | exact H2].
      * exact H3.
  - eauto 6.
Qed.

Lemma lookup_add_all (P : category -> str -> Id -> Prop) (lk : lookup_t Id)
  (key : category) (f : str) (uid : Id) :
  all_listed P lk -> P key f uid -> all_listed P (lookup_add lk key f uid).
Proof.
  intros Hall HP key' d' f' ids' uid' H1 H2 H3. unfold lookup_add in H1.
  destruct (dict_get category_eq_dec lk key) as [d|] eqn:Hd;
    [|exact (Hall _ _ _ _ _ H1 H2 H3)].
  apply dict_set_In in H1. destruct H1 as [[E1 E2] | H1];
    [|exact (Hall _ _ _ _ _ H1 H2 H3)].
  subst key' d'. apply dict_get_In in Hd.
  apply dict_set_In in H2. destruct H2 as [[E1 E2] | H2];
    [|exact (Hall _ _ _ _ _ Hd H2 H3)].
  subst f' ids'. apply in_app_or in H3. destruct H3 as [H3 | [E | []]].
  - destruct (dict_get str_eq_dec d f) as [l|] eqn:Hl; [|destruct H3].
    apply dict_get_In in Hl. exact (Hall _ _ _ _ _ Hd Hl H3).
  - subst uid'. exact HP.
Qed.

Lemma add_prop_spec (users : list (user_row Id)) (uid : Id) (row : user_row Id)
  (lk : lookup_t Id) (key : category) :
  In row users -> u_id row = Some uid ->
  complete_keys lk -> all_listed (holds_fragment U users) lk ->
  complete_keys (add_prop U uid row lk key) /\
  all_listed (holds_fragment U users) (add_prop U uid row lk key) /\
  (forall key' f' uid', listed lk key' f' uid' ->
                        listed (add_prop U uid row lk key) key' f' uid') /\
  (forall f, fragment U key row = Some f -> 4 < length f ->
             listed (add_prop U uid row lk key) key f uid).
Proof.
  intros Hin Hid Hk Hall. unfold add_prop.
  destruct (fragment U key row) as [val|] eqn:Hf.
  - simpl. destruct (4 <? length val) eqn:Hlen.
    + apply Nat.ltb_lt in Hlen. split; [|split; [|split]].
      * apply lookup_add_keys. exact Hk.
      * apply lookup_add_all; [exact Hall|]. exists row. auto.
      * intros. apply lookup_add_keeps. assumption.
      * intros f E _. inversion E. subst f. apply lookup_add_listed. exact Hk.
    + apply Nat.ltb_ge in Hlen. split; [exact Hk|]. split; [exact Hall|].
      split; [auto|]. intros f E L. inversion E. subst f. lia.
  - split; [exact Hk|]. split; [exact Hall|]. split; [auto|]. discriminate.
Qed.

Lemma add_row_unfold (lk : lookup_t Id) (uid : Id) (row : user_row Id) :
  add_row U lk uid row =
  add_prop U uid row (add_prop U uid row (add_prop U uid row lk Email) Phone) Address.
Proof. reflexivity. Qed.

Lemma add_row_spec (users : list (user_row Id)) (uid : Id) (row : user_row Id)
  (lk : lookup_t Id) :
  In row users -> u_id row = Some uid ->
  complete_keys lk -> all_listed (holds_fragment U users) lk ->
  complete_keys (add_row U lk uid row) /\
  all_listed (holds_fragment U users) (add_row U lk uid row) /\
  (forall key' f' uid', listed lk key' f' uid' ->
                        listed (add_row U lk uid row) key' f' uid') /\
  (forall key f, fragment U key row = Some f -> 4 < length f ->
                 listed (add_row U lk uid row) key f uid).
Proof.
  intros Hin Hid Hk Hall. rewrite add_row_unfold.
  destruct (add_prop_spec users uid row lk Email Hin Hid Hk Hall)
    as (K1 & A1 & M1 & N1).
  destruct (add_prop_spec users uid row _ Phone Hin Hid K1 A1)
    as (K2 & A2 & M2 & N2).
  destruct (add_prop_spec users uid row _ Address Hin Hid K2 A2)
    as (K3 & A3 & M3 & N3).
  split; [exact K3|]. split; [exact A3|]. split; [auto|].
  intros [] f Hf Hl; auto.
Qed.

Lemma build_lookup_fold (users : list (user_row Id))
  (rows : list (Id * user_row Id)) :
  forall lk,
    (forall uid r, In (uid, r) rows -> In r users /\ u_id r = Some uid) ->
    complete_keys lk -> all_listed (holds_fragment U users) lk ->
    let lk' := fold_left (fun lk ur => add_row U lk (fst ur) (snd ur)) rows lk in
    all_listed (holds_fragment U users) lk' /\
    (forall key f uid, listed lk key f uid -> listed lk' key f uid) /\
    (forall uid r key f, In (uid, r) rows -> fragment U key r = Some f ->
                         4 < length f -> listed lk' key f uid).
Proof.
  induction rows as [|[uid r] rows IH]; intros lk Hrows Hk Hall; simpl.
  - split; [exact Hall|]. split; [auto|]. intros uid r key f [].
  - destruct (Hrows uid r (or_introl eq_refl)) as [Hin Hid].
    destruct (add_row_spec users uid r lk Hin Hid Hk Hall) as (K & A & M & N).
    destruct (IH (add_row U lk uid r)) as (A' & M' & N'); auto.
    { intros uid' r' H. apply Hrows. right. exact H. }
    split; [exact A'|]. split; [auto|].
    intros uid' r' key f [E | H] Hf Hl.
    + inversion E. subst uid' r'. apply M'. apply N; assumption.
    + eapply N'; eassumption.
Qed.

(** The tables list an id under a fragment exactly when a row of that id
    has that fragment, in that category, with more than four characters. *)
Lemma build_lookup_spec (users : list (user_row Id)) :
  all_listed (holds_fragment U users) (build_lookup U users) /\
  (forall key f uid, holds_fragment U users key f uid ->
                     listed (build_lookup U users) key f uid).
Proof.
  unfold build_lookup.
  destruct (build_lookup_fold users (valid_users users) (empty_lookup Id))
    as (A & _ & N).
  - intros uid r H. apply valid_users_In. exact H.
  - intros []; simpl; eauto.
  - intros key d f ids uid H. simpl in H.
    destruct H as [E | [E | [E | []]]]; inversion E; subst; intros [].
  - split; [exact A|]. intros key f uid (r & H1 & H2 & H3 & H4).
    apply (N uid r); auto. apply valid_users_In. auto.
Qed.

Lemma listed_id_list (lk : lookup_t Id) (key : category) (f : str) (x y : Id) :
  listed lk key f x -> listed lk key f y ->
  exists ids, In ids (id_lists lk) /\ In x ids /\ In y ids.
Proof.
  intros (d & ids & H1 & H2 & H3) (d' & ids' & H1' & H2' & H3').
  rewrite H1 in H1'. inversion H1'. subst d'.
  rewrite H2 in H2'. inversion H2'. subst ids'.
  exists ids. split; [|auto]. unfold id_lists. apply in_flat_map.
  exists d. split; [eapply dict_get_value; eassumption|].
  eapply dict_get_value; eassumption.
Qed.

Lemma id_list_listed (P : category -> str -> Id -> Prop) (lk : lookup_t Id)
  (ids : list Id) :
  all_listed P lk -> In ids (id_lists lk) ->
  exists key f, forall uid, In uid ids -> P key f uid.
Proof.
  intros Hall H. unfold id_lists in H. apply in_flat_map in H.
  destruct H as (d & Hd & Hids). unfold dict_values in *.
  apply in_map_iff in Hd. destruct Hd as ([key d'] & E & Hd). simpl in E. subst d'.
  apply in_map_iff in Hids. destruct Hids as ([f ids'] & E & Hids).
  simpl in E. subst ids'. exists key, f. intros uid Hu.
  exact (Hall key d f ids uid Hd Hids Hu).
Qed.

End LookupFacts.

(* ================================================================== *)
(** * The identity graph and the reconciled groups *)

Section ReconcilerFacts.
Variable U : ucd.
Variable Id : Type.
Variable Id_eq_dec : forall x y : Id, {x = y} + {x <> y}.

Lemma shares_fragment_sym (users : list (user_row Id)) (x y : Id) :
  shares_fragment U users x y -> shares_fragment U users y x.
Proof. intros (key & f & H1 & H2). exists key, f. auto. Qed.

Lemma short_list_same (ids : list Id) (x y : Id) :
  ~ 1 < length ids -> In x ids -> In y ids -> x = y.
Proof.
  destruct ids as [|a [|b t]]; simpl; intros Hl Hx Hy.
  - destruct Hx.
  - destruct Hx as [E | []], Hy as [E' | []]. congruence.
  - lia.
Qed.

Lemma build_graph_spec (users : list (user_row Id)) :
  well_formed (build_graph U Id_eq_dec users) /\
  (forall x, valid_id users x -> In x (nodes (build_graph U Id_eq_dec users))) /\
  (forall x y, shares_fragment U users x y ->
               connected Id_eq_dec (build_graph U Id_eq_dec users) x y) /\
  (forall a b, In (a, b) (edges (build_graph U Id_eq_dec users)) ->
               shares_fragment U users a b).
Proof.
  unfold build_graph.
  set (G0 := add_nodes_from Id_eq_dec
               (unique Id_eq_dec (List.map fst (valid_users users)))
               (empty_graph Id)).
  destruct (add_nodes_from_spec Id Id_eq_dec
              (unique Id_eq_dec (List.map fst (valid_users users)))
              (empty_graph Id)) as [E0 N0].
  fold G0 in E0, N0. simpl in E0.
  destruct (add_paths_spec Id Id_eq_dec (id_lists (build_lookup U users)) G0)
    as (A & B & C & D).
  destruct (build_lookup_spec U Id users) as [L1 L2].
  split; [|split; [|split]].
  - apply B. intros a b H. rewrite E0 in H. destruct H.
  - intros x (r & Hr & Hx). apply A. apply N0. left. apply unique_In.
    change x with (fst (x, r)). apply in_map. apply valid_users_In. auto.
  - intros x y (key & f & Hx & Hy).
    destruct (listed_id_list Id (build_lookup U users) key f x y
                (L2 _ _ _ Hx) (L2 _ _ _ Hy)) as (ids & H1 & H2 & H3).
    destruct (Nat.ltb_spec 1 (length ids)) as [Hl | Hl].
    + exact (C ids x y H1 Hl H2 H3).
    + assert (E : x = y) by (apply (short_list_same ids); [lia | auto | auto]).
      subst y. apply rt_refl.
  - intros a b H. apply D in H. destruct H as [H | (ids & H1 & H2 & H3)].
    + rewrite E0 in H. destruct H.
    + destruct (id_list_listed Id (holds_fragment U users) _ ids L1 H1)
        as (key & f & Hall).
      exists key, f. auto.
Qed.

(** In the identity graph a walk joins two ids exactly when a chain of
    shared usable fragments does. *)
Lemma connected_iff_linked (users : list (user_row Id)) (x y : Id) :
  connected Id_eq_dec (build_graph U Id_eq_dec users) x y <-> linked U users x y.
Proof.
  destruct (build_graph_spec users) as (_ & _ & C & D). split.
  - unfold connected, linked.
    induction 1 as [a b H | a | a b c _ IH1 _ IH2].
    + apply rt_step. apply adj_spec in H. destruct H as [H | H].
      * apply D. exact H.
      * apply shares_fragment_sym. apply D. exact H.
    + apply rt_refl.
    + eapply rt_trans; eassumption.
  - unfold linked.
    induction 1 as [a b H | a | a b c _ IH1 _ IH2].
    + apply C. exact H.
    + apply rt_refl.
    + eapply rt_trans; eassumption.
Qed.

Lemma NoDup_concat_each (cs : list (list Id)) (c : list Id) :
  NoDup (concat cs) -> In c cs -> NoDup c.
Proof.
  induction cs as [|h cs IH]; simpl; intros Hnd Hc; [destruct Hc|].
  destruct Hc as [E | H].
  - subst h. apply NoDup_app_remove_r in Hnd. exact Hnd.
  - apply IH; [|exact H]. apply NoDup_app_remove_l in Hnd. exact Hnd.
Qed.

Section Groups.
Variable set_iter : list Id -> list Id.
Hypothesis set_iter_perm : forall l, NoDup l -> Permutation (set_iter l) l.

Lemma id_map_pairs_In (comps : list (list Id)) (x r : Id) :
  In (x, r) (id_map_pairs set_iter comps) <->
  exists c, In c comps /\ hd_error (set_iter c) = Some r /\ In x (set_iter c).
Proof.
  unfold id_map_pairs. rewrite in_flat_map. split.
  - intros (c & Hc & H). exists c. split; [exact Hc|].
    destruct (set_iter c) as [|first rest] eqn:E; [destruct H|].
    apply in_map_iff in H. destruct H as (u & Eu & Hu). inversion Eu. subst.
    split; [reflexivity | exact Hu].
  - intros (c & Hc & Hr & Hx). exists c. split; [exact Hc|].
    destruct (set_iter c) as [|first rest] eqn:E; [discriminate|].
    simpl in Hr. inversion Hr. subst first.
    apply in_map_iff. exists x. split; [reflexivity | exact Hx].
Qed.

Lemma group_pairs_ok (comps : list (list Id)) :
  (forall c, In c comps -> set_iter c <> []) ->
  exists gp,
    group_pairs set_iter comps = Ok gp /\
    forall r l, In (r, l) gp <->
                exists c, In c comps /\ hd_error (set_iter c) = Some r /\
                          l = set_iter c.
Proof.
  induction comps as [|c comps IH]; intros Hne.
  - exists []. split; [reflexivity|]. intros r l. simpl. split; [tauto|].
    intros (c & [] & _).
  - destruct IH as (gp & E & Hgp).
    { intros c' H. apply Hne. right. exact H. }
    unfold group_pairs in *. simpl.
    destruct (set_iter c) as [|first rest] eqn:Ec.
    + exfalso. apply (Hne c); [left; reflexivity | exact Ec].
    + simpl. rewrite E. simpl. eexists. split; [reflexivity|].
      intros r l. simpl. rewrite Hgp. split.
      * intros [H | (c' & H1 & H2 & H3)].
        -- inversion H. subst. exists c. rewrite Ec. auto.
        -- exists c'. auto.
      * intros (c' & [H1 | H1] & H2 & H3).
        -- subst c'. rewrite Ec in *. simpl in H2. inversion H2. subst. auto.
        -- right. exists c'. auto.
Qed.

(** What [reconciliate_users] returns, component by component: the number
    of components; every member of a component mapped to the first element
    of [list(c)]; that element mapped to [list(c)]. *)
Lemma reconciliate_users_spec (users : list (user_row Id)) :
  exists id_map groups,
    reconciliate_users U Id_eq_dec set_iter users =
    Ok (length (connected_components Id_eq_dec (build_graph U Id_eq_dec users)),
        id_map, groups) /\
    forall c x,
      In c (connected_components Id_eq_dec (build_graph U Id_eq_dec users)) ->
      In x c ->
      exists r, hd_error (set_iter c) = Some r /\ In r c /\
                dict_get Id_eq_dec id_map x = Some r /\
                dict_get Id_eq_dec groups r = Some (set_iter c).
Proof.
  unfold reconciliate_users.
  destruct (build_graph_spec users) as (Hwf & _).
  destruct (connected_components_spec Id Id_eq_dec _ Hwf) as (Hnd & Hcov & Hcomp).
  set (comps := connected_components Id_eq_dec (build_graph U Id_eq_dec users)) in *.
  assert (Hperm : forall c, In c comps -> Permutation (set_iter c) c).
  { intros c Hc. apply set_iter_perm. exact (NoDup_concat_each comps c Hnd Hc). }
  assert (Hne : forall c, In c comps -> set_iter c <> []).
  { intros c Hc E. pose proof (Hperm c Hc) as P. rewrite E in P.
    apply Permutation_nil in P. destruct (Hcomp c Hc) as [N _]. contradiction. }
  destruct (group_pairs_ok comps Hne) as (gp & Egp & Hgp).
  rewrite Egp. simpl. eexists. eexists. split; [reflexivity|].
  intros c x Hc Hx.
  destruct (set_iter c) as [|r rest] eqn:Ec; [exfalso; exact (Hne c Hc Ec)|].
  assert (Hr : In r c).
  { apply (Permutation_in r (Hperm c Hc)). rewrite Ec. left. reflexivity. }
  exists r. split; [reflexivity|]. split; [exact Hr|]. split.
  - apply dict_of_pairs_get.
    + intros v' H. apply id_map_pairs_In in H.
      destruct H as (c' & Hc' & Hh & Hx').
      apply (Permutation_in x (Hperm c' Hc')) in Hx'.
      assert (E : c = c') by exact (concat_component_unique Id comps c c' x Hnd Hc Hc' Hx Hx').
      subst c'. rewrite Ec in Hh. simpl in Hh. congruence.
    + apply id_map_pairs_In. exists c. split; [exact Hc|]. rewrite Ec.
      split; [reflexivity|]. rewrite <- Ec.
      apply (Permutation_in x (Permutation_sym (Hperm c Hc))). exact Hx.
  - apply dict_of_pairs_get.
    + intros l H. apply Hgp in H. destruct H as (c' & Hc' & Hh & El).
      assert (Hr' : In r c').
      { apply (Permutation_in r (Hperm c' Hc')).
        destruct (set_iter c'); simpl in Hh; [discriminate|].
        inversion Hh. left. reflexivity. }
      assert (E : c = c') by exact (concat_component_unique Id comps c c' r Hnd Hc Hc' Hr Hr').
      subst c'. rewrite El, Ec. reflexivity.
    + apply Hgp. exists c. rewrite Ec. auto.
Qed.

End Groups.

End ReconcilerFacts.

(* ================================================================== *)
(** * Claims on the reconciler *)

Section ReconcilerClaims.
Variable U : ucd.
Variable Id : Type.
Variable Id_eq_dec : forall x y : Id, {x = y} + {x <> y}.

Lemma valid_id_component (users : list (user_row Id)) (x : Id) :
  valid_id users x ->
  exists c, In c (connected_components Id_eq_dec (build_graph U Id_eq_dec users))
            /\ In x c.
Proof.
  intros Hx. destruct (build_graph_spec U Id Id_eq_dec users) as (Hwf & Hn & _).
  destruct (connected_components_spec Id Id_eq_dec _ Hwf) as (_ & Hcov & _).
  apply Hn in Hx. apply Hcov in Hx. apply in_concat in Hx.
  destruct Hx as (c & Hc & Hx). exists c. auto.
Qed.

Lemma same_component_iff_linked (users : list (user_row Id)) (c : list Id)
  (x y : Id) :
  In c (connected_components Id_eq_dec (build_graph U Id_eq_dec users)) ->
  In x c -> (In y c <-> linked U users x y).
Proof.
  intros Hc Hx. destruct (build_graph_spec U Id Id_eq_dec users) as (Hwf & _).
  destruct (connected_components_spec Id Id_eq_dec _ Hwf) as (_ & _ & Hcomp).
  destruct (Hcomp c Hc) as [_ H]. rewrite (H x y Hx).
  apply connected_iff_linked.
Qed.

Lemma linked_alone (users : list (user_row Id)) (x y : Id) :
  (forall z, shares_fragment U users x z -> z = x) ->
  linked U users x y -> y = x.
Proof.
  intros Hx H. apply clos_rt_rt1n in H.
  induction H as [|x y z Hxy _ IH]; [reflexivity|].
  apply Hx in Hxy. subst y. apply IH. exact Hx.
Qed.

Section OneRun.
Variable set_iter : list Id -> list Id.
Hypothesis set_iter_perm : forall l, NoDup l -> Permutation (set_iter l) l.

(** The facts behind C2 and C3: the map is defined on every id of the
    table, sends it to an id linked to it that is mapped to itself, and
    gives two ids the same image exactly when they are linked. *)
Lemma id_map_facts (users : list (user_row Id)) :
  exists n id_map groups,
    reconciliate_users U Id_eq_dec set_iter users = Ok (n, id_map, groups) /\
    (forall x, valid_id users x ->
               exists c, dict_get Id_eq_dec id_map x = Some c /\
                         dict_get Id_eq_dec id_map c = Some c /\
                         linked U users x c) /\
    (forall x y, valid_id users x -> linked U users x y ->
                 dict_get Id_eq_dec id_map y = dict_get Id_eq_dec id_map x) /\
    (forall x y c, valid_id users x -> valid_id users y ->
                   dict_get Id_eq_dec id_map x = Some c ->
                   dict_get Id_eq_dec id_map y = Some c ->
                   linked U users x y).
Proof.
  destruct (reconciliate_users_spec U Id Id_eq_dec set_iter set_iter_perm users)
    as (id_map & groups & E & H).
  eexists. exists id_map, groups. split; [exact E|].
  split; [|split].
  - intros x Hx. destruct (valid_id_component users x Hx) as (c & Hc & Hxc).
    destruct (H c x Hc Hxc) as (r & Hh & Hr & Hm & _).
    destruct (H c r Hc Hr) as (r' & Hh' & _ & Hm' & _).
    assert (r' = r) by congruence. subst r'.
    exists r. split; [exact Hm|]. split; [exact Hm'|].
    apply (same_component_iff_linked users c x r Hc Hxc). exact Hr.
  - intros x y Hx Hl. destruct (valid_id_component users x Hx) as (c & Hc & Hxc).
    apply (same_component_iff_linked users c x y Hc Hxc) in Hl.
    destruct (H c x Hc Hxc) as (r & Hh & _ & Hm & _).
    destruct (H c y Hc Hl) as (r' & Hh' & _ & Hm' & _).
    congruence.
  - intros x y c0 Hx Hy Hmx Hmy.
    destruct (valid_id_component users x Hx) as (cx & Hcx & Hxc).
    destruct (valid_id_component users y Hy) as (cy & Hcy & Hyc).
    destruct (H cx x Hcx Hxc) as (r & _ & Hr & Hm & _).
    destruct (H cy y Hcy Hyc) as (r' & _ & Hr' & Hm' & _).
    assert (r = c0) by congruence. assert (r' = c0) by congruence. subst r r'.
    destruct (build_graph_spec U Id Id_eq_dec users) as (Hwf & _).
    destruct (connected_components_spec Id Id_eq_dec _ Hwf) as (Hnd & _).
    assert (cx = cy)
      by exact (concat_component_unique Id _ cx cy c0 Hnd Hcx Hcy Hr Hr').
    subst cy. apply (same_component_iff_linked users cx x y Hcx Hxc). exact Hyc.
Qed.

(** C2: the map gives every non-null id of the table exactly one canonical
    id, the id itself when it shares no usable fragment with another id,
    and mapping a canonical id again leaves it unchanged. *)
Theorem id_map_total_and_idempotent (users : list (user_row Id)) :
  exists n id_map groups,
    reconciliate_users U Id_eq_dec set_iter users = Ok (n, id_map, groups) /\
    forall x, valid_id users x ->
              exists c, dict_get Id_eq_dec id_map x = Some c /\
                        dict_get Id_eq_dec id_map c = Some c /\
                        ((forall y, shares_fragment U users x y -> y = x) ->
                         c = x).
Proof.
  destruct (id_map_facts users) as (n & id_map & groups & E & F1 & _).
  exists n, id_map, groups. split; [exact E|].
  intros x Hx. destruct (F1 x Hx) as (c & H1 & H2 & H3).
  exists c. split; [exact H1|]. split; [exact H2|].
  intros Halone. exact (linked_alone users x c Halone H3).
Qed.

(** C3: two users with the same normalized email of more than four
    characters get the same canonical id; two users get the same canonical
    id only through a chain of shared fragments of more than four
    characters, so that a table whose users share no such fragment has no
    merge at all. *)
Theorem long_email_merges_short_fragment_does_not (users : list (user_row Id)) :
  exists n id_map groups,
    reconciliate_users U Id_eq_dec set_iter users = Ok (n, id_map, groups) /\
    (forall r1 r2 x1 x2,
        In r1 users -> In r2 users ->
        u_id r1 = Some x1 -> u_id r2 = Some x2 ->
        isna (u_email r1) = false -> isna (u_email r2) = false ->
        strip U (lower U (text (u_email r1))) =
        strip U (lower U (text (u_email r2))) ->
        4 < length (strip U (lower U (text (u_email r1)))) ->
        exists c, dict_get Id_eq_dec id_map x1 = Some c /\
                  dict_get Id_eq_dec id_map x2 = Some c) /\
    (forall x y c,
        valid_id users x -> valid_id users y ->
        dict_get Id_eq_dec id_map x = Some c ->
        dict_get Id_eq_dec id_map y = Some c ->
        linked U users x y) /\
    ((forall a b, shares_fragment U users a b -> a = b) ->
     forall x, valid_id users x -> dict_get Id_eq_dec id_map x = Some x).
Proof.
  destruct (id_map_facts users) as (n & id_map & groups & E & F1 & F2 & F3).
  exists n, id_map, groups. split; [exact E|]. split; [|split].
  - intros r1 r2 x1 x2 In1 In2 Id1 Id2 Na1 Na2 Eq Len.
    assert (Hx1 : valid_id users x1) by (exists r1; auto).
    destruct (F1 x1 Hx1) as (c & Hc & _). exists c. split; [exact Hc|].
    rewrite <- Hc. apply F2; [exact Hx1|]. apply rt_step.
    exists Email, (strip U (lower U (text (u_email r1)))). split.
    + exists r1. simpl. rewrite Na1. auto.
    + exists r2. simpl. rewrite Na2, Eq. rewrite <- Eq. auto.
  - exact F3.
  - intros Hno x Hx. destruct (F1 x Hx) as (c & Hc & _ & Hl).
    assert (c = x); [|congruence].
    apply (linked_alone users x c); [|exact Hl].
    intros z Hz. symmetry. apply Hno. exact Hz.
Qed.

End OneRun.

Section TwoRuns.
Variables set_iter1 set_iter2 : list Id -> list Id.
Hypothesis set_iter1_perm : forall l, NoDup l -> Permutation (set_iter1 l) l.
Hypothesis set_iter2_perm : forall l, NoDup l -> Permutation (set_iter2 l) l.

Lemma id_map_pairs_ext (comps : list (list Id)) :
  (forall c, In c comps -> set_iter1 c = set_iter2 c) ->
  id_map_pairs set_iter1 comps = id_map_pairs set_iter2 comps.
Proof.
  intros H. unfold id_map_pairs. induction comps as [|c comps IH]; simpl.
  - reflexivity.
  - rewrite (H c (or_introl eq_refl)). f_equal. apply IH.
    intros c' Hc'. apply H. right. exact Hc'.
Qed.

Lemma group_pairs_ext (comps : list (list Id)) :
  (forall c, In c comps -> set_iter1 c = set_iter2 c) ->
  group_pairs set_iter1 comps = group_pairs set_iter2 comps.
Proof.
  intros H. unfold group_pairs. induction comps as [|c comps IH]; simpl.
  - reflexivity.
  - rewrite (H c (or_introl eq_refl)). rewrite IH; [reflexivity|].
    intros c' Hc'. apply H. right. exact Hc'.
Qed.

(** C9, amended: two runs on the same table, each with its own iteration
    order of sets, find the same number of users and, for every id, the
    same aliases up to their order; they return the same maps when they
    iterate over each component in the same order. *)
Theorem reconciliation_up_to_set_order (users : list (user_row Id)) :
  exists n m1 g1 m2 g2,
    reconciliate_users U Id_eq_dec set_iter1 users = Ok (n, m1, g1) /\
    reconciliate_users U Id_eq_dec set_iter2 users = Ok (n, m2, g2) /\
    (forall x, valid_id users x ->
               exists c1 c2 l1 l2,
                 dict_get Id_eq_dec m1 x = Some c1 /\
                 dict_get Id_eq_dec m2 x = Some c2 /\
                 dict_get Id_eq_dec g1 c1 = Some l1 /\
                 dict_get Id_eq_dec g2 c2 = Some l2 /\
                 Permutation l1 l2) /\
    ((forall c, In c (connected_components Id_eq_dec
                        (build_graph U Id_eq_dec users)) ->
                set_iter1 c = set_iter2 c) ->
     m1 = m2 /\ g1 = g2).
Proof.
  destruct (reconciliate_users_spec U Id Id_eq_dec set_iter1 set_iter1_perm users)
    as (m1 & g1 & E1 & H1).
  destruct (reconciliate_users_spec U Id Id_eq_dec set_iter2 set_iter2_perm users)
    as (m2 & g2 & E2 & H2).
  eexists. exists m1, g1, m2, g2. split; [exact E1|]. split; [exact E2|]. split.
  - intros x Hx. destruct (valid_id_component users x Hx) as (c & Hc & Hxc).
    destruct (H1 c x Hc Hxc) as (r1 & _ & _ & A1 & B1).
    destruct (H2 c x Hc Hxc) as (r2 & _ & _ & A2 & B2).
    exists r1, r2, (set_iter1 c), (set_iter2 c).
    repeat (split; [assumption|]).
    destruct (build_graph_spec U Id Id_eq_dec users) as (Hwf & _).
    destruct (connected_components_spec Id Id_eq_dec _ Hwf) as (Hnd & _).
    pose proof (NoDup_concat_each Id _ c Hnd Hc) as Hc'.
    eapply Permutation_trans; [apply set_iter1_perm; exact Hc'|].
    apply Permutation_sym. apply set_iter2_perm. exact Hc'.
  - intros Hsame. unfold reconciliate_users in E1, E2.
    rewrite (id_map_pairs_ext _ Hsame), (group_pairs_ext _ Hsame) in E1.
    rewrite E1 in E2. inversion E2. auto.
Qed.

End TwoRuns.

End ReconcilerClaims.

Lemma id_map_total_and_idempotent_witness :
  (forall l : list str, NoDup l -> Permutation (Demo.insertion_order l) l) /\
  exists n id_map groups,
    Demo.reconcile Demo.insertion_order Demo.users3 = Ok (n, id_map, groups) /\
    forall x, valid_id Demo.users3 x ->
              exists c, dict_get str_eq_dec id_map x = Some c /\
                        dict_get str_eq_dec id_map c = Some c /\
                        ((forall y, shares_fragment ascii_ucd Demo.users3 x y ->
                                    y = x) -> c = x).
Proof.
  split.
  - intros l _. apply Permutation_refl.
  - apply (id_map_total_and_idempotent ascii_ucd str str_eq_dec
             Demo.insertion_order (fun l _ => Permutation_refl l) Demo.users3).
Defined.

Lemma long_email_merges_witness :
  (forall l : list str, NoDup l -> Permutation (Demo.insertion_order l) l) /\
  exists n id_map groups,
    Demo.reconcile Demo.insertion_order Demo.users3 = Ok (n, id_map, groups) /\
    dict_get str_eq_dec id_map (lit "a") = dict_get str_eq_dec id_map (lit "b").
Proof.
  split.
  - intros l _. apply Permutation_refl.
  - destruct (long_email_merges_short_fragment_does_not ascii_ucd str str_eq_dec
                Demo.insertion_order (fun l _ => Permutation_refl l) Demo.users3)
      as (n & id_map & groups & E & H & _).
    exists n, id_map, groups. split; [exact E|].
    destruct (H (Demo.user "a" (str_obj (lit "Ann@Mail.org ")))
                (Demo.user "b" (str_obj (lit "ann@mail.org")))
                (lit "a") (lit "b")) as (c & Ha & Hb);
      try reflexivity; simpl; try tauto; try lia.
    congruence.
Defined.

Example reconcile_users3 :
  Demo.reconcile Demo.insertion_order Demo.users3 =
  Ok (2,
      [(lit "a", lit "a"); (lit "b", lit "a"); (lit "c", lit "c")],
      [(lit "a", [lit "a"; lit "b"]); (lit "c", [lit "c"])]).
Proof. reflexivity. Qed.

Lemma reconciliation_up_to_set_order_witness :
  (forall l : list str, NoDup l -> Permutation (Demo.insertion_order l) l) /\
  (forall l : list str, NoDup l -> Permutation (Demo.reverse_order l) l) /\
  exists n m1 g1 m2 g2,
    Demo.reconcile Demo.insertion_order Demo.users3 = Ok (n, m1, g1) /\
    Demo.reconcile Demo.reverse_order Demo.users3 = Ok (n, m2, g2).
Proof.
  assert (P1 : forall l : list str, NoDup l -> Permutation (Demo.insertion_order l) l)
    by (intros l _; apply Permutation_refl).
  assert (P2 : forall l : list str, NoDup l -> Permutation (Demo.reverse_order l) l)
    by (intros l _; apply Permutation_sym, Permutation_rev).
  split; [exact P1|]. split; [exact P2|].
  destruct (reconciliation_up_to_set_order ascii_ucd str str_eq_dec
              Demo.insertion_order Demo.reverse_order P1 P2 Demo.users3)
    as (n & m1 & g1 & m2 & g2 & E1 & E2 & _).
  exists n, m1, g1, m2, g2. split; assumption.
Defined.

(** C9 as stated fails: with the same table, a run in which the set of a
    component is iterated in one order and a run in which it is iterated
    in the reverse order choose different canonical ids and list the
    aliases in different orders. *)
Lemma canonical_id_depends_on_set_order :
  (forall l : list str, Permutation (Demo.insertion_order l) l) /\
  (forall l : list str, Permutation (Demo.reverse_order l) l) /\
  Demo.reconcile Demo.insertion_order Demo.users3 =
  Ok (2,
      [(lit "a", lit "a"); (lit "b", lit "a"); (lit "c", lit "c")],
      [(lit "a", [lit "a"; lit "b"]); (lit "c", [lit "c"])]) /\
  Demo.reconcile Demo.reverse_order Demo.users3 =
  Ok (2,
      [(lit "b", lit "b"); (lit "a", lit "b"); (lit "c", lit "c")],
      [(lit "b", [lit "b"; lit "a"]); (lit "c", [lit "c"])]) /\
  Demo.reconcile Demo.insertion_order Demo.users3 <>
  Demo.reconcile Demo.reverse_order Demo.users3.
Proof.
  split; [intros l; apply Permutation_refl|].
  split; [intros l; apply Permutation_sym, Permutation_rev|].
  split; [reflexivity|]. split; [reflexivity|].
  vm_compute. discriminate.
Qed.

(* ================================================================== *)
(** * Claims on the pipeline and the report *)

Lemma str_eqb_eq (a b : str) : str_eqb a b = true <-> a = b.
Proof.
  revert b. induction a as [|x a IH]; intros [|y b]; simpl;
    try (split; [discriminate | discriminate]); try tauto.
  rewrite andb_true_iff, N.eqb_eq, IH. split.
  - intros [E1 E2]. congruence.
  - intros E. inversion E. auto.
Qed.

Lemma dict_get_key (V : Type) (d : dict str V) (k : str) :
  In k (List.map fst d) -> exists v, dict_get str_eq_dec d k = Some v.
Proof.
  induction d as [|[k0 v0] t IH]; simpl; [tauto|].
  destruct (str_eq_dec k k0) as [E | N]; [eauto|].
  intros [E | H]; [congruence | auto].
Qed.

Section PipelineClaims.
Variable U : ucd.
Variable Id : Type.
Variable Id_eq_dec : forall x y : Id, {x = y} + {x <> y}.
Variable Id_leb : Id -> Id -> bool.
Variable Id_str : Id -> str.
Variable Id_held_str : Id -> str.
Variable set_iter : list Id -> list Id.
Variable to_day : list str -> nat -> option str.
Variable series_sum : list float -> float.
Variable sort_values_desc : list (str * float) -> list (str * float).
Variable savefig : list (str * float) -> str -> str.

Lemma next_col_In (p : str -> bool) (cols : list str) (c : str) :
  next_col p cols = Ok c -> In c cols /\ p c = true.
Proof.
  unfold next_col. destruct (find p cols) as [c'|] eqn:E; [|discriminate].
  intros H. inversion H. subst c'. apply find_some in E. exact E.
Qed.

Lemma next_col_none (p : str -> bool) (cols : list str) :
  (forall c, In c cols -> p c = false) -> next_col p cols = Raise StopIteration.
Proof.
  intros H. unfold next_col. destruct (find p cols) as [c|] eqn:E; [|reflexivity].
  apply find_some in E. destruct E as [E1 E2]. rewrite (H c E1) in E2. discriminate.
Qed.

Lemma next_col_column (A : Type) (p : str -> bool) (df : frame A) (c : str) :
  next_col p (columns df) = Ok c -> exists data, column df c = Ok data.
Proof.
  intros H. apply next_col_In in H. destruct H as [H _].
  destruct (dict_get_key (list A) df c H) as [v Hv]. exists v.
  unfold column. rewrite Hv. reflexivity.
Qed.

Lemma next_id_label_In (cols : list label) (c : str) :
  next_id_label cols = Ok c ->
  In (LStr c) cols /\ contains (lit "id") c = true.
Proof.
  induction cols as [|[c0|] rest IH]; simpl; try discriminate.
  destruct (contains (lit "id") c0) eqn:E.
  - intros H. inversion H. subst c0. auto.
  - intros H. destruct (IH H). auto.
Qed.

Lemma next_id_label_error (cols : list label) (e : exn) :
  next_id_label cols = Raise e ->
  e = StopIteration \/ (e = TypeError /\ In LOther cols).
Proof.
  induction cols as [|[c0|] rest IH]; simpl.
  - intros H. inversion H. auto.
  - destruct (contains (lit "id") c0); [discriminate|].
    intros H. destruct (IH H) as [E | [E Hin]]; auto.
  - intros H. inversion H. auto.
Qed.

Lemma text_columns_In (books : catalog) (c : str) :
  In (LStr c) (labels books) -> In c (columns (text_columns books)).
Proof.
  unfold labels, columns, text_columns.
  induction books as [|[[c0|] d] t IH]; simpl; [tauto| |].
  - intros [E | H]; [inversion E; auto | auto].
  - intros [E | H]; [discriminate | auto].
Qed.

Lemma resolve_columns_book_id (order_cols : list str) (book_cols : list label)
  (cols : cols_t) :
  resolve_columns U order_cols book_cols = Ok cols ->
  In (LStr (c_book_id cols)) book_cols.
Proof.
  unfold resolve_columns. intros H.
  repeat match type of H with
         | bind ?r _ = Ok _ => destruct r eqn:?; simpl in H; [|discriminate]
         end.
  inversion H. subst cols. simpl.
  match goal with
  | E : next_id_label book_cols = Ok _ |- _ => apply next_id_label_In in E; tauto
  end.
Qed.

Lemma idxmax_empty (K : Type) : idxmax (K := K) [] = Raise ValueError.
Proof. reflexivity. Qed.

Lemma generate_plot_empty (title : str) : generate_plot savefig [] title = [].
Proof. reflexivity. Qed.

(** Without an author column the count is 0 and the author is Unknown. *)
Lemma author_stats_no_author (order_cols book_cols : list str) (qty_col : str)
  (authors : result (list cell)) (merged : list (ocell Id * option cell)) :
  existsb (str_eqb (lit "author")) book_cols = false ->
  author_stats U series_sum order_cols book_cols qty_col authors merged
  = Ok (0, lit "Unknown").
Proof. intros H. unfold author_stats. rewrite H. reflexivity. Qed.

Lemma top_buyer_no_orders (user_map : dict Id Id) :
  top_buyer Id_eq_dec Id_leb series_sum user_map [] = Raise ValueError.
Proof. reflexivity. Qed.

Lemma author_stats_no_rows (order_cols : list str) (books : frame cell)
  (qty_col : str) :
  exists stats,
    author_stats (Id := Id) U series_sum order_cols (columns books) qty_col
      (column books (lit "author")) [] = Ok stats.
Proof.
  unfold author_stats.
  destruct (existsb (str_eqb (lit "author")) (columns books)) eqn:E.
  - apply existsb_exists in E. destruct E as (c & Hc & Ec).
    apply str_eqb_eq in Ec. subst c.
    destruct (dict_get_key _ books _ Hc) as [v Hv].
    unfold column. rewrite Hv. simpl. eauto.
  - eauto.
Qed.

Hypothesis set_iter_perm : forall l, NoDup l -> Permutation (set_iter l) l.

(** C8: evaluation of the code where the claim fails.  When every order
    row is dropped for its timestamp, the pipeline does not return a
    result: the best buyer is looked for among no rows at all and
    [idxmax] raises [ValueError]. *)
Theorem no_dated_order_raises (folder_name : str)
  (files : folder_files Id) (users : list (user_row Id))
  (orders : frame (ocell Id)) (books0 : catalog) (cols : cols_t) :
  users_csv files = Ok users ->
  orders_parquet files = Ok orders ->
  books_yaml files = Ok books0 ->
  resolve_columns U (columns orders) (labels (strip_colons books0))
  = Ok cols ->
  dated_orders U to_day orders cols = Ok [] ->
  process_dataset U Id_eq_dec Id_leb Id_str Id_held_str set_iter to_day series_sum
    sort_values_desc savefig folder_name files = Raise ValueError.
Proof.
  intros Hu Ho Hb Hc Hd. unfold process_dataset.
  rewrite Hu, Ho, Hb. simpl. rewrite Hc. simpl. rewrite Hd. simpl.
  destruct (reconciliate_users_spec U Id Id_eq_dec set_iter set_iter_perm users)
    as (id_map & groups & E & _).
  rewrite E. simpl.
  pose proof (text_columns_In _ _ (resolve_columns_book_id _ _ _ Hc)) as Hin.
  set (books := text_columns (strip_colons books0)) in *.
  destruct (dict_get_key _ books _ Hin) as [ids Hids].
  unfold column at 1. rewrite Hids. simpl.
  destruct (author_stats_no_rows (columns orders) books (c_qty cols))
    as [stats Hs].
  rewrite Hs. reflexivity.
Qed.

Lemma main_loop_raises (disk : str -> folder_files Id) (folders : list str) :
  forall results,
    (exists f e, In f folders /\
                 process_dataset U Id_eq_dec Id_leb Id_str Id_held_str set_iter to_day
                   series_sum sort_values_desc savefig f (disk f) = Raise e) ->
    exists e, main_loop U Id_eq_dec Id_leb Id_str Id_held_str set_iter to_day series_sum
                sort_values_desc savefig disk folders results = Raise e.
Proof.
  induction folders as [|f0 folders IH]; intros results (f & e & Hin & Hf).
  - destruct Hin.
  - simpl.
    destruct (process_dataset U Id_eq_dec Id_leb Id_str Id_held_str set_iter to_day
                series_sum sort_values_desc savefig f0 (disk f0)) as [data|e0] eqn:E0.
    + simpl. apply IH. destruct Hin as [E | Hin].
      * subst f0. congruence.
      * exists f, e. auto.
    + simpl. eauto.
Qed.

(** C1: evaluation of the code where the claim fails.  A folder whose
    load raises stops the whole run: [main] raises and no report is
    written, whatever the other folders hold. *)
Theorem load_error_stops_the_run (disk : str -> folder_files Id)
  (folder_name : str) (e : exn) :
  In folder_name DATA_DIRS ->
  users_csv (disk folder_name) = Raise e \/
  orders_parquet (disk folder_name) = Raise e \/
  books_yaml (disk folder_name) = Raise e ->
  exists e',
    main U Id_eq_dec Id_leb Id_str Id_held_str set_iter to_day series_sum
      sort_values_desc savefig disk = Raise e'.
Proof.
  intros Hin Hload. unfold main. apply main_loop_raises.
  exists folder_name.
  unfold process_dataset.
  destruct (users_csv (disk folder_name)) as [users|e1] eqn:E1;
    [|exists e1; auto].
  destruct (orders_parquet (disk folder_name)) as [orders|e2] eqn:E2;
    [|exists e2; auto].
  destruct (books_yaml (disk folder_name)) as [books|e3] eqn:E3;
    [|exists e3; auto].
  destruct Hload as [H | [H | H]]; discriminate.
Qed.

(** The fields of a result, from the stages of the pipeline that make
    them: the top days from the dated orders and their paid amounts, the
    user count from the reconciler, the alias string from its groups and
    the best buyer. *)
Lemma process_dataset_fields (folder_name : str) (files : folder_files Id)
  (r : FolderResult) (users : list (user_row Id))
  (orders : frame (ocell Id)) (books0 : catalog) (cols : cols_t)
  (orders1 : list (str * order Id)) (prices : list float) (n : nat)
  (user_map : dict Id Id) (user_groups : dict Id (list Id))
  (top_buyer_id : option Id) :
  process_dataset U Id_eq_dec Id_leb Id_str Id_held_str set_iter to_day
    series_sum sort_values_desc savefig folder_name files = Ok (Some r) ->
  users_csv files = Ok users ->
  orders_parquet files = Ok orders ->
  books_yaml files = Ok books0 ->
  resolve_columns U (columns orders) (labels (strip_colons books0))
  = Ok cols ->
  dated_orders U to_day orders cols = Ok orders1 ->
  mapM (fun o => clean_price U (o_price (snd o))) orders1 = Ok prices ->
  reconciliate_users U Id_eq_dec set_iter users
  = Ok (n, user_map, user_groups) ->
  top_buyer Id_eq_dec Id_leb series_sum user_map
    (combine (List.map snd orders1) (paid_amounts orders1 prices))
  = Ok top_buyer_id ->
  top_5 r =
  List.map fst
    (firstn 5 (sort_values_desc
                 (groupby_sum str_eq_dec str_leb series_sum
                    (combine (List.map fst orders1)
                             (paid_amounts orders1 prices))))) /\
  uniq_u r = n /\
  best_ids_str r =
  best_buyer_string Id_eq_dec Id_str Id_held_str user_groups top_buyer_id.
Proof.
  intros Hp Hu Ho Hb Hc Hd Hm Hr Ht.
  unfold process_dataset in Hp.
  rewrite Hu, Ho, Hb in Hp. cbn [bind] in Hp. cbv zeta in Hp.
  rewrite Hc in Hp. cbn [bind] in Hp.
  rewrite Hd in Hp. cbn [bind] in Hp.
  rewrite Hm in Hp. cbn [bind] in Hp.
  rewrite Hr in Hp. cbn [bind] in Hp. cbv beta iota zeta in Hp.
  repeat match type of Hp with
         | bind ?x _ = Ok _ =>
             destruct x eqn:?; cbn [bind] in Hp; [|discriminate]
         end.
  injection Ht as Ht. subst top_buyer_id.
  injection Hp as Hp. subst r. cbn [top_5 uniq_u best_ids_str].
  split; [reflexivity|]. split; reflexivity.
Qed.

(** C10, amended: when the best buyer of a folder is not a key of the
    alias groups of the reconciler, the alias string of the result is that
    one id, as the resolved-id column holds it, with no separator; it is
    empty only if that rendering is.  The best buyer is the one of the
    dated orders of the folder with their paid amounts, under the id map
    of its users. *)
Theorem lone_best_buyer_string (folder_name : str) (files : folder_files Id)
  (r : FolderResult) (users : list (user_row Id))
  (orders : frame (ocell Id)) (books0 : catalog) (cols : cols_t)
  (orders1 : list (str * order Id)) (prices : list float) (n : nat)
  (user_map : dict Id Id) (user_groups : dict Id (list Id)) (uid : Id) :
  process_dataset U Id_eq_dec Id_leb Id_str Id_held_str set_iter to_day
    series_sum sort_values_desc savefig folder_name files = Ok (Some r) ->
  users_csv files = Ok users ->
  orders_parquet files = Ok orders ->
  books_yaml files = Ok books0 ->
  resolve_columns U (columns orders) (labels (strip_colons books0))
  = Ok cols ->
  dated_orders U to_day orders cols = Ok orders1 ->
  mapM (fun o => clean_price U (o_price (snd o))) orders1 = Ok prices ->
  reconciliate_users U Id_eq_dec set_iter users
  = Ok (n, user_map, user_groups) ->
  top_buyer Id_eq_dec Id_leb series_sum user_map
    (combine (List.map snd orders1) (paid_amounts orders1 prices))
  = Ok (Some uid) ->
  dict_get Id_eq_dec user_groups uid = None ->
  best_ids_str r = Id_held_str uid /\
  (best_ids_str r = [] <-> Id_held_str uid = []).
Proof.
  intros Hp Hu Ho Hb Hc Hd Hm Hr Ht Hg.
  destruct (process_dataset_fields folder_name files r users orders books0
              cols orders1 prices n user_map user_groups (Some uid)
              Hp Hu Ho Hb Hc Hd Hm Hr Ht) as (_ & _ & E).
  assert (E' : best_ids_str r = Id_held_str uid).
  { rewrite E. unfold best_buyer_string. rewrite Hg. reflexivity. }
  split; [exact E'|]. rewrite E'. split; intros H; exact H.
Qed.

End PipelineClaims.

Section ColumnRoles.
Variable U : ucd.

(** What [resolve_columns] does: each role takes the first column its test
    accepts, and a role without a column raises [StopIteration]. *)
Lemma resolve_columns_roles (order_cols : list str) (book_cols : list label)
  (cols : cols_t) :
  resolve_columns U order_cols book_cols = Ok cols ->
  next_col (fun c => contains (lit "date") (lower U c)
                     || contains (lit "timestamp") (lower U c))
           order_cols = Ok (c_date cols) /\
  next_col (fun c => contains (lit "price") (lower U c)) order_cols
  = Ok (c_price cols) /\
  next_col (fun c => contains (lit "qty") (lower U c)
                     || contains (lit "quantity") (lower U c))
           order_cols = Ok (c_qty cols) /\
  next_col (fun c => contains (lit "item") c || contains (lit "book") c)
           order_cols = Ok (c_item_id cols) /\
  next_col (fun c => contains (lit "user") c) order_cols = Ok (c_user_id cols) /\
  next_id_label book_cols = Ok (c_book_id cols).
Proof.
  unfold resolve_columns. intros H.
  repeat match type of H with
         | bind ?r _ = Ok _ => destruct r eqn:?; simpl in H; [|discriminate]
         end.
  inversion H. subst cols. simpl. repeat split; reflexivity.
Qed.

Lemma resolve_columns_failure (order_cols : list str) (book_cols : list label)
  (e : exn) :
  resolve_columns U order_cols book_cols = Raise e ->
  e = StopIteration \/ (e = TypeError /\ In LOther book_cols).
Proof.
  unfold resolve_columns, next_col. intros H.
  repeat match type of H with
         | context [find ?p ?l] => destruct (find p l); simpl in H
         end; try (left; congruence).
  destruct (next_id_label book_cols) as [c|e0] eqn:E; simpl in H;
    [discriminate|].
  inversion H. subst e0. apply next_id_label_error. exact E.
Qed.

Lemma resolve_columns_no_price (order_cols : list str)
  (book_cols : list label) :
  (forall c, In c order_cols -> contains (lit "price") (lower U c) = false) ->
  resolve_columns U order_cols book_cols = Raise StopIteration.
Proof.
  intros H. unfold resolve_columns.
  rewrite (next_col_none (fun c => contains (lit "price") (lower U c))
             order_cols H).
  unfold next_col. destruct (find _ order_cols); reflexivity.
Qed.

End ColumnRoles.

(** C6: evaluation of the code where the claim fails.  The item, user and
    catalog-id columns are matched as they are written: with the order
    columns [Date, Price, Qty, Item_ID, User_ID] a case-insensitive match
    finds the item and the user column, and the code raises
    [StopIteration]; with the same names in small letters it resolves
    every role. *)
Theorem item_user_id_match_is_case_sensitive :
  resolve_columns ascii_ucd Demo.capital_columns [LStr (lit "id")]
  = Raise StopIteration /\
  next_col_ci ascii_ucd [lit "date"; lit "timestamp"] Demo.capital_columns
  = Ok (lit "Date") /\
  next_col_ci ascii_ucd [lit "item"; lit "book"] Demo.capital_columns
  = Ok (lit "Item_ID") /\
  next_col_ci ascii_ucd [lit "user"] Demo.capital_columns
  = Ok (lit "User_ID") /\
  next_col (fun c => contains (lit "item") c || contains (lit "book") c)
    Demo.capital_columns = Raise StopIteration /\
  resolve_columns ascii_ucd Demo.small_columns [LStr (lit "id")]
  = Ok {| c_date := lit "date"; c_price := lit "price"; c_qty := lit "qty";
          c_item_id := lit "item_id"; c_user_id := lit "user_id";
          c_book_id := lit "id" |}.
Proof. repeat split. Qed.

(** C7: evaluation of the code where the claim fails.  A catalog of two
    books, one by ["Ann Lee"] and one without an author, has one distinct
    author other than ["nan"]; the pipeline reports two. *)
Theorem missing_author_is_counted :
  distinct_authors_but_nan ascii_ucd [str_obj (lit "Ann Lee"); nan_obj] = 1 /\
  exists r, Demo.process "DATA1" Demo.good_folder = Ok (Some r) /\
            uniq_a r = 2.
Proof.
  split; [reflexivity|]. eexists. split; [vm_compute; reflexivity | reflexivity].
Qed.

Section AuthorCount.
Variable U : ucd.
Variable Id : Type.
Variable series_sum : list float -> float.

(** The count the pipeline reports is the number of distinct stringified
    and trimmed authors, ["nan"] included. *)
Lemma author_stats_count (order_cols book_cols : list str) (qty_col : str)
  (authors : list cell) (merged : list (ocell Id * option cell))
  (n : nat) (a : str) :
  existsb (str_eqb (lit "author")) book_cols = true ->
  author_stats U series_sum order_cols book_cols qty_col (Ok authors) merged
  = Ok (n, a) ->
  n = nunique (List.map (fun c => strip U (text c)) authors).
Proof.
  intros Hb. unfold author_stats. rewrite Hb. simpl.
  destruct merged as [|m merged]; [intros H; inversion H; reflexivity|].
  destruct (_ || _); [discriminate|].
  match goal with
  | |- context [groupby_sum ?a ?b ?c ?d] => destruct (groupby_sum a b c d)
  end; [intros H; inversion H; reflexivity|].
  match goal with
  | |- context [idxmax ?l] => destruct (idxmax l)
  end; simpl; intros H; inversion H; reflexivity.
Qed.

End AuthorCount.

Example run_examples :
  Demo.run Demo.disk_missing_first = Raise FileNotFoundError /\
  exists r1 r2 r3, Demo.run Demo.disk_complete = Ok [r1; r2; r3].
Proof.
  split; [reflexivity|]. do 3 eexists. vm_compute. reflexivity.
Qed.

Lemma load_error_stops_the_run_witness :
  In (lit "DATA1") DATA_DIRS /\
  users_csv (Demo.disk_missing_first (lit "DATA1")) = Raise FileNotFoundError /\
  exists e, Demo.run Demo.disk_missing_first = Raise e.
Proof.
  split; [left; reflexivity|]. split; [reflexivity|].
  apply (load_error_stops_the_run ascii_ucd str str_eq_dec str_leb
           (fun s => s) (fun s => s) Demo.insertion_order Demo.to_day
           Demo.series_sum
           Demo.sort_values_desc Demo.savefig Demo.disk_missing_first
           (lit "DATA1") FileNotFoundError).
  - left. reflexivity.
  - left. reflexivity.
Defined.

Lemma no_dated_order_raises_witness :
  (forall l : list str, NoDup l -> Permutation (Demo.insertion_order l) l) /\
  dated_orders ascii_ucd Demo.to_day Demo.orders_undated
    {| c_date := lit "order_date"; c_price := lit "unit_price";
       c_qty := lit "qty"; c_item_id := lit "book_id";
       c_user_id := lit "user_id"; c_book_id := lit "id" |} = Ok [] /\
  Demo.process "DATA2" Demo.undated_folder = Raise ValueError.
Proof.
  split; [intros l _; apply Permutation_refl|]. split; [reflexivity|].
  apply (no_dated_order_raises ascii_ucd str str_eq_dec str_leb
           (fun s => s) (fun s => s) Demo.insertion_order Demo.to_day
           Demo.series_sum
           Demo.sort_values_desc Demo.savefig
           (fun l _ => Permutation_refl l)
           (lit "DATA2") Demo.undated_folder Demo.users3 Demo.orders_undated
           Demo.books2
           {| c_date := lit "order_date"; c_price := lit "unit_price";
              c_qty := lit "qty"; c_item_id := lit "book_id";
              c_user_id := lit "user_id"; c_book_id := lit "id" |});
    reflexivity.
Defined.

Lemma lone_best_buyer_string_witness :
  Demo.process "DATA1" Demo.good_folder = Ok (Some DemoMore.result3) /\
  users_csv Demo.good_folder = Ok Demo.users3 /\
  orders_parquet Demo.good_folder = Ok Demo.orders3 /\
  books_yaml Demo.good_folder = Ok Demo.books2 /\
  resolve_columns ascii_ucd (columns Demo.orders3)
    (labels (strip_colons Demo.books2)) = Ok DemoMore.cols3 /\
  dated_orders ascii_ucd Demo.to_day Demo.orders3 DemoMore.cols3
  = Ok DemoMore.dated3 /\
  mapM (fun o => clean_price ascii_ucd (o_price (snd o))) DemoMore.dated3
  = Ok DemoMore.prices3 /\
  Demo.reconcile Demo.insertion_order Demo.users3
  = Ok (2, DemoMore.id_map3, DemoMore.groups3) /\
  top_buyer str_eq_dec str_leb Demo.series_sum DemoMore.id_map3
    (combine (List.map snd DemoMore.dated3)
             (paid_amounts DemoMore.dated3 DemoMore.prices3))
  = Ok (Some (lit "z")) /\
  dict_get str_eq_dec DemoMore.groups3 (lit "z") = None /\
  best_ids_str DemoMore.result3 = lit "z" /\
  (best_ids_str DemoMore.result3 = [] <-> lit "z" = []).
Proof.
  assert (Hp : Demo.process "DATA1" Demo.good_folder
               = Ok (Some DemoMore.result3)) by (vm_compute; reflexivity).
  assert (Hc : resolve_columns ascii_ucd (columns Demo.orders3)
                 (labels (strip_colons Demo.books2)) = Ok DemoMore.cols3)
    by reflexivity.
  assert (Hd : dated_orders ascii_ucd Demo.to_day Demo.orders3 DemoMore.cols3
               = Ok DemoMore.dated3) by reflexivity.
  assert (Hm : mapM (fun o => clean_price ascii_ucd (o_price (snd o)))
                 DemoMore.dated3 = Ok DemoMore.prices3)
    by (vm_compute; reflexivity).
  assert (Hr : Demo.reconcile Demo.insertion_order Demo.users3
               = Ok (2, DemoMore.id_map3, DemoMore.groups3))
    by (vm_compute; reflexivity).
  assert (Ht : top_buyer str_eq_dec str_leb Demo.series_sum DemoMore.id_map3
                 (combine (List.map snd DemoMore.dated3)
                          (paid_amounts DemoMore.dated3 DemoMore.prices3))
               = Ok (Some (lit "z"))) by (vm_compute; reflexivity).
  do 10 (split; [first [assumption | reflexivity]|]).
  exact (lone_best_buyer_string ascii_ucd str str_eq_dec str_leb
           (fun s => s) (fun s => s) Demo.insertion_order Demo.to_day
           Demo.series_sum Demo.sort_values_desc Demo.savefig
           (lit "DATA1") Demo.good_folder DemoMore.result3 Demo.users3
           Demo.orders3 Demo.books2 DemoMore.cols3 DemoMore.dated3
           DemoMore.prices3 2 DemoMore.id_map3 DemoMore.groups3 (lit "z")
           Hp eq_refl eq_refl eq_refl Hc Hd Hm Hr Ht eq_refl).
Defined.

(** C10 as stated fails: the larger of two orders has the empty text as
    user id.  That id is the best buyer, it is no key of the alias groups,
    and the alias string of the result is empty. *)
Lemma lone_best_buyer_string_can_be_empty :
  Demo.process "DATA1" DemoMore.nameless_folder
  = Ok (Some DemoMore.result_nameless) /\
  dated_orders ascii_ucd Demo.to_day DemoMore.orders_nameless DemoMore.cols3
  = Ok DemoMore.dated_nameless /\
  mapM (fun o => clean_price ascii_ucd (o_price (snd o)))
    DemoMore.dated_nameless = Ok DemoMore.prices_nameless /\
  Demo.reconcile Demo.insertion_order Demo.users3
  = Ok (2, DemoMore.id_map3, DemoMore.groups3) /\
  top_buyer str_eq_dec str_leb Demo.series_sum DemoMore.id_map3
    (combine (List.map snd DemoMore.dated_nameless)
             (paid_amounts DemoMore.dated_nameless DemoMore.prices_nameless))
  = Ok (Some []) /\
  dict_get str_eq_dec DemoMore.groups3 [] = None /\
  best_ids_str DemoMore.result_nameless = [].
Proof.
  split; [vm_compute; reflexivity|].
  split; [reflexivity|].
  split; [vm_compute; reflexivity|].
  split; [vm_compute; reflexivity|].
  split; [vm_compute; reflexivity|].
  split; reflexivity.
Qed.

(** The pipeline on a complete folder.  The buyer [z] of the largest order
    is not in the user table: the alias string is [z] alone.  When the best
    buyer is a reconciled user, the string lists the aliases.  With whole
    numbers as ids, the aliases read as the user table holds them and a
    buyer outside the table reads as a float.  A catalog with a label that
    is a number ahead of its id column stops the pipeline. *)
Example process_examples :
  Demo.process "DATA1" Demo.good_folder = Ok (Some DemoMore.result3) /\
  best_buyer_string str_eq_dec (fun s => s) (fun s => s)
    DemoMore.groups3 (Some (lit "a")) = lit "a, b" /\
  best_buyer_string N.eq_dec DemoMore.int_str DemoMore.float_str
    [(1%N, [1%N; 2%N])] (Some 1%N) = lit "1, 2" /\
  best_buyer_string N.eq_dec DemoMore.int_str DemoMore.float_str
    [(1%N, [1%N; 2%N])] (Some 99%N) = lit "99.0" /\
  generate_plot Demo.savefig [] (lit "Revenue Trend: DATA1") = [] /\
  resolve_columns ascii_ucd Demo.small_columns
    (labels (strip_colons DemoMore.books_numbered)) = Raise TypeError.
Proof.
  split; [vm_compute; reflexivity|]. repeat split.
Qed.

(* ================================================================== *)
(** * Counting authors *)

Section UniqueFacts.
Variable Id : Type.
Variable Id_eq_dec : forall x y : Id, {x = y} + {x <> y}.

Lemma filter_comm (p q : Id -> bool) (l : list Id) :
  filter p (filter q l) = filter q (filter p l).
Proof.
  induction l as [|x t IH]; simpl; [reflexivity|].
  destruct (p x) eqn:Hp, (q x) eqn:Hq; simpl; rewrite ?Hp, ?Hq, IH; reflexivity.
Qed.

Lemma filter_all (q : Id -> bool) (l : list Id) :
  (forall y, In y l -> q y = true) -> filter q l = l.
Proof.
  induction l as [|x t IH]; simpl; intros H; [reflexivity|].
  rewrite (H x (or_introl eq_refl)). f_equal. apply IH.
  intros y Hy. apply H. right. exact Hy.
Qed.

Lemma unique_filter (p : Id -> bool) (l : list Id) :
  unique Id_eq_dec (filter p l) = filter p (unique Id_eq_dec l).
Proof.
  induction l as [|x t IH]; simpl; [reflexivity|].
  destruct (p x) eqn:Hp; simpl.
  - rewrite IH. f_equal. apply filter_comm.
  - rewrite IH, filter_comm. symmetry. apply filter_all.
    intros y Hy. apply filter_In in Hy. destruct Hy as [_ Hy].
    destruct (Id_eq_dec x y) as [E | N]; [|reflexivity]. subst y. congruence.
Qed.

Lemma unique_NoDup (l : list Id) : NoDup (unique Id_eq_dec l).
Proof.
  induction l as [|x t IH]; simpl; [constructor|]. constructor.
  - intros H. apply filter_In in H. destruct H as [_ H].
    destruct (Id_eq_dec x x); [discriminate | congruence].
  - apply NoDup_filter. exact IH.
Qed.

(** In a list without repetition, taking one of its elements out makes it
    one shorter. *)
Lemma NoDup_remove_one (p : Id -> bool) (a : Id) (l : list Id) :
  NoDup l -> In a l -> (forall x, p x = false <-> x = a) ->
  length l = S (length (filter p l)).
Proof.
  intros Hnd Hin Hp. induction Hnd as [|x t Hx Hnd IH]; [destruct Hin|].
  simpl. destruct (p x) eqn:Ex.
  - simpl. f_equal. apply IH. destruct Hin as [E | H]; [|exact H].
    subst x. assert (p a = false) by (apply Hp; reflexivity). congruence.
  - apply Hp in Ex. subst x. f_equal.
    rewrite filter_all; [reflexivity|].
    intros y Hy. destruct (p y) eqn:Ey; [reflexivity|].
    apply Hp in Ey. subst y. contradiction.
Qed.

End UniqueFacts.

Section AuthorCountFacts.
Variable U : ucd.

(** When an author is missing, the count of the pipeline is one more than
    the number of distinct authors other than ["nan"]. *)
Lemma nunique_counts_nan (authors : list cell) :
  In (lit "nan") (List.map (fun a => strip U (text a)) authors) ->
  nunique (List.map (fun a => strip U (text a)) authors) =
  S (distinct_authors_but_nan U authors).
Proof.
  intros Hin. unfold distinct_authors_but_nan, nunique.
  rewrite unique_filter.
  apply (NoDup_remove_one str _ (lit "nan")).
  - apply unique_NoDup.
  - apply unique_In. exact Hin.
  - intros x. rewrite negb_false_iff. apply str_eqb_eq.
Qed.

End AuthorCountFacts.

(* ================================================================== *)
(** * Further properties of the reconciler *)

Section GraphNodes.
Variable Id : Type.
Variable Id_eq_dec : forall x y : Id, {x = y} + {x <> y}.

Lemma add_node_NoDup (n : Id) (g : graph Id) :
  NoDup (nodes g) -> NoDup (nodes (add_node Id_eq_dec n g)).
Proof.
  intros H. unfold add_node. destruct (mem Id_eq_dec n (nodes g)) eqn:Hm.
  - exact H.
  - simpl. apply NoDup_snoc; [exact H|]. intros Hin.
    apply (proj2 (mem_In Id Id_eq_dec n _)) in Hin. congruence.
Qed.

Lemma add_edge_NoDup (u v : Id) (g : graph Id) :
  NoDup (nodes g) -> NoDup (nodes (add_edge Id_eq_dec u v g)).
Proof. intros H. unfold add_edge. simpl. apply add_node_NoDup, add_node_NoDup, H. Qed.

Lemma add_path_from_nodes (rest : list Id) :
  forall prev g,
    (NoDup (nodes g) -> NoDup (nodes (add_path_from Id_eq_dec prev rest g))) /\
    (forall x, In x (nodes (add_path_from Id_eq_dec prev rest g)) ->
               In x (nodes g) \/ In x (prev :: rest)).
Proof.
  induction rest as [|v t IH]; intros prev g; simpl.
  - split; [tauto|]. intros x H. left. exact H.
  - destruct (IH v (add_edge Id_eq_dec prev v g)) as [A B]. split.
    + intros H. apply A. apply add_edge_NoDup. exact H.
    + intros x H. apply B in H. rewrite add_edge_nodes in H. simpl in *.
      intuition congruence.
Qed.

Lemma add_path_nodes (ids : list Id) (g : graph Id) :
  (NoDup (nodes g) -> NoDup (nodes (add_path Id_eq_dec ids g))) /\
  (forall x, In x (nodes (add_path Id_eq_dec ids g)) ->
             In x (nodes g) \/ In x ids).
Proof.
  destruct ids as [|first rest]; simpl; [tauto|].
  destruct (add_path_from_nodes rest first (add_node Id_eq_dec first g))
    as [A B]. split.
  - intros H. apply A. apply add_node_NoDup. exact H.
  - intros x H. apply B in H. rewrite add_node_nodes in H. simpl in *.
    intuition congruence.
Qed.

Lemma add_paths_nodes (lists : list (list Id)) :
  forall g,
    let g' := fold_left
                (fun G ids => if 1 <? length ids
                              then add_path Id_eq_dec ids G else G)
                lists g in
    (NoDup (nodes g) -> NoDup (nodes g')) /\
    (forall x, In x (nodes g') ->
               In x (nodes g) \/ exists ids, In ids lists /\ In x ids).
Proof.
  induction lists as [|l lists IH]; intros g; simpl.
  - split; [tauto|]. intros x H. left. exact H.
  - set (g1 := if 1 <? length l then add_path Id_eq_dec l g else g).
    destruct (IH g1) as [A B].
    assert (E : (NoDup (nodes g) -> NoDup (nodes g1)) /\
                (forall x, In x (nodes g1) -> In x (nodes g) \/ In x l)).
    { unfold g1. destruct (1 <? length l); [apply add_path_nodes|].
      split; [tauto|]. intros x H. left. exact H. }
    destruct E as [E1 E2]. split.
    + intros H. apply A, E1, H.
    + intros x H. apply B in H. destruct H as [H | (ids & H1 & H2)].
      * apply E2 in H. destruct H as [H | H]; [left; exact H|].
        right. exists l. auto.
      * right. exists ids. auto.
Qed.

Lemma add_nodes_from_NoDup (ns : list Id) :
  forall g, NoDup (nodes g) -> NoDup (nodes (add_nodes_from Id_eq_dec ns g)).
Proof.
  unfold add_nodes_from. induction ns as [|n ns IH]; intros g H; simpl.
  - exact H.
  - apply IH. apply add_node_NoDup. exact H.
Qed.

Lemma concat_nonempty_length (ls : list (list Id)) :
  (forall l, In l ls -> l <> []) -> length ls <= length (concat ls).
Proof.
  induction ls as [|l ls IH]; simpl; intros H; [lia|].
  rewrite length_app.
  assert (l <> []) by (apply H; left; reflexivity).
  assert (length ls <= length (concat ls)).
  { apply IH. intros l' Hl'. apply H. right. exact Hl'. }
  destruct l; [congruence | simpl; lia].
Qed.

End GraphNodes.

Section DictShape.
Variables K V : Type.
Variable K_eq_dec : forall x y : K, {x = y} + {x <> y}.

Lemma dict_set_fresh (d : dict K V) (k : K) (v : V) :
  ~ In k (List.map fst d) -> dict_set K_eq_dec d k v = d ++ [(k, v)].
Proof.
  induction d as [|[k0 v0] t IH]; simpl; intros H; [reflexivity|].
  destruct (K_eq_dec k k0) as [E | N]; [exfalso; apply H; left; congruence|].
  f_equal. apply IH. intros Hin. apply H. right. exact Hin.
Qed.

Lemma fold_set_fresh (ps : list (K * V)) :
  forall d, NoDup (List.map fst (d ++ ps)) ->
            fold_left (fun d kv => dict_set K_eq_dec d (fst kv) (snd kv)) ps d
            = d ++ ps.
Proof.
  induction ps as [|[k v] ps IH]; intros d H; simpl.
  - rewrite app_nil_r. reflexivity.
  - rewrite dict_set_fresh.
    + rewrite IH; rewrite <- app_assoc; [reflexivity | exact H].
    + rewrite map_app in H. simpl in H. apply NoDup_remove_2 in H.
      intros Hin. apply H. apply in_or_app. left. exact Hin.
Qed.

(** Pairs with distinct keys make the dict that lists them in order. *)
Lemma dict_of_pairs_distinct (ps : list (K * V)) :
  NoDup (List.map fst ps) -> dict_of_pairs K_eq_dec ps = ps.
Proof. intros H. unfold dict_of_pairs. apply (fold_set_fresh ps []). exact H. Qed.

End DictShape.

Section ReconcilerMore.
Variable U : ucd.
Variable Id : Type.
Variable Id_eq_dec : forall x y : Id, {x = y} + {x <> y}.

Lemma holds_fragment_valid (users : list (user_row Id)) (key : category)
  (f : str) (x : Id) :
  holds_fragment U users key f x -> valid_id users x.
Proof. intros (r & H1 & H2 & _). exists r. auto. Qed.

Lemma table_ids_In (users : list (user_row Id)) (x : Id) :
  In x (table_ids Id_eq_dec users) <-> valid_id users x.
Proof.
  unfold table_ids. rewrite unique_In. split.
  - intros H. apply in_map_iff in H. destruct H as ([uid r] & E & H).
    simpl in E. subst uid. apply valid_users_In in H. exists r. exact H.
  - intros (r & H1 & H2). change x with (fst (x, r)). apply in_map.
    apply valid_users_In. auto.
Qed.

(** The nodes of the identity graph are the ids of the table, once each. *)
Lemma build_graph_nodes (users : list (user_row Id)) :
  NoDup (nodes (build_graph U Id_eq_dec users)) /\
  forall x, In x (nodes (build_graph U Id_eq_dec users)) <-> valid_id users x.
Proof.
  destruct (build_graph_spec U Id Id_eq_dec users) as (_ & Hn & _).
  unfold build_graph in *.
  set (G0 := add_nodes_from Id_eq_dec
               (unique Id_eq_dec (List.map fst (valid_users users)))
               (empty_graph Id)) in *.
  destruct (add_paths_nodes Id Id_eq_dec (id_lists (build_lookup U users)) G0)
    as [A B].
  destruct (add_nodes_from_spec Id Id_eq_dec
              (unique Id_eq_dec (List.map fst (valid_users users)))
              (empty_graph Id)) as [_ N0].
  fold G0 in N0. split.
  - apply A. unfold G0. apply add_nodes_from_NoDup. constructor.
  - intros x. split; [|apply Hn].
    intros H. apply B in H. destruct H as [H | (ids & H1 & H2)].
    + apply N0 in H. destruct H as [H | []]. apply table_ids_In. exact H.
    + destruct (build_lookup_spec U Id users) as [L1 _].
      destruct (id_list_listed Id (holds_fragment U users) _ ids L1 H1)
        as (key & f & Hall).
      exact (holds_fragment_valid users key f x (Hall x H2)).
Qed.

Lemma components_perm_table_ids (users : list (user_row Id)) :
  Permutation
    (concat (connected_components Id_eq_dec (build_graph U Id_eq_dec users)))
    (table_ids Id_eq_dec users).
Proof.
  destruct (build_graph_spec U Id Id_eq_dec users) as (Hwf & _).
  destruct (connected_components_spec Id Id_eq_dec _ Hwf) as (Hnd & Hcov & _).
  destruct (build_graph_nodes users) as [_ Hn].
  apply NoDup_Permutation.
  - exact Hnd.
  - apply unique_NoDup.
  - intros x. rewrite <- Hcov, Hn, table_ids_In. tauto.
Qed.

Section OneRunMore.
Variable set_iter : list Id -> list Id.
Hypothesis set_iter_perm : forall l, NoDup l -> Permutation (set_iter l) l.

Lemma group_pairs_shape (comps : list (list Id)) :
  forall gp, group_pairs set_iter comps = Ok gp ->
             List.map snd gp = List.map set_iter comps /\
             forall r l, In (r, l) gp -> hd_error l = Some r.
Proof.
  unfold group_pairs.
  induction comps as [|c comps IH]; simpl; intros gp H.
  - inversion H. split; [reflexivity|]. intros r l [].
  - destruct (set_iter c) as [|first rest] eqn:Ec; [discriminate|]. simpl in H.
    destruct (mapM _ comps) as [gp'|e] eqn:E; [|discriminate]. simpl in H.
    inversion H. subst gp. destruct (IH gp' eq_refl) as [A B]. split.
    + simpl. rewrite A. reflexivity.
    + intros r l [E' | Hin]; [inversion E'; reflexivity | eauto].
Qed.

Lemma concat_set_iter_perm (comps : list (list Id)) :
  (forall c, In c comps -> NoDup c) ->
  Permutation (concat (List.map set_iter comps)) (concat comps).
Proof.
  induction comps as [|c comps IH]; simpl; intros H; [constructor|].
  apply Permutation_app.
  - apply set_iter_perm. apply H. left. reflexivity.
  - apply IH. intros c' Hc'. apply H. right. exact Hc'.
Qed.

Lemma heads_distinct (gp : list (Id * list Id)) :
  NoDup (concat (List.map snd gp)) ->
  (forall r l, In (r, l) gp -> hd_error l = Some r) ->
  NoDup (List.map fst gp).
Proof.
  induction gp as [|[r l] gp IH]; simpl; intros Hnd Hhd; [constructor|].
  constructor.
  - intros Hin. apply in_map_iff in Hin. destruct Hin as ([r' l'] & E & Hin).
    simpl in E. subst r'.
    assert (Hl : In r l).
    { pose proof (Hhd r l (or_introl eq_refl)) as H.
      destruct l; simpl in H; [discriminate|]. inversion H. left. reflexivity. }
    assert (Hl' : In r l').
    { pose proof (Hhd r l' (or_intror Hin)) as H.
      destruct l'; simpl in H; [discriminate|]. inversion H. left. reflexivity. }
    apply (NoDup_app_disjoint Id l (concat (List.map snd gp)) r Hnd Hl).
    apply in_concat. exists l'. split; [|exact Hl'].
    change l' with (snd (r, l')). apply in_map. exact Hin.
  - apply IH.
    + apply NoDup_app_remove_l in Hnd. exact Hnd.
    + intros r' l' H. apply Hhd. right. exact H.
Qed.

(** X5: the alias lists of the groups split the distinct ids of the table:
    every id is in exactly one list, no list is empty, and the number of
    users reported is the number of lists. *)
Theorem alias_groups_partition_ids (users : list (user_row Id)) :
  exists n id_map groups,
    reconciliate_users U Id_eq_dec set_iter users = Ok (n, id_map, groups) /\
    n = length groups /\
    Permutation (concat (dict_values groups)) (table_ids Id_eq_dec users) /\
    (forall l, In l (dict_values groups) -> l <> []) /\
    n <= length (table_ids Id_eq_dec users).
Proof.
  destruct (build_graph_spec U Id Id_eq_dec users) as (Hwf & _).
  destruct (connected_components_spec Id Id_eq_dec _ Hwf) as (Hnd & _ & Hcomp).
  pose proof (components_perm_table_ids users) as Hperm.
  unfold reconciliate_users.
  set (comps := connected_components Id_eq_dec (build_graph U Id_eq_dec users)) in *.
  assert (Hc : forall c, In c comps -> NoDup c).
  { intros c H. exact (NoDup_concat_each Id comps c Hnd H). }
  destruct (group_pairs_ok Id set_iter comps) as (gp & Egp & _).
  { intros c H E. pose proof (set_iter_perm c (Hc c H)) as P. rewrite E in P.
    apply Permutation_nil in P. destruct (Hcomp c H) as [N _]. contradiction. }
  rewrite Egp. simpl.
  destruct (group_pairs_shape comps gp Egp) as [Hsnd Hhd].
  pose proof (concat_set_iter_perm comps Hc) as Hcs.
  assert (Hkeys : NoDup (List.map fst gp)).
  { apply heads_distinct; [|exact Hhd]. rewrite Hsnd.
    apply (Permutation_NoDup (Permutation_sym Hcs)). exact Hnd. }
  rewrite (dict_of_pairs_distinct Id (list Id) Id_eq_dec gp Hkeys).
  assert (Hvals : dict_values gp = List.map set_iter comps) by exact Hsnd.
  assert (Hlen : length comps = length gp).
  { rewrite <- (length_map set_iter comps), <- Hsnd, length_map. reflexivity. }
  assert (Hne : forall l, In l (dict_values gp) -> l <> []).
  { intros l H E. subst l. unfold dict_values in H. apply in_map_iff in H.
    destruct H as ([r l] & E & H). simpl in E. subst l.
    apply Hhd in H. discriminate. }
  assert (Hpart : Permutation (concat (dict_values gp)) (table_ids Id_eq_dec users)).
  { rewrite Hvals. eapply Permutation_trans; eassumption. }
  eexists. eexists. exists gp. split; [reflexivity|].
  split; [exact Hlen|]. split; [exact Hpart|]. split; [exact Hne|].
  rewrite Hlen. rewrite <- (Permutation_length Hpart).
  unfold dict_values. rewrite <- (length_map snd gp).
  apply concat_nonempty_length. exact Hne.
Qed.

(** X1: two ids of the table get the same canonical id exactly when a
    chain of users joins them, each sharing with the next an email, a
    phone or an address fragment of more than four characters: a merge
    through an email and a merge through a phone add up. *)
Theorem same_canonical_id_iff_linked (users : list (user_row Id)) :
  exists n id_map groups,
    reconciliate_users U Id_eq_dec set_iter users = Ok (n, id_map, groups) /\
    forall x y, valid_id users x -> valid_id users y ->
                (dict_get Id_eq_dec id_map x = dict_get Id_eq_dec id_map y <->
                 linked U users x y).
Proof.
  destruct (id_map_facts U Id Id_eq_dec set_iter set_iter_perm users)
    as (n & id_map & groups & E & F1 & F2 & F3).
  exists n, id_map, groups. split; [exact E|].
  intros x y Hx Hy. split.
  - intros H. destruct (F1 x Hx) as (c & Hc & _).
    apply (F3 x y c Hx Hy Hc). congruence.
  - intros H. symmetry. apply F2; assumption.
Qed.

(** X2: two users whose phones have the same digits, more than four of
    them, get the same canonical id whatever else the phone texts hold;
    so do two users whose lower-cased, trimmed addresses agree on their
    first fifteen characters, when these are more than four. *)
Theorem same_phone_or_address_same_group (users : list (user_row Id)) :
  exists n id_map groups,
    reconciliate_users U Id_eq_dec set_iter users = Ok (n, id_map, groups) /\
    (forall r1 r2 x1 x2,
        In r1 users -> In r2 users ->
        u_id r1 = Some x1 -> u_id r2 = Some x2 ->
        isna (u_phone r1) = false -> isna (u_phone r2) = false ->
        digits_only U (text (u_phone r1)) = digits_only U (text (u_phone r2)) ->
        4 < length (digits_only U (text (u_phone r1))) ->
        dict_get Id_eq_dec id_map x1 = dict_get Id_eq_dec id_map x2) /\
    (forall r1 r2 x1 x2,
        In r1 users -> In r2 users ->
        u_id r1 = Some x1 -> u_id r2 = Some x2 ->
        isna (u_address r1) = false -> isna (u_address r2) = false ->
        firstn 15 (strip U (lower U (text (u_address r1)))) =
        firstn 15 (strip U (lower U (text (u_address r2)))) ->
        4 < length (firstn 15 (strip U (lower U (text (u_address r1))))) ->
        dict_get Id_eq_dec id_map x1 = dict_get Id_eq_dec id_map x2).
Proof.
  destruct (id_map_facts U Id Id_eq_dec set_iter set_iter_perm users)
    as (n & id_map & groups & E & _ & F2 & _).
  exists n, id_map, groups. split; [exact E|]. split.
  - intros r1 r2 x1 x2 In1 In2 Id1 Id2 Na1 Na2 Eq Len.
    symmetry. apply F2; [exists r1; auto|]. apply rt_step.
    exists Phone, (digits_only U (text (u_phone r1))). split.
    + exists r1. unfold fragment. rewrite Na1. auto.
    + exists r2. unfold fragment. rewrite Na2, <- Eq. auto.
  - intros r1 r2 x1 x2 In1 In2 Id1 Id2 Na1 Na2 Eq Len.
    symmetry. apply F2; [exists r1; auto|]. apply rt_step.
    exists Address, (firstn 15 (strip U (lower U (text (u_address r1))))). split.
    + exists r1. unfold fragment. rewrite Na1. auto.
    + exists r2. unfold fragment. rewrite Na2, <- Eq. auto.
Qed.

(** X3: the two maps fit together.  The canonical id of an id of the table
    is a key of the alias groups; its alias list starts with it, has no
    repetition, holds the id, and holds exactly the ids linked to it. *)
Theorem alias_list_of_canonical_id (users : list (user_row Id)) :
  exists n id_map groups,
    reconciliate_users U Id_eq_dec set_iter users = Ok (n, id_map, groups) /\
    forall x, valid_id users x ->
              exists c l, dict_get Id_eq_dec id_map x = Some c /\
                          dict_get Id_eq_dec groups c = Some l /\
                          hd_error l = Some c /\ NoDup l /\ In x l /\
                          forall y, In y l <-> linked U users x y.
Proof.
  destruct (reconciliate_users_spec U Id Id_eq_dec set_iter set_iter_perm users)
    as (id_map & groups & E & H).
  eexists. exists id_map, groups. split; [exact E|].
  intros x Hx.
  destruct (valid_id_component U Id Id_eq_dec users x Hx) as (c & Hc & Hxc).
  destruct (H c x Hc Hxc) as (r & Hh & Hr & Hm & Hg).
  destruct (build_graph_spec U Id Id_eq_dec users) as (Hwf & _).
  destruct (connected_components_spec Id Id_eq_dec _ Hwf) as (Hnd & _).
  pose proof (set_iter_perm c (NoDup_concat_each Id _ c Hnd Hc)) as P.
  exists r, (set_iter c). split; [exact Hm|]. split; [exact Hg|].
  split; [exact Hh|]. split.
  - apply (Permutation_NoDup (Permutation_sym P)).
    exact (NoDup_concat_each Id _ c Hnd Hc).
  - split.
    + apply (Permutation_in x (Permutation_sym P)). exact Hxc.
    + intros y. rewrite <- (same_component_iff_linked U Id Id_eq_dec users c x y Hc Hxc).
      split; [apply (Permutation_in y P) | apply (Permutation_in y (Permutation_sym P))].
Qed.

(** X4: the maps know the ids of the table only.  An id that is in no row
    of the user table is neither a key of the id map nor a key of the
    alias groups. *)
Theorem unknown_id_is_in_no_map (users : list (user_row Id)) :
  exists n id_map groups,
    reconciliate_users U Id_eq_dec set_iter users = Ok (n, id_map, groups) /\
    forall x, ~ valid_id users x ->
              dict_get Id_eq_dec id_map x = None /\
              dict_get Id_eq_dec groups x = None.
Proof.
  destruct (build_graph_spec U Id Id_eq_dec users) as (Hwf & _).
  destruct (connected_components_spec Id Id_eq_dec _ Hwf) as (Hnd & Hcov & Hcomp).
  destruct (build_graph_nodes users) as [_ Hn].
  unfold reconciliate_users.
  set (comps := connected_components Id_eq_dec (build_graph U Id_eq_dec users)) in *.
  assert (Hc : forall c, In c comps -> Permutation (set_iter c) c).
  { intros c H. apply set_iter_perm. exact (NoDup_concat_each Id comps c Hnd H). }
  assert (Hv : forall c x, In c comps -> In x (set_iter c) -> valid_id users x).
  { intros c x H Hx. apply Hn, Hcov, in_concat. exists c. split; [exact H|].
    exact (Permutation_in x (Hc c H) Hx). }
  destruct (group_pairs_ok Id set_iter comps) as (gp & Egp & Hgp).
  { intros c H E. pose proof (Hc c H) as P. rewrite E in P.
    apply Permutation_nil in P. destruct (Hcomp c H) as [N _]. contradiction. }
  rewrite Egp. simpl. eexists. eexists. eexists. split; [reflexivity|].
  intros x Hx. split.
  - apply dict_of_pairs_absent. intros v H. apply id_map_pairs_In in H.
    destruct H as (c & H1 & _ & H3). exact (Hx (Hv c x H1 H3)).
  - apply dict_of_pairs_absent. intros l H. apply Hgp in H.
    destruct H as (c & H1 & H2 & _). apply Hx, (Hv c x H1).
    destruct (set_iter c); simpl in H2; [discriminate|].
    inversion H2. left. reflexivity.
Qed.

End OneRunMore.
End ReconcilerMore.

(* ================================================================== *)
(** * Further properties of the value cleaners *)

Section CleanersMore.
Variable U : ucd.

Lemma count_dots_app (a b : str) : count_dots (a ++ b) = count_dots a + count_dots b.
Proof. unfold count_dots. rewrite filter_app, length_app. reflexivity. Qed.

Lemma count_dots_cons (c : char) (t : str) :
  count_dots (c :: t) = (if N.eqb dot c then 1 else 0) + count_dots t.
Proof.
  unfold count_dots. cbn [filter]. destruct (N.eqb dot c); reflexivity.
Qed.

Lemma count_dots_zero (s : str) : count_dots s = 0 <-> ~ In dot s.
Proof.
  induction s as [|c t IH]; [simpl; tauto|].
  rewrite count_dots_cons. cbn [In].
  destruct (N.eqb dot c) eqn:E.
  - apply N.eqb_eq in E. split; [intros H; discriminate H|].
    intros H. exfalso. apply H. left. congruence.
  - apply N.eqb_neq in E. cbn [Nat.add]. rewrite IH. split.
    + intros H [H1 | H1]; [congruence | auto].
    + intros H H1. apply H. right. exact H1.
Qed.

Lemma split_dot_spec (s : str) :
  ~ In dot (fst (split_dot s)) /\
  match snd (split_dot s) with
  | None => s = fst (split_dot s)
  | Some fp => s = fst (split_dot s) ++ dot :: fp
  end.
Proof.
  induction s as [|c t IH]; simpl; [tauto|].
  destruct (N.eqb c dot) eqn:E; simpl.
  - apply N.eqb_eq in E. subst c. tauto.
  - apply N.eqb_neq in E. destruct (split_dot t) as [a b]. simpl in *.
    destruct IH as [A B]. split; [intros [H | H]; auto|].
    destruct b; rewrite B at 1; reflexivity.
Qed.

Lemma digits_value_all (s : str) :
  forall acc, (exists n, digits_value U acc s = Some n) <->
              forallb (is_digit U) s = true.
Proof.
  induction s as [|c t IH]; intros acc; simpl.
  - split; eauto.
  - unfold is_digit at 1. destruct (decimal U c) as [d|]; simpl.
    + apply IH.
    + split; [intros [n H]; discriminate H | intros H; discriminate H].
Qed.

Lemma py_float_ok_iff (s : str) :
  (exists x, py_float U s = Ok x) <->
  fst (split_dot s) ++
  match snd (split_dot s) return str with Some f => f | None => [] end
  <> [] /\
  forallb (is_digit U)
    (fst (split_dot s) ++
     match snd (split_dot s) return str with Some f => f | None => [] end)
  = true.
Proof.
  unfold py_float. destruct (split_dot s) as [ip rest]. cbv beta iota zeta.
  cbn [fst snd].
  remember (ip ++ match rest return str with Some f => f | None => [] end)
    as ds eqn:E.
  clear E. destruct ds as [|c ds'].
  - split; [intros [x H]; discriminate H | intros [H _]; congruence].
  - rewrite <- (digits_value_all (c :: ds') 0%N).
    destruct (digits_value U 0 (c :: ds')) as [n|].
    + split; [intros _; split; [discriminate | eauto] | eauto].
    + split; [intros [x H]; discriminate H | intros [_ [n H]]; discriminate H].
Qed.

Lemma py_float_error (s : str) (e : exn) : py_float U s = Raise e -> e = ValueError.
Proof.
  unfold py_float. destruct (split_dot s) as [ip rest].
  destruct (ip ++ _); [congruence|].
  destruct (digits_value U 0 _); congruence.
Qed.

Lemma clean_price_error (v : cell) (e : exn) :
  clean_price U v = Raise e -> e = ValueError.
Proof.
  unfold clean_price. destruct (isna v); [discriminate|].
  destruct (digits_and_dots U (strip U (text v))) as [|c r]; [discriminate|].
  destruct (py_float U (c :: r)) as [x|e'] eqn:E; simpl; [discriminate|].
  intros H. inversion H. subst e'. exact (py_float_error _ e E).
Qed.

Hypothesis dot_no_digit : decimal U dot = None.

Lemma is_digit_dot : is_digit U dot = false.
Proof. unfold is_digit. rewrite dot_no_digit. reflexivity. Qed.

(** On a text of digits and points, [float] succeeds exactly when there is
    a digit and at most one point. *)
Lemma py_float_digits_and_dots (s : str) :
  (forall c, In c s -> is_digit U c = true \/ c = dot) ->
  ((exists x, py_float U s = Ok x) <->
   count_dots s <= 1 /\ existsb (is_digit U) s = true).
Proof.
  intros Halpha. rewrite py_float_ok_iff.
  destruct (split_dot_spec s) as [Hip Hs].
  destruct (split_dot s) as [ip rest]. simpl in *.
  assert (Dip : forallb (is_digit U) ip = true).
  { apply forallb_forall. intros c Hc.
    assert (Hin : In c s).
    { destruct rest; rewrite Hs; [apply in_or_app; left|]; exact Hc. }
    destruct (Halpha c Hin) as [H | H]; [exact H | subst c; contradiction]. }
  assert (Cip : count_dots ip = 0) by (apply count_dots_zero; exact Hip).
  destruct rest as [fp|].
  - assert (Cs : count_dots s = S (count_dots fp)).
    { rewrite Hs, count_dots_app, Cip, count_dots_cons, N.eqb_refl.
      reflexivity. }
    assert (Es : existsb (is_digit U) s =
                 existsb (is_digit U) ip || existsb (is_digit U) fp).
    { rewrite Hs, existsb_app. simpl. rewrite is_digit_dot. reflexivity. }
    rewrite Cs, Es, forallb_app, Dip. simpl. split.
    + intros [Hne Hfp]. split.
      * assert (count_dots fp = 0); [|lia]. apply count_dots_zero. intros Hd.
        rewrite forallb_forall in Hfp. pose proof is_digit_dot as Hdd.
        rewrite (Hfp dot Hd) in Hdd. discriminate Hdd.
      * destruct ip as [|c ip'].
        -- simpl in *. destruct fp as [|c fp']; [congruence|].
           simpl in *. apply andb_true_iff in Hfp. destruct Hfp as [H _].
           rewrite H. reflexivity.
        -- simpl in *. apply andb_true_iff in Dip. destruct Dip as [H _].
           rewrite H. reflexivity.
    + intros [Hc He]. assert (C0 : count_dots fp = 0) by lia.
      apply count_dots_zero in C0. split.
      * intros E. apply app_eq_nil in E. destruct E; subst. discriminate.
      * apply forallb_forall. intros c Hc'.
        assert (Hin : In c s).
        { rewrite Hs. apply in_or_app. right. right. exact Hc'. }
        destruct (Halpha c Hin) as [H | H]; [exact H | subst c; contradiction].
  - subst s. rewrite app_nil_r, Dip, Cip. split.
    + intros [Hne _]. split; [lia|]. destruct ip as [|c ip']; [congruence|].
      simpl in *. apply andb_true_iff in Dip. destruct Dip as [H _].
      rewrite H. reflexivity.
    + intros [_ He]. split; [|reflexivity]. intros E. subst ip. discriminate.
Qed.

(** X6: when [clean_price] raises, it raises [ValueError]; and it returns
    an amount exactly when the price is null, or no digit and no point is
    left of it, or what is left has a digit and at most one point. *)
Theorem clean_price_outcome (v : cell) :
  (forall e, clean_price U v = Raise e -> e = ValueError) /\
  ((exists x, clean_price U v = Ok x) <->
   isna v = true \/
   digits_and_dots U (strip U (text v)) = [] \/
   (count_dots (digits_and_dots U (strip U (text v))) <= 1 /\
    existsb (is_digit U) (digits_and_dots U (strip U (text v))) = true)).
Proof.
  unfold clean_price. destruct (isna v).
  - split; [discriminate|]. split; eauto.
  - set (r := digits_and_dots U (strip U (text v))).
    assert (Halpha : forall c, In c r -> is_digit U c = true \/ c = dot).
    { intros c Hc. unfold r, digits_and_dots in Hc. apply filter_In in Hc.
      destruct Hc as [_ Hc]. apply orb_true_iff in Hc.
      destruct Hc as [H | H]; [left; exact H | right; apply N.eqb_eq; exact H]. }
    pose proof (py_float_digits_and_dots r Halpha) as Hf.
    destruct r as [|c r'] eqn:Er.
    + split; [discriminate|]. split; eauto.
    + rewrite <- Er in *. split.
      * intros e H. destruct (py_float U r) as [x|e'] eqn:E; simpl in H;
          [discriminate|]. inversion H. subst e'. exact (py_float_error r e E).
      * rewrite <- Hf. split.
        -- intros [x H]. right. right.
           destruct (py_float U r) as [y|e'] eqn:E; simpl in H; [eauto | discriminate].
        -- intros [H | [H | [y H]]]; [discriminate | rewrite Er in H; discriminate|].
           rewrite H. simpl. eauto.
Qed.

End CleanersMore.

Lemma clean_price_outcome_witness :
  decimal ascii_ucd dot = None /\
  ((exists x, clean_price ascii_ucd (str_obj (lit "1.2.3")) = Ok x) <->
   isna (str_obj (lit "1.2.3")) = true \/
   digits_and_dots ascii_ucd (strip ascii_ucd (lit "1.2.3")) = [] \/
   (count_dots (digits_and_dots ascii_ucd (strip ascii_ucd (lit "1.2.3"))) <= 1 /\
    existsb (is_digit ascii_ucd)
      (digits_and_dots ascii_ucd (strip ascii_ucd (lit "1.2.3"))) = true)).
Proof.
  split; [reflexivity|].
  exact (proj2 (clean_price_outcome ascii_ucd eq_refl (str_obj (lit "1.2.3")))).
Defined.

Section CleanersSign.
Variable U : ucd.

Lemma binary_round_aux_sign (m e : Z) (l : location) :
  sign_set (binary_round_aux prec emax false m e l) = false.
Proof.
  unfold binary_round_aux.
  destruct (shr_fexp prec emax m e l) as [mrs e'].
  destruct (shr_fexp prec emax _ e' loc_Exact) as [mrs' e''].
  destruct (shr_m mrs'); [reflexivity | | reflexivity].
  destruct (Z.leb e'' (emax - prec)); reflexivity.
Qed.

Lemma of_decimal_sign (n : N) (k : nat) : sign_set (of_decimal n k) = false.
Proof.
  unfold of_decimal. destruct n as [|p]; [reflexivity|].
  unfold SFdiv. destruct (SFdiv_core_binary _ _ _ _ _ _) as [[mz ez] lz].
  apply binary_round_aux_sign.
Qed.

Lemma fmul_sign (x y : float) :
  sign_set x = false -> sign_set y = false -> sign_set (fmul x y) = false.
Proof.
  unfold fmul, SFmul.
  destruct x as [sx|sx| |sx mx ex], y as [sy|sy| |sy my ey]; simpl;
    intros Hx Hy; subst; try reflexivity.
  apply binary_round_aux_sign.
Qed.

Lemma py_float_sign (s : str) (x : float) :
  py_float U s = Ok x -> sign_set x = false.
Proof.
  unfold py_float. destruct (split_dot s) as [ip rest].
  destruct (ip ++ _); [discriminate|].
  destruct (digits_value U 0 _); [|discriminate].
  intros H. inversion H. apply of_decimal_sign.
Qed.

(** X7: an amount returned by [clean_price] never has its sign bit set: a
    minus sign in the price is dropped with the other characters. *)
Theorem clean_price_sign_dropped (v : cell) (x : float) :
  clean_price U v = Ok x -> sign_set x = false.
Proof.
  unfold clean_price. destruct (isna v); [intros H; inversion H; reflexivity|].
  destruct (digits_and_dots U (strip U (text v))) as [|c r] eqn:E;
    [intros H; inversion H; reflexivity|].
  destruct (py_float U (c :: r)) as [y|e] eqn:Ey; simpl; [|discriminate].
  intros H. inversion H. apply fmul_sign.
  - exact (py_float_sign _ _ Ey).
  - destruct (has_char euro _); reflexivity.
Qed.

(** X8: a timestamp without [.M.] is only trimmed. *)
Theorem clean_date_only_trims (s : str) :
  contains (lit ".M.") s = false ->
  clean_date_string U (str_obj s) = strip U s.
Proof.
  intros Hno. rewrite clean_date_of_str.
  assert (HA : contains (lit "A.M.") s = false).
  { destruct (contains (lit "A.M.") s) eqn:E; [|reflexivity].
    apply contains_cons_pattern in E. change (contains (lit ".M.") s = true) in E.
    congruence. }
  assert (HP : contains (lit "P.M.") s = false).
  { destruct (contains (lit "P.M.") s) eqn:E; [|reflexivity].
    apply contains_cons_pattern in E. change (contains (lit ".M.") s = true) in E.
    congruence. }
  rewrite (replace_absent _ _ _ HA), (replace_absent _ _ _ HP),
    (replace_absent _ _ _ Hno). reflexivity.
Qed.

(** X9: the cleaned timestamp is never longer than the timestamp and has
    no white space at its ends. *)
Theorem clean_date_shorter_and_trimmed (s : str) :
  length (clean_date_string U (str_obj s)) <= length s /\
  strip U (clean_date_string U (str_obj s)) = clean_date_string U (str_obj s).
Proof.
  split; [|apply clean_date_stripped].
  rewrite clean_date_of_str.
  set (r1 := replace (lit "A.M.") (lit "AM") s).
  set (r2 := replace (lit "P.M.") (lit "PM") r1).
  set (r3 := replace (lit ".M.") (lit "M") r2).
  pose proof (strip_length U r3) as H3.
  pose proof (replace_from_length (lit "A.M.") (lit "AM") ltac:(simpl; lia) s 0) as L1.
  pose proof (replace_from_length (lit "P.M.") (lit "PM") ltac:(simpl; lia) r1 0) as L2.
  pose proof (replace_from_length (lit ".M.") (lit "M") ltac:(simpl; lia) r2 0) as L3.
  unfold r3, r2, r1, replace in *. lia.
Qed.

End CleanersSign.

Lemma clean_price_sign_dropped_witness :
  clean_price ascii_ucd (str_obj (lit "-5")) = Ok (of_integer 5) /\
  sign_set (of_integer 5) = false.
Proof.
  split; [reflexivity|].
  apply (clean_price_sign_dropped ascii_ucd (str_obj (lit "-5")) (of_integer 5)).
  reflexivity.
Defined.

Lemma clean_date_only_trims_witness :
  contains (lit ".M.") (lit " 2024-01-05 10:00 ") = false /\
  clean_date_string ascii_ucd (str_obj (lit " 2024-01-05 10:00 "))
  = strip ascii_ucd (lit " 2024-01-05 10:00 ").
Proof.
  split; [reflexivity|].
  apply (clean_date_only_trims ascii_ucd (lit " 2024-01-05 10:00 ")).
  reflexivity.
Defined.

(* ================================================================== *)
(** * Further properties of the pipeline and the report *)

Lemma prefixb_app (p s : str) : prefixb p (p ++ s) = true.
Proof.
  induction p as [|c p IH]; simpl; [reflexivity|].
  rewrite N.eqb_refl. exact IH.
Qed.

(** X16: the join key of an id written with a trailing [.0] is the id
    without it, so that [42.0] and [42] join. *)
Theorem strip_dot0_drops_suffix (s : str) : strip_dot0 (s ++ lit ".0") = s.
Proof.
  unfold strip_dot0, ends_with. rewrite rev_app_distr, prefixb_app.
  rewrite length_app. change (length (lit ".0")) with 2.
  replace (length s + 2 - 2) with (length s) by lia.
  rewrite firstn_app, firstn_all, Nat.sub_diag. simpl. apply app_nil_r.
Qed.

Section GroupByFacts.
Variable K : Type.
Variable K_eq_dec : forall x y : K, {x = y} + {x <> y}.
Variable K_leb : K -> K -> bool.
Variable series_sum : list float -> float.

Lemma insert_sorted_In (k x : K) (l : list K) :
  In x (insert_sorted K_leb k l) <-> x = k \/ In x l.
Proof.
  induction l as [|h t IH]; simpl; [intuition congruence|].
  destruct (K_leb k h); simpl; [intuition congruence|].
  rewrite IH. intuition congruence.
Qed.

Lemma sort_keys_In (x : K) (l : list K) : In x (sort_keys K_leb l) <-> In x l.
Proof.
  unfold sort_keys. induction l as [|h t IH]; simpl; [tauto|].
  rewrite insert_sorted_In, IH. intuition congruence.
Qed.

Lemma groupby_sum_keys (rows : list (K * float)) (k : K) :
  In k (List.map fst (groupby_sum K_eq_dec K_leb series_sum rows)) <->
  In k (List.map fst rows).
Proof.
  unfold groupby_sum. rewrite map_map. simpl. rewrite map_id.
  rewrite sort_keys_In. apply unique_In.
Qed.

Lemma idxmax_from_In (l : list (K * float)) :
  forall best, idxmax_from best l = fst best \/
               In (idxmax_from best l) (List.map fst l).
Proof.
  induction l as [|kx t IH]; intros best; simpl; [left; reflexivity|].
  destruct (fltb (snd best) (snd kx)).
  - destruct (IH kx) as [H | H]; [right; left; symmetry; exact H | right; right; exact H].
  - destruct (IH best) as [H | H]; [left; exact H | right; right; exact H].
Qed.

(** The label [idxmax] returns is a label of the series. *)
Lemma idxmax_In (series : list (K * float)) (k : K) :
  idxmax series = Ok (Some k) -> In k (List.map fst series).
Proof.
  unfold idxmax. destruct series as [|s0 series']; [discriminate|].
  set (series := s0 :: series').
  destruct (filter _ series) as [|b t] eqn:E; [discriminate|].
  intros H. inversion H.
  assert (Hsub : forall x, In x (b :: t) -> In x series).
  { intros x Hx. rewrite <- E in Hx. apply filter_In in Hx.
    destruct Hx as [Hx _]. exact Hx. }
  destruct (idxmax_from_In t b) as [H' | H'].
  - rewrite H'. apply in_map. apply Hsub. left. reflexivity.
  - apply in_map_iff in H'. destruct H' as (x & Ex & Hx). rewrite <- Ex.
    apply in_map. apply Hsub. right. exact Hx.
Qed.

End GroupByFacts.

Section PipelineMore.
Variable U : ucd.
Variable Id : Type.
Variable Id_eq_dec : forall x y : Id, {x = y} + {x <> y}.
Variable Id_leb : Id -> Id -> bool.
Variable Id_str : Id -> str.
Variable Id_held_str : Id -> str.
Variable set_iter : list Id -> list Id.
Variable to_day : list str -> nat -> option str.
Variable series_sum : list float -> float.
Variable sort_values_desc : list (str * float) -> list (str * float).
Variable savefig : list (str * float) -> str -> str.

Lemma resolve_columns_In (order_cols : list str) (book_cols : list label)
  (cols : cols_t) :
  resolve_columns U order_cols book_cols = Ok cols ->
  In (c_date cols) order_cols /\ In (c_price cols) order_cols /\
  In (c_qty cols) order_cols /\ In (c_item_id cols) order_cols /\
  In (c_user_id cols) order_cols /\ In (LStr (c_book_id cols)) book_cols.
Proof.
  intros H. apply resolve_columns_roles in H.
  destruct H as (H1 & H2 & H3 & H4 & H5 & H6).
  apply next_col_In in H1, H2, H3, H4, H5. apply next_id_label_In in H6.
  destruct H1 as [H1 _], H2 as [H2 _], H3 as [H3 _], H4 as [H4 _],
    H5 as [H5 _], H6 as [H6 _].
  repeat (split; [assumption|]). assumption.
Qed.

(** X10: the names [resolve_columns] returns are columns of the tables it
    was given, the five order roles in the order table and the id among
    the labels of the catalog.  When it raises, it raises [StopIteration],
    or [TypeError], and this only on a catalog with a label that is not a
    text.  It does raise [TypeError] when the order roles resolve and such
    a label comes before every text label that contains [id]. *)
Theorem resolve_columns_outcome (order_cols : list str)
  (book_cols : list label) :
  (forall cols,
      resolve_columns U order_cols book_cols = Ok cols ->
      In (c_date cols) order_cols /\ In (c_price cols) order_cols /\
      In (c_qty cols) order_cols /\ In (c_item_id cols) order_cols /\
      In (c_user_id cols) order_cols /\
      In (LStr (c_book_id cols)) book_cols) /\
  (forall e, resolve_columns U order_cols book_cols = Raise e ->
             e = StopIteration \/ (e = TypeError /\ In LOther book_cols)) /\
  (forall cols pre post,
      resolve_columns U order_cols book_cols = Ok cols ->
      (forall l, In l pre -> exists c, l = LStr c /\
                                       contains (lit "id") c = false) ->
      resolve_columns U order_cols (pre ++ LOther :: post) = Raise TypeError).
Proof.
  split; [intros cols; apply resolve_columns_In|].
  split; [apply resolve_columns_failure|].
  intros cols pre post H Hpre. apply resolve_columns_roles in H.
  destruct H as (H1 & H2 & H3 & H4 & H5 & _).
  unfold resolve_columns. rewrite H1, H2, H3, H4, H5. cbn [bind].
  assert (E : next_id_label (pre ++ LOther :: post) = Raise TypeError).
  { clear - Hpre. induction pre as [|l pre IH]; simpl; [reflexivity|].
    destruct (Hpre l (or_introl eq_refl)) as (c' & El & Ec). subst l.
    rewrite Ec. apply IH. intros l Hl. apply Hpre. right. exact Hl. }
  rewrite E. reflexivity.
Qed.

Lemma with_day_length (dts : nat -> option str) (rows : list (order Id)) :
  forall i, length (with_day dts i rows) <= length rows.
Proof.
  induction rows as [|r t IH]; intros i; simpl; [lia|].
  destruct (dts i); simpl; specialize (IH (S i)); lia.
Qed.

Lemma zip_orders_length (d p q i u : list (ocell Id)) :
  length (zip_orders d p q i u) <= length d.
Proof.
  revert p q i u. induction d as [|d1 d' IH]; intros p q i u; simpl; [lia|].
  destruct p, q, i, u; simpl; try lia. specialize (IH p q i u). lia.
Qed.

Lemma column_of_columns (A : Type) (df : frame A) (c : str) :
  In c (columns df) -> exists data, column df c = Ok data.
Proof.
  intros H. destruct (dict_get_key (list A) df c H) as [v Hv]. exists v.
  unfold column. rewrite Hv. reflexivity.
Qed.

(** X11: once the columns are resolved, reading the order table cannot
    fail: the dated orders are computed, and there are no more of them
    than rows in the table. *)
Theorem dated_orders_after_resolution (orders : frame (ocell Id))
  (book_cols : list label) (cols : cols_t) :
  resolve_columns U (columns orders) book_cols = Ok cols ->
  exists dates rows,
    column orders (c_date cols) = Ok dates /\
    dated_orders U to_day orders cols = Ok rows /\
    length rows <= length dates.
Proof.
  intros H.
  destruct (resolve_columns_In (columns orders) book_cols cols H)
    as (H1 & H2 & H3 & H4 & H5 & _).
  destruct (column_of_columns _ orders _ H1) as [d Ed].
  destruct (column_of_columns _ orders _ H2) as [p Ep].
  destruct (column_of_columns _ orders _ H3) as [q Eq].
  destruct (column_of_columns _ orders _ H4) as [i Ei].
  destruct (column_of_columns _ orders _ H5) as [u Eu].
  unfold dated_orders. rewrite Ed, Ep, Eq, Ei, Eu. simpl.
  exists d. eexists. split; [reflexivity|]. split; [reflexivity|].
  eapply Nat.le_trans; [apply with_day_length | apply zip_orders_length].
Qed.

Lemma process_dataset_result (folder_name : str) (files : folder_files Id)
  (data : option FolderResult) :
  process_dataset U Id_eq_dec Id_leb Id_str Id_held_str set_iter to_day series_sum
    sort_values_desc savefig folder_name files = Ok data ->
  exists r, data = Some r /\ folder r = folder_name /\ length (top_5 r) <= 5.
Proof.
  intros H. unfold process_dataset in H.
  repeat match type of H with
         | bind ?x _ = Ok _ =>
             destruct x eqn:?; cbn [bind] in H; [|discriminate]
         | context [match ?p with pair _ _ => _ end] =>
             is_var p; destruct p; cbv beta iota in H
         end.
  injection H as H. subst data. eexists. split; [reflexivity|].
  cbn [folder top_5]. split; [reflexivity|]. rewrite length_map.
  match goal with
  | |- context [match ?l with [] => _ | _ :: _ => _ end] =>
      destruct l as [|? [|? [|? [|? [|? ?]]]]]
  end; simpl; lia.
Qed.

(** X13: [process_dataset] never returns [None]: every result is a record
    named after its folder, with at most five top days.  The test
    [if data:] of [main] therefore never skips a folder. *)
Theorem process_dataset_never_none (folder_name : str)
  (files : folder_files Id) :
  process_dataset U Id_eq_dec Id_leb Id_str Id_held_str set_iter to_day series_sum
    sort_values_desc savefig folder_name files <> Ok None /\
  forall r,
    process_dataset U Id_eq_dec Id_leb Id_str Id_held_str set_iter to_day series_sum
      sort_values_desc savefig folder_name files = Ok (Some r) ->
    folder r = folder_name /\ length (top_5 r) <= 5.
Proof.
  split.
  - intros H. apply process_dataset_result in H.
    destruct H as (r & H & _). discriminate.
  - intros r H. apply process_dataset_result in H.
    destruct H as (r' & E & H). inversion E. subst r'. exact H.
Qed.

Lemma main_loop_ok (disk : str -> folder_files Id) (folders : list str) :
  forall results rs,
    main_loop U Id_eq_dec Id_leb Id_str Id_held_str set_iter to_day series_sum
      sort_values_desc savefig disk folders results = Ok rs ->
    List.map folder rs = List.map folder results ++ folders /\
    forall f, In f folders ->
              exists r,
                process_dataset U Id_eq_dec Id_leb Id_str Id_held_str set_iter to_day
                  series_sum sort_values_desc savefig f (disk f) = Ok (Some r).
Proof.
  induction folders as [|f0 folders IH]; intros results rs H; simpl in H.
  - inversion H. rewrite app_nil_r. split; [reflexivity|]. intros f [].
  - destruct (process_dataset U Id_eq_dec Id_leb Id_str Id_held_str set_iter to_day
                series_sum sort_values_desc savefig f0 (disk f0))
      as [data|e] eqn:E; simpl in H; [|discriminate].
    destruct (process_dataset_result f0 (disk f0) data E) as (r & Ed & Hf & _).
    subst data. apply IH in H. destruct H as [A B]. split.
    + rewrite A, map_app. simpl. rewrite Hf, <- app_assoc. reflexivity.
    + intros f [Ef | Hin]; [subst f; eauto | auto].
Qed.

Lemma main_loop_all_ok (disk : str -> folder_files Id) (folders : list str) :
  forall results,
    (forall f, In f folders ->
               exists r,
                 process_dataset U Id_eq_dec Id_leb Id_str Id_held_str set_iter to_day
                   series_sum sort_values_desc savefig f (disk f) = Ok (Some r)) ->
    exists rs,
      main_loop U Id_eq_dec Id_leb Id_str Id_held_str set_iter to_day series_sum
        sort_values_desc savefig disk folders results = Ok rs.
Proof.
  induction folders as [|f0 folders IH]; intros results H; simpl.
  - eauto.
  - destruct (H f0 (or_introl eq_refl)) as [r Hr]. rewrite Hr. simpl.
    apply IH. intros f Hf. apply H. right. exact Hf.
Qed.

(** X12: when [main] writes a report, the report has one entry per
    configured folder, in the configured order, each under the name of
    its folder. *)
Theorem main_reports_folders_in_order (disk : str -> folder_files Id)
  (rs : list FolderResult) :
  main U Id_eq_dec Id_leb Id_str Id_held_str set_iter to_day series_sum
    sort_values_desc savefig disk = Ok rs ->
  List.map folder rs = DATA_DIRS.
Proof.
  intros H. unfold main in H. apply main_loop_ok in H. tauto.
Qed.

(** X14: [main] writes a report exactly when [process_dataset] returns a
    result for every configured folder. *)
Theorem main_succeeds_iff_all_folders_do (disk : str -> folder_files Id) :
  (exists rs, main U Id_eq_dec Id_leb Id_str Id_held_str set_iter to_day series_sum
                sort_values_desc savefig disk = Ok rs) <->
  (forall f, In f DATA_DIRS ->
             exists r,
               process_dataset U Id_eq_dec Id_leb Id_str Id_held_str set_iter to_day
                 series_sum sort_values_desc savefig f (disk f) = Ok (Some r)).
Proof.
  unfold main. split.
  - intros [rs H]. apply main_loop_ok in H. tauto.
  - apply main_loop_all_ok.
Qed.

Lemma top_buyer_In (user_map : dict Id Id)
  (rows : list (order Id * float)) (top_buyer_id : Id) :
  top_buyer Id_eq_dec Id_leb series_sum user_map rows = Ok (Some top_buyer_id) ->
  exists o paid,
    In (o, paid) rows /\ isna (as_obj (o_user o)) = false /\
    (dict_get Id_eq_dec user_map (as_key (o_user o)) = Some top_buyer_id \/
     (dict_get Id_eq_dec user_map (as_key (o_user o)) = None /\
      top_buyer_id = as_key (o_user o))).
Proof.
  unfold top_buyer. intros H. apply idxmax_In in H.
  apply (proj1 (groupby_sum_keys Id Id_eq_dec Id_leb series_sum _ _)) in H.
  apply in_map_iff in H.
  destruct H as ([k x] & E & H). simpl in E. subst k.
  apply in_flat_map in H. destruct H as ([o paid] & Hin & H). simpl in H.
  exists o, paid. split; [exact Hin|].
  destruct (isna (as_obj (o_user o))); [destruct H|]. split; [reflexivity|].
  destruct (dict_get Id_eq_dec user_map (as_key (o_user o))) as [c|];
    destruct H as [E | []]; inversion E; subst;
    [left | right; split]; reflexivity.
Qed.

(** X15: the best buyer is the resolved id of an order: the canonical id
    of its user when the id map has one, the user id of the order itself
    otherwise; an order without user is never the best buyer. *)
Theorem top_buyer_is_an_order_user (user_map : dict Id Id)
  (rows : list (order Id * float)) (top_buyer_id : Id) :
  top_buyer Id_eq_dec Id_leb series_sum user_map rows = Ok (Some top_buyer_id) ->
  exists o paid,
    In (o, paid) rows /\ isna (as_obj (o_user o)) = false /\
    (dict_get Id_eq_dec user_map (as_key (o_user o)) = Some top_buyer_id \/
     (dict_get Id_eq_dec user_map (as_key (o_user o)) = None /\
      top_buyer_id = as_key (o_user o))).
Proof.
  intros H. destruct (top_buyer_In user_map rows top_buyer_id H)
    as (o & paid & Hin & Hu & Hid).
  exists o, paid. split; [exact Hin|]. split; [exact Hu | exact Hid].
Qed.

Lemma mapM_raises (A B : Type) (f : A -> result B) (l : list A) (a : A)
  (e e0 : exn) :
  (forall x e', f x = Raise e' -> e' = e0) ->
  In a l -> f a = Raise e -> mapM f l = Raise e0.
Proof.
  intros Hall. induction l as [|h t IH]; simpl; intros Hin Ha; [destruct Hin|].
  destruct (f h) as [b|e'] eqn:Eh; simpl.
  - destruct Hin as [E | Hin]; [subst h; congruence|].
    rewrite (IH Hin Ha). reflexivity.
  - rewrite (Hall h e' Eh). reflexivity.
Qed.

(** X18: one price that cannot be parsed, in an order that is kept, fails
    the whole folder: [process_dataset] raises [ValueError]. *)
Theorem bad_price_fails_the_folder (folder_name : str)
  (files : folder_files Id) (users : list (user_row Id))
  (orders : frame (ocell Id)) (books0 : catalog) (cols : cols_t)
  (rows : list (str * order Id)) (row : str * order Id) (e : exn) :
  users_csv files = Ok users ->
  orders_parquet files = Ok orders ->
  books_yaml files = Ok books0 ->
  resolve_columns U (columns orders) (labels (strip_colons books0))
  = Ok cols ->
  dated_orders U to_day orders cols = Ok rows ->
  In row rows ->
  clean_price U (o_price (snd row)) = Raise e ->
  process_dataset U Id_eq_dec Id_leb Id_str Id_held_str set_iter to_day series_sum
    sort_values_desc savefig folder_name files = Raise ValueError.
Proof.
  intros Hu Ho Hb Hc Hd Hin Hp. unfold process_dataset.
  rewrite Hu, Ho, Hb. simpl. rewrite Hc. simpl. rewrite Hd. simpl.
  rewrite (mapM_raises _ _ (fun r => clean_price U (o_price (snd r))) rows row
             e ValueError); [reflexivity | | exact Hin | exact Hp].
  intros x e' H. exact (clean_price_error U _ e' H).
Qed.

Lemma with_day_In (dts : nat -> option str) (rows : list (order Id)) :
  forall i day r,
    In (day, r) (with_day dts i rows) <->
    exists j, nth_error rows j = Some r /\ dts (i + j) = Some day.
Proof.
  induction rows as [|r0 t IH]; intros i day r; simpl.
  - split; [intros [] | intros (j & H & _); destruct j; discriminate H].
  - assert (Hshift : (exists j, nth_error t j = Some r /\ dts (S i + j) = Some day)
                     <-> exists j, nth_error t j = Some r /\
                                   dts (i + S j) = Some day).
    { split; intros (j & H1 & H2); exists j; split; auto;
        [replace (i + S j) with (S i + j) by lia
        | replace (S i + j) with (i + S j) by lia]; exact H2. }
    destruct (dts i) as [d|] eqn:Ei.
    + simpl. rewrite IH, Hshift. split.
      * intros [E | (j & H1 & H2)].
        -- inversion E. subst. exists 0. rewrite Nat.add_0_r. auto.
        -- exists (S j). auto.
      * intros ([|j] & H1 & H2).
        -- left. simpl in H1. rewrite Nat.add_0_r in H2. congruence.
        -- right. exists j. auto.
    + rewrite IH, Hshift. split.
      * intros (j & H1 & H2). exists (S j). auto.
      * intros ([|j] & H1 & H2).
        -- rewrite Nat.add_0_r in H2. congruence.
        -- exists j. auto.
Qed.

Lemma dated_orders_rows (orders : frame (ocell Id)) (cols : cols_t)
  (rows : list (str * order Id)) :
  dated_orders U to_day orders cols = Ok rows ->
  forall day o,
    In (day, o) rows <-> exists j, dated_row U to_day orders cols j o day.
Proof.
  unfold dated_orders, dated_row. intros H.
  destruct (column orders (c_date cols)) as [d|] eqn:Ed; [|discriminate].
  destruct (column orders (c_price cols)) as [p|] eqn:Ep; [|discriminate].
  destruct (column orders (c_qty cols)) as [q|] eqn:Eq; [|discriminate].
  destruct (column orders (c_item_id cols)) as [i|] eqn:Ei; [|discriminate].
  destruct (column orders (c_user_id cols)) as [u|] eqn:Eu; [|discriminate].
  cbn [bind] in H. cbv zeta in H. injection H as H. subst rows.
  intros day o. rewrite with_day_In. simpl. split.
  - intros (j & H1 & H2). exists j, d, p, q, i, u.
    repeat (split; [reflexivity|]). split; assumption.
  - intros (j & d' & p' & q' & i' & u' & E1 & E2 & E3 & E4 & E5 & H1 & H2).
    injection E1 as E1. injection E2 as E2. injection E3 as E3.
    injection E4 as E4. injection E5 as E5. subst d' p' q' i' u'.
    exists j. split; assumption.
Qed.

Lemma firstn_incl (A : Type) (n : nat) (l : list A) (x : A) :
  In x (firstn n l) -> In x l.
Proof.
  intros H. rewrite <- (firstn_skipn n l). apply in_or_app. left. exact H.
Qed.

(** X19: an order row whose timestamp does not parse reaches neither the
    top days nor the best buyer of the result.  Every top day is the day
    of a row of the order table whose cleaned timestamp parses, and the
    best buyer, whose aliases the result lists, is the resolved id of such
    a row. *)
Theorem aggregates_use_dated_orders_only (folder_name : str)
  (files : folder_files Id) (r : FolderResult) (users : list (user_row Id))
  (orders : frame (ocell Id)) (books0 : catalog) (cols : cols_t)
  (orders1 : list (str * order Id)) (prices : list float) (n : nat)
  (user_map : dict Id Id) (user_groups : dict Id (list Id))
  (top_buyer_id : option Id) :
  (forall l x, In x (sort_values_desc l) -> In x l) ->
  process_dataset U Id_eq_dec Id_leb Id_str Id_held_str set_iter to_day
    series_sum sort_values_desc savefig folder_name files = Ok (Some r) ->
  users_csv files = Ok users ->
  orders_parquet files = Ok orders ->
  books_yaml files = Ok books0 ->
  resolve_columns U (columns orders) (labels (strip_colons books0))
  = Ok cols ->
  dated_orders U to_day orders cols = Ok orders1 ->
  mapM (fun o => clean_price U (o_price (snd o))) orders1 = Ok prices ->
  reconciliate_users U Id_eq_dec set_iter users
  = Ok (n, user_map, user_groups) ->
  top_buyer Id_eq_dec Id_leb series_sum user_map
    (combine (List.map snd orders1) (paid_amounts orders1 prices))
  = Ok top_buyer_id ->
  (forall day, In day (top_5 r) ->
               exists j o, dated_row U to_day orders cols j o day) /\
  best_ids_str r =
  best_buyer_string Id_eq_dec Id_str Id_held_str user_groups top_buyer_id /\
  (forall uid,
      top_buyer_id = Some uid ->
      exists j o day,
        dated_row U to_day orders cols j o day /\
        isna (as_obj (o_user o)) = false /\
        (dict_get Id_eq_dec user_map (as_key (o_user o)) = Some uid \/
         (dict_get Id_eq_dec user_map (as_key (o_user o)) = None /\
          uid = as_key (o_user o)))).
Proof.
  intros Hsort Hp Hu Ho Hb Hc Hd Hm Hr Ht.
  destruct (process_dataset_fields U Id Id_eq_dec Id_leb Id_str Id_held_str
              set_iter to_day series_sum sort_values_desc savefig
              folder_name files r users orders books0 cols orders1 prices n
              user_map user_groups top_buyer_id Hp Hu Ho Hb Hc Hd Hm Hr Ht)
    as (E5 & _ & Eb).
  pose proof (dated_orders_rows orders cols orders1 Hd) as Hrows.
  split; [|split; [exact Eb|]].
  - intros day Hday. rewrite E5 in Hday. apply in_map_iff in Hday.
    destruct Hday as ([day' x] & E & Hin). simpl in E. subst day'.
    apply firstn_incl in Hin. apply Hsort in Hin.
    apply (in_map fst) in Hin. simpl in Hin.
    apply (proj1 (groupby_sum_keys str str_eq_dec str_leb series_sum _ _))
      in Hin.
    apply in_map_iff in Hin. destruct Hin as ([day' y] & E & Hin).
    simpl in E. subst day'. apply in_combine_l in Hin.
    apply in_map_iff in Hin. destruct Hin as ([day' o] & E & Hin).
    simpl in E. subst day'.
    destruct (proj1 (Hrows day o) Hin) as [j Hj]. exists j, o. exact Hj.
  - intros uid E. subst top_buyer_id.
    destruct (top_buyer_In user_map _ uid Ht) as (o & paid & Hin & Hna & Hid).
    apply in_combine_l in Hin. apply in_map_iff in Hin.
    destruct Hin as ([day o'] & E & Hin). simpl in E. subst o'.
    destruct (proj1 (Hrows day o) Hin) as [j Hj].
    exists j, o, day. split; [exact Hj|]. split; [exact Hna | exact Hid].
Qed.

Lemma main_loop_first_failure (disk : str -> folder_files Id)
  (pre : list str) :
  forall f post results e,
    (forall g, In g pre ->
               exists r,
                 process_dataset U Id_eq_dec Id_leb Id_str Id_held_str set_iter to_day
                   series_sum sort_values_desc savefig g (disk g) = Ok r) ->
    process_dataset U Id_eq_dec Id_leb Id_str Id_held_str set_iter to_day series_sum
      sort_values_desc savefig f (disk f) = Raise e ->
    main_loop U Id_eq_dec Id_leb Id_str Id_held_str set_iter to_day series_sum
      sort_values_desc savefig disk (pre ++ f :: post) results = Raise e.
Proof.
  induction pre as [|g pre IH]; intros f post results e Hpre Hf; simpl.
  - rewrite Hf. reflexivity.
  - destruct (Hpre g (or_introl eq_refl)) as [r Hr]. rewrite Hr. simpl.
    apply IH; [|exact Hf]. intros g' Hg'. apply Hpre. right. exact Hg'.
Qed.

(** X20: the run stops at the first folder that fails, with the exception
    of that folder: the folders after it are not processed, whatever they
    hold. *)
Theorem main_raises_first_failure (disk : str -> folder_files Id)
  (pre : list str) (f : str) (post : list str) (e : exn) :
  DATA_DIRS = pre ++ f :: post ->
  (forall g, In g pre ->
             exists r,
               process_dataset U Id_eq_dec Id_leb Id_str Id_held_str set_iter to_day
                 series_sum sort_values_desc savefig g (disk g) = Ok r) ->
  process_dataset U Id_eq_dec Id_leb Id_str Id_held_str set_iter to_day series_sum
    sort_values_desc savefig f (disk f) = Raise e ->
  main U Id_eq_dec Id_leb Id_str Id_held_str set_iter to_day series_sum
    sort_values_desc savefig disk = Raise e.
Proof.
  intros E Hpre Hf. unfold main. rewrite E.
  apply main_loop_first_failure; assumption.
Qed.

End PipelineMore.

(* ================================================================== *)
(** * Witnesses of the further properties *)

Lemma alias_groups_partition_ids_witness :
  (forall l : list str, NoDup l -> Permutation (Demo.insertion_order l) l) /\
  exists n id_map groups,
    Demo.reconcile Demo.insertion_order Demo.users3 = Ok (n, id_map, groups) /\
    n = length groups /\
    Permutation (concat (dict_values groups)) (table_ids str_eq_dec Demo.users3).
Proof.
  split; [intros l _; apply Permutation_refl|].
  destruct (alias_groups_partition_ids ascii_ucd str str_eq_dec
              Demo.insertion_order (fun l _ => Permutation_refl l) Demo.users3)
    as (n & id_map & groups & E & H1 & H2 & _).
  exists n, id_map, groups. auto.
Defined.

Lemma same_canonical_id_iff_linked_witness :
  (forall l : list str, NoDup l -> Permutation (Demo.insertion_order l) l) /\
  exists n id_map groups,
    Demo.reconcile Demo.insertion_order Demo.users3 = Ok (n, id_map, groups) /\
    forall x y, valid_id Demo.users3 x -> valid_id Demo.users3 y ->
                (dict_get str_eq_dec id_map x = dict_get str_eq_dec id_map y <->
                 linked ascii_ucd Demo.users3 x y).
Proof.
  split; [intros l _; apply Permutation_refl|].
  apply (same_canonical_id_iff_linked ascii_ucd str str_eq_dec
           Demo.insertion_order (fun l _ => Permutation_refl l) Demo.users3).
Defined.

Lemma same_phone_or_address_same_group_witness :
  (forall l : list str, NoDup l -> Permutation (Demo.insertion_order l) l) /\
  digits_only ascii_ucd (lit "+1 (555) 010-2030") = lit "15550102030" /\
  exists n id_map groups,
    Demo.reconcile Demo.insertion_order DemoMore.callers = Ok (n, id_map, groups) /\
    dict_get str_eq_dec id_map (lit "p") = dict_get str_eq_dec id_map (lit "q").
Proof.
  split; [intros l _; apply Permutation_refl|]. split; [reflexivity|].
  destruct (same_phone_or_address_same_group ascii_ucd str str_eq_dec
              Demo.insertion_order (fun l _ => Permutation_refl l)
              DemoMore.callers)
    as (n & id_map & groups & E & H & _).
  exists n, id_map, groups. split; [exact E|].
  apply (H (DemoMore.caller "p" "+1 (555) 010-2030")
           (DemoMore.caller "q" "15550102030"));
    try reflexivity; simpl; try tauto; lia.
Defined.

Lemma alias_list_of_canonical_id_witness :
  (forall l : list str, NoDup l -> Permutation (Demo.insertion_order l) l) /\
  exists n id_map groups,
    Demo.reconcile Demo.insertion_order Demo.users3 = Ok (n, id_map, groups) /\
    forall x, valid_id Demo.users3 x ->
              exists c l, dict_get str_eq_dec id_map x = Some c /\
                          dict_get str_eq_dec groups c = Some l /\
                          hd_error l = Some c /\ NoDup l /\ In x l /\
                          forall y, In y l <-> linked ascii_ucd Demo.users3 x y.
Proof.
  split; [intros l _; apply Permutation_refl|].
  apply (alias_list_of_canonical_id ascii_ucd str str_eq_dec
           Demo.insertion_order (fun l _ => Permutation_refl l) Demo.users3).
Defined.

Lemma unknown_id_is_in_no_map_witness :
  (forall l : list str, NoDup l -> Permutation (Demo.insertion_order l) l) /\
  exists n id_map groups,
    Demo.reconcile Demo.insertion_order Demo.users3 = Ok (n, id_map, groups) /\
    forall x, ~ valid_id Demo.users3 x ->
              dict_get str_eq_dec id_map x = None /\
              dict_get str_eq_dec groups x = None.
Proof.
  split; [intros l _; apply Permutation_refl|].
  apply (unknown_id_is_in_no_map ascii_ucd str str_eq_dec
           Demo.insertion_order (fun l _ => Permutation_refl l) Demo.users3).
Defined.

Lemma dated_orders_after_resolution_witness :
  resolve_columns ascii_ucd (columns Demo.orders3) [LStr (lit "id")]
  = Ok DemoMore.cols3 /\
  exists dates rows,
    column Demo.orders3 (c_date DemoMore.cols3) = Ok dates /\
    dated_orders ascii_ucd Demo.to_day Demo.orders3 DemoMore.cols3 = Ok rows /\
    length rows <= length dates.
Proof.
  split; [reflexivity|].
  apply (dated_orders_after_resolution ascii_ucd str Demo.to_day Demo.orders3
           [LStr (lit "id")] DemoMore.cols3).
  reflexivity.
Defined.

Lemma main_reports_folders_in_order_witness :
  exists rs, Demo.run Demo.disk_complete = Ok rs /\
             List.map folder rs = DATA_DIRS.
Proof.
  eexists. split; [vm_compute; reflexivity|].
  apply (main_reports_folders_in_order ascii_ucd str str_eq_dec str_leb
           (fun s => s) (fun s => s) Demo.insertion_order Demo.to_day
           Demo.series_sum
           Demo.sort_values_desc Demo.savefig Demo.disk_complete).
  vm_compute. reflexivity.
Defined.

Lemma top_buyer_is_an_order_user_witness :
  top_buyer str_eq_dec str_leb Demo.series_sum DemoMore.no_map
    [DemoMore.order_of_z]
  = Ok (Some (lit "z")) /\
  exists o paid,
    In (o, paid) [DemoMore.order_of_z] /\ isna (as_obj (o_user o)) = false /\
    (dict_get str_eq_dec DemoMore.no_map (as_key (o_user o)) = Some (lit "z") \/
     (dict_get str_eq_dec DemoMore.no_map (as_key (o_user o)) = None /\
      lit "z" = as_key (o_user o))).
Proof.
  split; [reflexivity|].
  apply (top_buyer_is_an_order_user str str_eq_dec str_leb Demo.series_sum
           DemoMore.no_map [DemoMore.order_of_z] (lit "z")).
  reflexivity.
Defined.

Lemma bad_price_fails_the_folder_witness :
  dated_orders ascii_ucd Demo.to_day DemoMore.orders_bad_price DemoMore.cols3
  = Ok DemoMore.bad_price_rows /\
  In DemoMore.bad_price_row DemoMore.bad_price_rows /\
  clean_price ascii_ucd (o_price (snd DemoMore.bad_price_row))
  = Raise ValueError /\
  Demo.process "DATA1" DemoMore.bad_price_folder = Raise ValueError.
Proof.
  split; [reflexivity|]. split; [right; left; reflexivity|].
  split; [reflexivity|].
  apply (bad_price_fails_the_folder ascii_ucd str str_eq_dec str_leb
           (fun s => s) (fun s => s) Demo.insertion_order Demo.to_day
           Demo.series_sum
           Demo.sort_values_desc Demo.savefig (lit "DATA1")
           DemoMore.bad_price_folder Demo.users3 DemoMore.orders_bad_price
           Demo.books2 DemoMore.cols3 DemoMore.bad_price_rows
           DemoMore.bad_price_row ValueError);
    try reflexivity.
  right. left. reflexivity.
Defined.

Lemma main_raises_first_failure_witness :
  DATA_DIRS = [lit "DATA1"] ++ lit "DATA2" :: [lit "DATA3"] /\
  Demo.process "DATA2" (DemoMore.disk_missing_second (lit "DATA2"))
  = Raise FileNotFoundError /\
  Demo.run DemoMore.disk_missing_second = Raise FileNotFoundError.
Proof.
  split; [reflexivity|]. split; [reflexivity|].
  apply (main_raises_first_failure ascii_ucd str str_eq_dec str_leb
           (fun s => s) (fun s => s) Demo.insertion_order Demo.to_day
           Demo.series_sum
           Demo.sort_values_desc Demo.savefig DemoMore.disk_missing_second
           [lit "DATA1"] (lit "DATA2") [lit "DATA3"] FileNotFoundError).
  - reflexivity.
  - intros g [E | []]. subst g. eexists. vm_compute. reflexivity.
  - reflexivity.
Defined.

Lemma insert_desc_In (kx x : str * float) (l : list (str * float)) :
  In x (Demo.insert_desc kx l) -> x = kx \/ In x l.
Proof.
  induction l as [|h t IH]; simpl.
  - intros [E | []]. left. symmetry. exact E.
  - destruct (fltb (snd kx) (snd h)); simpl.
    + intros [E | H]; [right; left; exact E|].
      destruct (IH H) as [E | Hin]; [left; exact E | right; right; exact Hin].
    + intros [E | H]; [left; symmetry; exact E | right; exact H].
Qed.

Lemma demo_sort_values_desc_In (l : list (str * float)) (x : str * float) :
  In x (Demo.sort_values_desc l) -> In x l.
Proof.
  unfold Demo.sort_values_desc. induction l as [|h t IH]; simpl; [intros []|].
  intros H. apply insert_desc_In in H.
  destruct H as [E | H]; [left; symmetry; exact E | right; exact (IH H)].
Qed.

Lemma aggregates_use_dated_orders_only_witness :
  (forall l x, In x (Demo.sort_values_desc l) -> In x l) /\
  Demo.process "DATA1" DemoMore.garbled_folder
  = Ok (Some DemoMore.result_garbled) /\
  users_csv DemoMore.garbled_folder = Ok Demo.users3 /\
  orders_parquet DemoMore.garbled_folder = Ok DemoMore.orders_garbled /\
  books_yaml DemoMore.garbled_folder = Ok Demo.books2 /\
  resolve_columns ascii_ucd (columns DemoMore.orders_garbled)
    (labels (strip_colons Demo.books2)) = Ok DemoMore.cols3 /\
  dated_orders ascii_ucd Demo.to_day DemoMore.orders_garbled DemoMore.cols3
  = Ok DemoMore.dated_garbled /\
  mapM (fun o => clean_price ascii_ucd (o_price (snd o)))
    DemoMore.dated_garbled = Ok DemoMore.prices_garbled /\
  Demo.reconcile Demo.insertion_order Demo.users3
  = Ok (2, DemoMore.id_map3, DemoMore.groups3) /\
  top_buyer str_eq_dec str_leb Demo.series_sum DemoMore.id_map3
    (combine (List.map snd DemoMore.dated_garbled)
             (paid_amounts DemoMore.dated_garbled DemoMore.prices_garbled))
  = Ok (Some (lit "a")) /\
  (forall day, In day (top_5 DemoMore.result_garbled) ->
               exists j o,
                 dated_row ascii_ucd Demo.to_day DemoMore.orders_garbled
                   DemoMore.cols3 j o day) /\
  best_ids_str DemoMore.result_garbled =
  best_buyer_string str_eq_dec (fun s => s) (fun s => s) DemoMore.groups3
    (Some (lit "a")) /\
  (forall uid,
      Some (lit "a") = Some uid ->
      exists j o day,
        dated_row ascii_ucd Demo.to_day DemoMore.orders_garbled
          DemoMore.cols3 j o day /\
        isna (as_obj (o_user o)) = false /\
        (dict_get str_eq_dec DemoMore.id_map3 (as_key (o_user o)) = Some uid \/
         (dict_get str_eq_dec DemoMore.id_map3 (as_key (o_user o)) = None /\
          uid = as_key (o_user o)))).
Proof.
  assert (Hp : Demo.process "DATA1" DemoMore.garbled_folder
               = Ok (Some DemoMore.result_garbled))
    by (vm_compute; reflexivity).
  assert (Hc : resolve_columns ascii_ucd (columns DemoMore.orders_garbled)
                 (labels (strip_colons Demo.books2)) = Ok DemoMore.cols3)
    by reflexivity.
  assert (Hd : dated_orders ascii_ucd Demo.to_day DemoMore.orders_garbled
                 DemoMore.cols3 = Ok DemoMore.dated_garbled) by reflexivity.
  assert (Hm : mapM (fun o => clean_price ascii_ucd (o_price (snd o)))
                 DemoMore.dated_garbled = Ok DemoMore.prices_garbled)
    by (vm_compute; reflexivity).
  assert (Hr : Demo.reconcile Demo.insertion_order Demo.users3
               = Ok (2, DemoMore.id_map3, DemoMore.groups3))
    by (vm_compute; reflexivity).
  assert (Ht : top_buyer str_eq_dec str_leb Demo.series_sum DemoMore.id_map3
                 (combine (List.map snd DemoMore.dated_garbled)
                          (paid_amounts DemoMore.dated_garbled
                             DemoMore.prices_garbled))
               = Ok (Some (lit "a"))) by (vm_compute; reflexivity).
  split; [exact demo_sort_values_desc_In|].
  do 9 (split; [first [assumption | reflexivity]|]).
  exact (aggregates_use_dated_orders_only ascii_ucd str str_eq_dec str_leb
           (fun s => s) (fun s => s) Demo.insertion_order Demo.to_day
           Demo.series_sum Demo.sort_values_desc Demo.savefig
           (lit "DATA1") DemoMore.garbled_folder DemoMore.result_garbled
           Demo.users3 DemoMore.orders_garbled Demo.books2 DemoMore.cols3
           DemoMore.dated_garbled DemoMore.prices_garbled 2 DemoMore.id_map3
           DemoMore.groups3 (Some (lit "a")) demo_sort_values_desc_In
           Hp eq_refl eq_refl eq_refl Hc Hd Hm Hr Ht).
Defined.

Example join_key_examples :
  strip_dot0 (lit "42.0") = lit "42" /\
  strip_dot0 (lit "42") = lit "42" /\
  strip_dot0 (lit "4.05") = lit "4.05" /\
  clean_price ascii_ucd (str_obj (lit "1,234.50")) = Ok (of_decimal 12345 1).
Proof. repeat split. Qed.
